(** * infinigo: the CylanceV Infinity API client (infinity.go)

    A shallow embedding of the client library: its error values, the
    option-function configuration of [New], the request executor [do]
    with its status classification and logging, and the two public
    operations [Query] and [Upload] with the gzip buffering of the
    upload body.

    Effects are kept explicit.  Every function that logs, touches the
    file system or talks to the network returns its result together
    with the ordered trace of the effects it performed.  The Go
    standard library is not part of the repository: the pieces whose
    behaviour is fixed by a format (gzip framing, CRC-32, query
    escaping, header canonicalisation) are written out; the others
    (URL parsing, status texts, request validation, the dump helpers,
    the file system, the default transport, DEFLATE, JSON parsing) are
    the interfaces [StdLib], [Flate] and [JSONShape], and every theorem
    holds for all their implementations.

    The command line tool of the repository is embedded as well:
    [main], once its flags are parsed, as a run to an exit code with
    the trace of what it wrote and of what the library did for it. *)

From Stdlib Require Import ZArith NArith Lia Bool.
From Stdlib.Strings Require Import Byte Ascii.
From stdpp Require Import base option list strings pretty gmap sorting.

Local Open Scope Z_scope.

(** ** Strings *)

(** Go's [len(s)] on a string. *)
Definition len (s : string) : nat := String.length s.

(** [strings.HasSuffix]: [len(s) >= len(suffix) && s[len(s)-len(suffix):] == suffix]. *)
Definition HasSuffix (s suffix : string) : bool :=
  (len suffix <=? len s)%nat
  && String.eqb (String.substring (len s - len suffix) (len suffix) s) suffix.

(** [strings.HasPrefix]. *)
Definition HasPrefix (s pre : string) : bool := String.prefix pre s.

(** [strings.Join(elems, sep)]. *)
Fixpoint Join (elems : list string) (sep : string) : string :=
  match elems with
  | [] => ""
  | [e] => e
  | e :: rest => e +:+ sep +:+ Join rest sep
  end.

(** [strings.Contains], as a proposition: [sub] occurs somewhere in [s]. *)
Definition Contains (s sub : string) : Prop :=
  exists before after, s = before +:+ sub +:+ after.

(** [strconv.Itoa] and the [%d] verb: the decimal rendering of an int. *)
Definition Itoa (n : Z) : string := pretty n.

(** ** The error model *)

(** [type Error struct { ID, Details string }]. *)
Record Error := mkError { ID : string; Details : string }.

(** [func (e *Error) Error() string]. *)
Definition Error_Error (e : Error) : string := ID e +:+ ": " +:+ Details e.

(** A non-nil value of Go's [error] interface: either an [*Error] of this
    package or an error made by another package, of which only the
    originating package and the message are kept.  A nil error is [None]
    of [option goerror]. *)
Inductive goerror :=
| OwnError (e : Error)
| ForeignError (pkg : string) (msg : string).

(** The [%v] rendering of an error, which calls its [Error] method. *)
Definition error_string (e : goerror) : string :=
  match e with
  | OwnError e => Error_Error e
  | ForeignError _ msg => msg
  end.

(** The identifier carried by an error, when it is one of this package. *)
Definition error_id (e : goerror) : option string :=
  match e with
  | OwnError e => Some (ID e)
  | ForeignError _ _ => None
  end.

Definition ErrMissingCredentials : Error :=
  {| ID := "missing_credentials"; Details := "You must provide the Infinity API key" |}.

(** ** Constants *)

Definition DefaultURL : string := "https://api.cylance.com/apiv2/".
Definition AuthHeader : string := "X-IAUTH".
Definition ContentTypeHeader : string := "Content-Type".
Definition ContentLengthHeader : string := "Content-Length".
Definition GzipContentType : string := "application/xgzip".

(** ** HTTP messages *)

(** [textproto.CanonicalMIMEHeaderKey]: the first letter and every letter
    after a hyphen in upper case, the others in lower case; a key with a
    byte that is not a token character is left as it is. *)
Definition is_lower (a : ascii) : bool :=
  let n := N_of_ascii a in (97 <=? n)%N && (n <=? 122)%N.
Definition is_upper (a : ascii) : bool :=
  let n := N_of_ascii a in (65 <=? n)%N && (n <=? 90)%N.
Definition is_digit (a : ascii) : bool :=
  let n := N_of_ascii a in (48 <=? n)%N && (n <=? 57)%N.
Definition to_upper (a : ascii) : ascii :=
  if is_lower a then ascii_of_N (N_of_ascii a - 32) else a.
Definition to_lower (a : ascii) : ascii :=
  if is_upper a then ascii_of_N (N_of_ascii a + 32) else a.

Definition is_token_byte (a : ascii) : bool :=
  is_lower a || is_upper a || is_digit a
  || bool_decide (a ∈ String.list_ascii_of_string "!#$%&'*+-.^_`|~").

Fixpoint string_forallb (p : ascii -> bool) (s : string) : bool :=
  match s with
  | EmptyString => true
  | String a s => p a && string_forallb p s
  end.

Fixpoint canonical_go (upper : bool) (s : string) : string :=
  match s with
  | EmptyString => EmptyString
  | String a s =>
      let a' := if upper then to_upper a else to_lower a in
      String a' (canonical_go (Ascii.eqb a' "-"%char) s)
  end.

Definition CanonicalMIMEHeaderKey (s : string) : string :=
  if string_forallb is_token_byte s then canonical_go true s else s.

(** [http.Header], a map from canonical keys to value lists. *)
Abbreviation Header := (gmap string (list string)).

(** [Header.Set]: replaces whatever was stored under the key. *)
Definition Header_Set (h : Header) (k v : string) : Header :=
  <[CanonicalMIMEHeaderKey k := [v]]> h.

(** [Header.Get]: the first value under the key, or the empty string. *)
Definition Header_Get (h : Header) (k : string) : string :=
  match h !! CanonicalMIMEHeaderKey k with
  | Some (v :: _) => v
  | _ => ""
  end.

(** An outgoing request as [http.NewRequest] builds it and [do] completes
    it.  [ReqBody] is what the body reader holds at the moment the request
    is handed to the transport; [ContentLength] is the field NewRequest
    fills from a [*bytes.Buffer] body. *)
Record Request := mkRequest {
  Method : string;
  ReqURL : string;
  ReqHeader : Header;
  ReqBody : option (list byte);
  ContentLength : Z
}.

(** A received response: the status code, the headers, and the body as
    it stands.  [resp.Body] is a stream, which [do] and the dumps read
    and replace, so the value holds its state: the bytes it has yet to
    deliver; how it ends after them, with [io.EOF] ([None]) or with an
    error, which it then returns to every further read; and whether it
    is still the body that the transport returned or the copy that a
    dump has put in its place.  The HTTP client gives every response a
    body, so there is no response without one. *)
Record Response := Build_Response {
  StatusCode : Z;
  RespHeader : Header;
  RespBody : list byte;
  BodyError : option goerror;
  BodyReplaced : bool
}.

(** A response as a transport returns it, with a body that reads to
    its end. *)
Definition mkResponse (code : Z) (header : Header) (body : list byte) : Response :=
  Build_Response code header body None false.

(** The response when its body has been read down to [rest], and when a
    copy has taken the place of its body. *)
Definition with_body (rest : list byte) (resp : Response) : Response :=
  Build_Response (StatusCode resp) (RespHeader resp) rest (BodyError resp)
                 (BodyReplaced resp).

Definition with_copy (resp : Response) : Response :=
  Build_Response (StatusCode resp) (RespHeader resp) (RespBody resp) (BodyError resp) true.

(** [*http.Client] seen through its one method [Do]. *)
Definition HTTPClient : Type := Request -> goerror + Response.

(** ** Effects *)

(** A [*log.Logger] is known by its identity; two fields holding the same
    logger write to the same sink. *)
Definition Logger : Type := nat.

Inductive Phase := Started | Ended.

(** What a call does to the outside world, in order.  A [Printf] on a
    logger is recorded as the call it is: the format string and the
    arguments, each rendered as [%s], [%v] or [%d] renders it.  The two
    timing lines of [do] embed [time.Now()], so they are recorded by
    shape and not by text.  [CloseBody] is a call of [Close] on the
    body that the transport returned. *)
Inductive Event :=
| Printf (l : Logger) (format : string) (args : list string)
| Timing (l : Logger) (p : Phase) (rawurl : string)
| RoundTrip (req : Request)
| CloseBody
| OpenFile (path : string)
| CloseFile (path : string).

Definition M (A : Type) : Type := (A * list Event)%type.

Definition ret {A} (a : A) : M A := (a, []).

Definition bind {A B} (m : M A) (k : A -> M B) : M B :=
  let '(a, t1) := m in let '(b, t2) := k a in (b, t1 ++ t2).

Definition emit (e : Event) : M unit := (tt, [e]).

Notation "x <- m ;; k" := (bind m (fun x => k))
  (at level 100, m at next level, right associativity).
Notation "m ;;; k" := (bind m (fun _ => k))
  (at level 100, right associativity).

Definition value {A} (m : M A) : A := fst m.
Definition trace {A} (m : M A) : list Event := snd m.

(** The requests that reached a transport, in order. *)
Definition network_calls (t : list Event) : list Request :=
  omap (fun e => match e with RoundTrip r => Some r | _ => None end) t.

(** The [Printf] calls a given logger received, in order. *)
Definition printed (l : Logger) (t : list Event) : list (string * list string) :=
  omap (fun e => match e with
                 | Printf l' f args => if decide (l' = l) then Some (f, args) else None
                 | _ => None
                 end) t.

(** ** What the client takes from the Go standard library *)

(** [*url.URL]: of the parsed form the client reads the scheme only. *)
Record URL := mkURL { Scheme : string }.

(** An [io.Reader]: the chunks its successive [Read] calls deliver, and
    how it ends, with [io.EOF] ([None]) or with an error. *)
Record Reader := mkReader {
  chunks : list (list byte);
  failure : option goerror
}.

(** What [encoding/json] finds in a body that is decoded into a map:
    the literal [null]; an object, with the entries it stores in order
    and the type error it may report once it has stored them; or input
    that is rejected before anything is stored (a syntax error, a read
    error, a top-level value that is not an object).  The decoder is
    given the bytes that the body delivers and how the body ends after
    them: a value that is complete in the bytes is found whatever
    follows, an incomplete one ends in the error of the read. *)
Inductive JSONValue (V : Type) :=
| JNull
| JObject (entries : list (string * V)) (err : option goerror)
| JInvalid (err : goerror).
Arguments JNull {V}.
Arguments JObject {V} entries err.
Arguments JInvalid {V} err.

Class JSONShape (V : Type) :=
  json_parse : list byte -> option goerror -> JSONValue V.

(** [compress/flate]: a writer that hands bytes on to the underlying
    writer when it is written to and when it is closed, and the decoder
    for whole streams, which returns the data and the bytes that follow
    the stream. *)
Class Flate := {
  flate_state : Type;
  flate_NewWriter : flate_state;
  flate_Write : flate_state -> list byte -> flate_state * list byte;
  flate_Close : flate_state -> list byte;
  flate_inflate : list byte -> option (list byte * list byte)
}.

(** [Response_Write] is the text that [resp.Write] produces inside a
    dump, from the status, the headers and the bytes that the body had
    left, or its failure (a declared length that those bytes do not
    match, for one).  [json_unread] is what the JSON decoder, which
    reads ahead in blocks, has not taken from a body when [Decode]
    returns. *)
Class StdLib := {
  url_Parse : string -> goerror + URL;
  StatusText : Z -> string;
  NewRequest_failure : string -> string -> option goerror;
  DumpRequestOut : Request -> option string;
  Response_Write : Response -> option string;
  json_unread : list byte -> list byte;
  DefaultClient : HTTPClient;
  os_Open : string -> goerror + Reader
}.

(** The line feed that ends several format strings. *)
Definition LF : string := String (ascii_of_N 10) EmptyString.

(** ** The client and its configuration *)

(** [type Client struct]; the field [c] of the source is [httpc] here. *)
Record Client := mkClient {
  key : string;
  url : string;
  errorlog : option Logger;
  tracelog : option Logger;
  httpc : HTTPClient
}.

Definition with_key (v : string) (c : Client) : Client :=
  mkClient v (url c) (errorlog c) (tracelog c) (httpc c).
Definition with_url (v : string) (c : Client) : Client :=
  mkClient (key c) v (errorlog c) (tracelog c) (httpc c).
Definition with_errorlog (v : option Logger) (c : Client) : Client :=
  mkClient (key c) (url c) v (tracelog c) (httpc c).
Definition with_tracelog (v : option Logger) (c : Client) : Client :=
  mkClient (key c) (url c) (errorlog c) v (httpc c).
Definition with_httpc (v : HTTPClient) (c : Client) : Client :=
  mkClient (key c) (url c) (errorlog c) (tracelog c) v.

(** [type OptionFunc], a function from a client pointer to an error:
    the client as the function leaves it, and the error it returns. *)
Definition OptionFunc : Type := Client -> M (Client * option goerror).

(** [errorf] and [tracef]: a [Printf] on the logger when there is one. *)
Definition errorf (c : Client) (format : string) (args : list string) : M unit :=
  match errorlog c with
  | Some l => emit (Printf l format args)
  | None => ret tt
  end.

Definition tracef (c : Client) (format : string) (args : list string) : M unit :=
  match tracelog c with
  | Some l => emit (Printf l format args)
  | None => ret tt
  end.

(** The loop of [New] over the options: it stops at the first error. *)
Fixpoint run_options (options : list OptionFunc) (c : Client) : M (goerror + Client) :=
  match options with
  | [] => ret (inr c)
  | opt :: rest =>
      r <- opt c ;;
      match r with
      | (_, Some err) => ret (inl err)
      | (c', None) => run_options rest c'
      end
  end.

Definition SetKey (k : string) : OptionFunc := fun c =>
  if decide (k = "") then
    errorf c ("%v" +:+ LF) [Error_Error ErrMissingCredentials] ;;;
    ret (c, Some (OwnError ErrMissingCredentials))
  else ret (with_key k c, None).

Definition SetErrorLog (logger : option Logger) : OptionFunc := fun c =>
  ret (with_errorlog logger c, None).

Definition SetTraceLog (logger : option Logger) : OptionFunc := fun c =>
  ret (with_tracelog logger c, None).

Section Infinigo.
Context `{StdLib}.

(** The client [New] starts from: no key, the default URL, no loggers,
    the default HTTP client. *)
Definition New_initial : Client := mkClient "" DefaultURL None None DefaultClient.

Definition New (options : list OptionFunc) : M (goerror + Client) :=
  r <- run_options options New_initial ;;
  match r with
  | inl err => ret (inl err)
  | inr c =>
      tracef c ("Using URL [%s]" +:+ LF) [url c] ;;;
      if decide (key c = "") then
        errorf c "Missing credentials" [] ;;;
        ret (inl (OwnError ErrMissingCredentials))
      else ret (inr c)
  end.

Definition SetHTTPClient (httpClient : option HTTPClient) : OptionFunc := fun c =>
  match httpClient with
  | Some h => ret (with_httpc h c, None)
  | None => ret (with_httpc DefaultClient c, None)
  end.

Definition SetURL (rawurl : string) : OptionFunc := fun c =>
  let rawurl := if decide (rawurl = "") then DefaultURL else rawurl in
  match url_Parse rawurl with
  | inl err =>
      errorf c ("Invalid URL [%s] - %v" +:+ LF) [rawurl; error_string err] ;;;
      ret (c, Some err)
  | inr u =>
      if negb (String.eqb (Scheme u) "http") && negb (String.eqb (Scheme u) "https") then
        let err := mkError "bad_url" ("Invalid schema specified [" +:+ rawurl +:+ "]") in
        errorf c "%v" [Error_Error err] ;;;
        ret (c, Some (OwnError err))
      else
        let c := with_url rawurl c in
        let c := if negb (HasSuffix (url c) "/") then with_url (url c +:+ "/") c else c in
        ret (c, None)
  end.

(** ** The query string *)

Definition is_alnum (a : ascii) : bool := is_lower a || is_upper a || is_digit a.

(** [shouldEscape(c, encodeQueryComponent)] of [net/url]: letters, digits
    and [-_.~] pass, every other byte is escaped. *)
Definition shouldEscape (a : ascii) : bool :=
  negb (is_alnum a || bool_decide (a ∈ String.list_ascii_of_string "-_.~")).

Definition upperhex (n : N) : string :=
  String.substring (N.to_nat n) 1 "0123456789ABCDEF".

(** [url.QueryEscape]: a space becomes [+], an escaped byte becomes [%XX]. *)
Fixpoint QueryEscape (s : string) : string :=
  match s with
  | EmptyString => EmptyString
  | String a s =>
      (if Ascii.eqb a " "%char then "+"
       else if shouldEscape a then
         "%" +:+ upperhex (N.shiftr (N_of_ascii a) 4) +:+ upperhex (N.land (N_of_ascii a) 15)
       else String a EmptyString) +:+ QueryEscape s
  end.

(** [url.Values], a map from keys to value lists, with [Add] and [Encode]. *)
Abbreviation Values := (gmap string (list string)).

Definition Values_Add (v : Values) (k x : string) : Values :=
  <[k := default [] (v !! k) ++ [x]]> v.

(** The keys of [Encode] in sorted order. *)
Definition sorted_keys (v : Values) : list string :=
  merge_sort String.le (map fst (map_to_list v)).

Definition Values_Encode (v : Values) : string :=
  Join (sorted_keys v ≫= fun k =>
          map (fun x => QueryEscape k +:+ "=" +:+ QueryEscape x) (default [] (v !! k)))
       "&".

(** ** Requests *)

(** [http.NewRequest(method, url, body)]: the library may refuse the method
    or the URL; otherwise the request has an empty header, the body, and
    the length of a buffer body in [ContentLength]. *)
Definition http_NewRequest (method rawurl : string) (body : option (list byte))
  : goerror + Request :=
  match NewRequest_failure method rawurl with
  | Some err => inl err
  | None =>
      inr (mkRequest (if decide (method = "") then "GET" else method) rawurl ∅ body
             (match body with Some b => Z.of_nat (length b) | None => 0 end))
  end.

Definition set_header (k v : string) (req : Request) : Request :=
  mkRequest (Method req) (ReqURL req) (Header_Set (ReqHeader req) k v)
            (ReqBody req) (ContentLength req).

(** [dumpRequest] and [dumpResponse]: to the trace logger, when there is
    one and the dump succeeds.  A dump of the request without its body
    leaves the request as it is. *)
Definition dumpRequest (c : Client) (req : Request) : M unit :=
  match tracelog c with
  | Some _ =>
      match DumpRequestOut req with
      | Some out => tracef c ("%s" +:+ LF) [out]
      | None => ret tt
      end
  | None => ret tt
  end.

(** [httputil.DumpResponse(resp, true)], with what it does to
    [resp.Body]: [drainBody] reads the body to its end, closes it and
    puts a copy of what it read in its place; the response is written
    out from the copy, and a copy stays as the body.  The close is a
    call on the body of the transport unless a copy was there already.
    When the read fails there is no dump: nothing is closed, what was
    read is lost, and the body stays where it is, at its error. *)
Definition DumpResponse (resp : Response) : M (option string * Response) :=
  match BodyError resp with
  | Some _ => ret (None, with_body [] resp)
  | None =>
      (if BodyReplaced resp then ret tt else emit CloseBody) ;;;
      ret (Response_Write resp, with_copy resp)
  end.

(** [dumpResponse] returns the response as the dump has left it. *)
Definition dumpResponse (c : Client) (resp : Response) : M Response :=
  match tracelog c with
  | Some _ =>
      d <- DumpResponse resp ;;
      match d.1 with
      | Some out => tracef c ("%s" +:+ LF) [out]
      | None => ret tt
      end ;;;
      ret d.2
  | None => ret resp
  end.

(** The message of [handleError]:
    [fmt.Sprintf("Unexpected status code: %d (%s)", code, http.StatusText(code))]. *)
Definition status_message (code : Z) : string :=
  "Unexpected status code: " +:+ Itoa code +:+ " (" +:+ StatusText code +:+ ")".

(** [handleError]: a status code below 200 or from 300 on is an error. *)
Definition handleError (c : Client) (resp : Response) : M (option goerror) :=
  if (StatusCode resp <? 200) || (StatusCode resp >=? 300) then
    match errorlog c with
    | Some _ =>
        d <- DumpResponse resp ;;
        match d.1 with
        | Some out => errorf c ("%s" +:+ LF) [out]
        | None => ret tt
        end
    | None => ret tt
    end ;;;
    let msg := status_message (StatusCode resp) in
    errorf c msg [] ;;;
    ret (Some (OwnError (mkError "http_error" msg)))
  else ret None.

(** Where [do] puts the response: nowhere ([result == nil]), into an
    [io.Writer] (here a buffer, shown with what it holds), or through a
    pointer into a map variable that is [nil] ([None]) or a map. *)
Inductive Result (V : Type) :=
| NoResult
| Sink (written : list byte)
| DecodeInto (m : option (gmap string V)).
Arguments NoResult {V}.
Arguments Sink {V} written.
Arguments DecodeInto {V} m.

(** [json.NewDecoder(body).Decode(&m)] on a body that delivers [body]
    and ends as [ends] says: [null] sets the map to nil; an object
    stores its entries into the map, which is made first when it is
    nil; rejected input leaves the map alone. *)
Definition json_Decode {V} `{JSONShape V} (body : list byte) (ends : option goerror)
    (m : option (gmap string V))
  : option (gmap string V) * option goerror :=
  match json_parse body ends with
  | JNull => (None, None)
  | JObject entries err =>
      (Some (foldl (fun acc kv => <[kv.1 := kv.2]> acc) (default ∅ m) entries), err)
  | JInvalid err => (m, Some err)
  end.

(** The first part of [do], up to the request as it is handed to the
    transport: the relative URL with the encoded parameters, and the
    request with its headers. *)
Definition do_rawurl (rawurl : string) (params : gmap string string) : string :=
  if decide (0 < size params)%nat then
    rawurl +:+ "?" +:+
      Values_Encode (map_fold (fun k v values => Values_Add values k v) ∅ params)
  else rawurl.

Definition do_request (c : Client) (method rawurl : string)
    (params : gmap string string) (body : option (list byte)) (bodyLength : Z)
  : goerror + Request :=
  match http_NewRequest method (url c +:+ do_rawurl rawurl params) body with
  | inl err => inl err
  | inr req =>
      let req := set_header "Accept" "application/json" req in
      let req := set_header AuthHeader (key c) req in
      inr (match body with
           | Some _ =>
               set_header ContentLengthHeader (Itoa bodyLength)
                 (set_header ContentTypeHeader GzipContentType req)
           | None => req
           end)
  end.

(** [do] executes the API request.  It returns the destination as the
    call leaves it and the error.  The deferred [resp.Body.Close()] is a
    call on the body as the transport returned it, whatever a dump has
    put in its place since, and it runs last; the destination is filled
    from the body as the dump of [dumpResponse] has left it, and the
    dump after a failed decode sees what the decoder has not taken. *)
Definition do {V} `{JSONShape V} (c : Client) (method rawurl : string)
    (params : gmap string string) (body : option (list byte)) (bodyLength : Z)
    (result : Result V) : M (Result V * option goerror) :=
  match do_request c method rawurl params body bodyLength with
  | inl err => ret (result, Some err)
  | inr req =>
      let rawurl := do_rawurl rawurl params in
      match tracelog c with
      | Some l => dumpRequest c req ;;; emit (Timing l Started rawurl)
      | None => ret tt
      end ;;;
      emit (RoundTrip req) ;;;
      match tracelog c with
      | Some l => emit (Timing l Ended rawurl)
      | None => ret tt
      end ;;;
      match httpc c req with
      | inl err => ret (result, Some err)
      | inr resp =>
          out <- (e <- handleError c resp ;;
                  match e with
                  | Some err => ret (result, Some err)
                  | None =>
                      resp <- dumpResponse c resp ;;
                      match result with
                      | NoResult => ret (NoResult, None)
                      | Sink written =>
                          ret (Sink (written ++ RespBody resp), BodyError resp)
                      | DecodeInto m =>
                          let '(m', err) :=
                            json_Decode (RespBody resp) (BodyError resp) m in
                          match err with
                          | Some e =>
                              match errorlog c with
                              | Some _ =>
                                  d <- DumpResponse
                                         (with_body (json_unread (RespBody resp)) resp) ;;
                                  match d.1 with
                                  | Some out => errorf c ("%s" +:+ LF) [out]
                                  | None => ret tt
                                  end
                              | None => ret tt
                              end ;;;
                              ret (DecodeInto m', Some e)
                          | None => ret (DecodeInto m', None)
                          end
                      end
                  end) ;;
          emit CloseBody ;;;
          ret out
      end
  end.

(** ** Compression: [hash/crc32] and [compress/gzip] over a buffer *)

#[global] Instance byte_eq_decision : EqDecision byte := Byte.byte_eq_dec.

Definition byte_of_N (n : N) : byte := default x00 (Byte.of_N (n mod 256)).

(** The entry of the IEEE table for one byte: eight steps of the
    reflected polynomial [0xedb88320]. *)
Definition crc32_step (crc : N) : N :=
  if N.testbit crc 0 then N.lxor (N.shiftr crc 1) 3988292384 else N.shiftr crc 1.

Definition crc32_table (i : N) : N := Nat.iter 8 crc32_step i.

Definition uint32_not (x : N) : N := N.lxor x 4294967295.

(** [crc32.Update(crc, crc32.IEEETable, p)]. *)
Definition crc32_Update (crc : N) (p : list byte) : N :=
  uint32_not
    (foldl (fun crc v =>
              N.lxor (crc32_table (N.lxor (N.land crc 255) (Byte.to_N v))) (N.shiftr crc 8))
           (uint32_not crc) p).

(** [binary.LittleEndian.PutUint32]. *)
Definition le_PutUint32 (x : N) : list byte :=
  [byte_of_N x; byte_of_N (N.shiftr x 8); byte_of_N (N.shiftr x 16); byte_of_N (N.shiftr x 24)].

Definition le_Uint32 (b0 b1 b2 b3 : byte) : N :=
  Byte.to_N b0 + N.shiftl (Byte.to_N b1) 8 + N.shiftl (Byte.to_N b2) 16
  + N.shiftl (Byte.to_N b3) 24.

(** The ten header bytes a [gzip.Writer] with default settings emits:
    the magic number, the deflate method, no flags, no modification time,
    no extra flags, operating system unknown. *)
Definition gzip_header : list byte := [x1f; x8b; x08; x00; x00; x00; x00; x00; x00; xff].

Context `{Flate}.

(** [gzip.Writer]: whether the header went out, whether it was closed,
    the running size and checksum of the data, and the deflate writer.
    The writer it wraps is a [bytes.Buffer], whose writes never fail, so
    the sticky error field of the library stays nil and is left out. *)
Record gzipWriter := mkGzipWriter {
  wroteHeader : bool;
  closed : bool;
  gzsize : N;
  digest : N;
  compressor : flate_state
}.

(** [gzip.NewWriter(buf)]. *)
Definition gzip_NewWriter : gzipWriter := mkGzipWriter false false 0 0 flate_NewWriter.

(** [(z *Writer) Write(p)] on the pair of the writer and the contents
    of the buffer under it: the header goes out with the first call,
    whatever the deflate writer releases is appended. *)
Definition gzip_Write (zb : gzipWriter * list byte) (p : list byte)
  : gzipWriter * list byte :=
  let '(z, buf) := zb in
  let buf := if wroteHeader z then buf else buf ++ gzip_header in
  let '(st, out) := flate_Write (compressor z) p in
  (mkGzipWriter true (closed z)
     ((gzsize z + N.of_nat (length p)) mod 4294967296)
     (crc32_Update (digest z) p) st,
   buf ++ out).

(** [(z *Writer) Close()]: nothing when already closed; otherwise the
    header if it is still due, the rest of the deflate stream, and the
    trailer of checksum and size. *)
Definition gzip_Close (zb : gzipWriter * list byte) : gzipWriter * list byte :=
  let '(z, buf) := zb in
  if closed z then (z, buf)
  else
    let '(z, buf) := if wroteHeader z then (z, buf) else gzip_Write (z, buf) [] in
    (mkGzipWriter (wroteHeader z) true (gzsize z) (digest z) (compressor z),
     buf ++ flate_Close (compressor z) ++ le_PutUint32 (digest z) ++ le_PutUint32 (gzsize z)).

(** [io.Copy(gw, data)]: every chunk that a read delivers is written,
    an empty read writes nothing; the error of the reader, if it ends
    with one, is the error of the copy. *)
Definition io_Copy (zb : gzipWriter * list byte) (data : Reader)
  : gzipWriter * list byte * option goerror :=
  (foldl (fun zb chunk => match chunk with [] => zb | _ => gzip_Write zb chunk end)
         zb (chunks data),
   failure data).

(** The chunks that [io.Copy] writes: the reads that delivered bytes. *)
Definition written (data : Reader) : list (list byte) :=
  filter (fun chunk : list byte => chunk <> []) (chunks data).

(** Reading a gzip stream back ([gzip.NewReader] and reading to the end).
    The optional header fields are skipped as the flags say. *)
Fixpoint skip_cstring (s : list byte) : option (list byte) :=
  match s with
  | [] => None
  | b :: s => if decide (b = x00) then Some s else skip_cstring s
  end.

(** The extra field, the name and the comment. *)
Definition gzip_skip_optional (flg : N) (rest : list byte) : option (list byte) :=
  rest ← (if N.testbit flg 2 then
            match rest with
            | l0 :: l1 :: rest =>
                let n := N.to_nat (Byte.to_N l0 + 256 * Byte.to_N l1) in
                if decide (n <= length rest)%nat then Some (drop n rest) else None
            | _ => None
            end
          else Some rest);
  rest ← (if N.testbit flg 3 then skip_cstring rest else Some rest);
  if N.testbit flg 4 then skip_cstring rest else Some rest.

(** The header checksum: the low half of the CRC-32 of the header bytes
    read so far. *)
Definition gzip_check_hcrc (flg : N) (s rest : list byte) : option (list byte) :=
  if N.testbit flg 1 then
    match rest with
    | h0 :: h1 :: rest' =>
        if decide (Byte.to_N h0 + 256 * Byte.to_N h1
                   = crc32_Update 0 (take (length s - length rest) s) mod 65536)%N
        then Some rest' else None
    | _ => None
    end
  else Some rest.

(** One member: header, deflate stream, trailer.  Returns the data and
    what follows the member. *)
Definition gunzip_member (s : list byte) : option (list byte * list byte) :=
  match s with
  | id1 :: id2 :: cm :: flg :: m0 :: m1 :: m2 :: m3 :: xfl :: os :: rest =>
      if decide (id1 = x1f ∧ id2 = x8b ∧ cm = x08) then
        rest ← gzip_skip_optional (Byte.to_N flg) rest;
        rest ← gzip_check_hcrc (Byte.to_N flg) s rest;
        '(data, rest) ← flate_inflate rest;
        match rest with
        | c0 :: c1 :: c2 :: c3 :: s0 :: s1 :: s2 :: s3 :: rest =>
            if decide (le_Uint32 c0 c1 c2 c3 = crc32_Update 0 data
                       ∧ le_Uint32 s0 s1 s2 s3 = (N.of_nat (length data) mod 4294967296)%N)
            then Some (data, rest)
            else None
        | _ => None
        end
      else None
  | _ => None
  end.

(** The reader accepts one member after another until the input ends. *)
Fixpoint gunzip_members (fuel : nat) (s : list byte) : option (list byte) :=
  match fuel with
  | O => None
  | S fuel =>
      '(data, rest) ← gunzip_member s;
      match rest with
      | [] => Some data
      | _ => more ← gunzip_members fuel rest; Some (data ++ more)
      end
  end.

Definition gunzip (s : list byte) : option (list byte) :=
  gunzip_members (S (length s)) s.

(** What a deflate writer passes on while it is written the chunks one
    after the other, and the whole stream once it is closed. *)
Definition flate_run (st : flate_state) (chunks : list (list byte))
  : flate_state * list byte :=
  foldl (fun acc p => let '(st', out) := flate_Write acc.1 p in (st', acc.2 ++ out))
        (st, []) chunks.

Definition deflate (chunks : list (list byte)) : list byte :=
  let '(st, out) := flate_run flate_NewWriter chunks in out ++ flate_Close st.

(** What a deflate implementation owes its users: the decoder returns
    the data of a closed stream and the bytes after it, and a stream it
    accepts ends where the decoder says, whatever follows. *)
Record FlateLaws : Prop := {
  inflate_deflate : forall chunks rest,
    flate_inflate (deflate chunks ++ rest) = Some (concat chunks, rest);
  inflate_delimited : forall s data rest,
    flate_inflate s = Some (data, rest) ->
    exists z, s = z ++ rest
              /\ forall rest', flate_inflate (z ++ rest') = Some (data, rest')
}.

(** ** Response schemas *)

(** [float32], carried as its bit pattern; nothing here computes on it. *)
Definition float32 : Type := Z.

Record Common := mkCommon {
  Status : string;
  CommonStatusCode : float32;
  CommonError : string
}.

Record QueryResponse := mkQueryResponse {
  QueryCommon : Common;
  GeneralScore : float32;
  ConfirmCode : string;
  Classifiers : option (gmap string float32)
}.

Record UploadResponse := mkUploadResponse { UploadCommon : Common }.

Context `{JSONShape QueryResponse} `{JSONShape UploadResponse}.

(** The map a call handed to [do] as [DecodeInto] holds afterwards. *)
Definition decoded {V} (r : Result V) : option (gmap string V) :=
  match r with
  | DecodeInto m => m
  | _ => None
  end.

(** ** Public API functions *)

(** [&Error{ID: "missing_arg", Details: details}]. *)
Definition missing_arg (details : string) : goerror :=
  OwnError (mkError "missing_arg" details).

Definition Query (c : Client) (classifiers : string) (hash : list string)
  : M (option (gmap string QueryResponse) * option goerror) :=
  if decide (length hash = 0)%nat then
    ret (None, Some (missing_arg "hash is required"))
  else
    let classifiers := if decide (classifiers = "") then "all" else classifiers in
    r <- do c "GET" "q" {[ "c" := classifiers; "h" := Join hash "," ]} None 0
            (DecodeInto (Some ∅)) ;;
    ret (decoded r.1, r.2).

(** The writer and the buffer of [Upload] when [io.Copy] has returned,
    and the buffer once the deferred [gw.Close()] has run. *)
Definition Upload_copied (data : Reader) : gzipWriter * list byte * option goerror :=
  io_Copy (gzip_NewWriter, []) data.

Definition Upload_closed (data : Reader) : list byte :=
  (gzip_Close (Upload_copied data).1).2.

(** [Upload]: [data] is [None] for a nil reader.  [gw.Close()] is
    deferred: it runs when the function returns, after [do]. *)
Definition Upload (c : Client) (confirmCode : string) (data : option Reader)
  : M (option (gmap string UploadResponse) * option goerror) :=
  if decide (confirmCode = "") then
    ret (None, Some (missing_arg "Confirmation code is required"))
  else
    match data with
    | None => ret (None, Some (missing_arg "Data is required"))
    | Some data =>
        let '(gw, buf, err) := Upload_copied data in
        match err with
        | Some e =>
            let _ := gzip_Close (gw, buf) in
            ret (None, Some e)
        | None =>
            r <- do c "PUT" ("u/" +:+ confirmCode) ∅ (Some buf) (Z.of_nat (length buf))
                    (DecodeInto (Some ∅)) ;;
            let _ := gzip_Close (gw, buf) in
            ret (decoded r.1, r.2)
        end
    end.

(** [UploadFile]: the file is opened first and closed when [Upload] is
    back. *)
Definition UploadFile (c : Client) (confirmCode path : string)
  : M (option (gmap string UploadResponse) * option goerror) :=
  match os_Open path with
  | inl err => ret (None, Some err)
  | inr f =>
      emit (OpenFile path) ;;;
      r <- Upload c confirmCode (Some f) ;;
      emit (CloseFile path) ;;;
      ret r
  end.

End Infinigo.

Arguments NoResult {V}.
Arguments Sink {V} written.
Arguments DecodeInto {V} m.

(** ** A reference implementation of the library interface

    One implementation of [StdLib], [Flate] and [JSONShape], on which
    the model can be run.  It follows the Go library where the format
    leaves no choice and is kept small elsewhere: URLs are parsed up to
    the scheme (host and escape validation are left out), DEFLATE
    streams consist of stored blocks only, and the JSON reader knows
    [null] and the empty object. *)

Definition string_map (f : ascii -> ascii) : string -> string :=
  fix go s := match s with
              | EmptyString => EmptyString
              | String a s => String (f a) (go s)
              end.

(** [strings.ToLower] on ASCII. *)
Definition ToLower : string -> string := string_map to_lower.

(** [stringContainsCTLByte]: a byte below the space, or the delete byte. *)
Definition is_ctl (a : ascii) : bool :=
  let n := N_of_ascii a in (n <? 32)%N || (n =? 127)%N.

(** [strings.Cut(s, sep)] for a one-byte separator: the part before its
    first occurrence, and the part after it when it occurs. *)
Fixpoint Cut (s : string) (sep : ascii) : string * option string :=
  match s with
  | EmptyString => (EmptyString, None)
  | String a s' =>
      if Ascii.eqb a sep then (EmptyString, Some s')
      else let '(before, after) := Cut s' sep in (String a before, after)
  end.

(** [getScheme] of [net/url]: [seen] is the prefix already passed. *)
Fixpoint getScheme_from (seen s rawURL : string) : goerror + (string * string) :=
  match s with
  | EmptyString => inr (EmptyString, rawURL)
  | String a s' =>
      if is_lower a || is_upper a then getScheme_from (seen +:+ String a EmptyString) s' rawURL
      else if is_digit a || bool_decide (a ∈ String.list_ascii_of_string "+-.") then
        if decide (seen = "") then inr (EmptyString, rawURL)
        else getScheme_from (seen +:+ String a EmptyString) s' rawURL
      else if Ascii.eqb a ":"%char then
        if decide (seen = "") then inl (ForeignError "net/url" "missing protocol scheme")
        else inr (seen, s')
      else inr (EmptyString, rawURL)
  end.

Definition getScheme (rawURL : string) : goerror + (string * string) :=
  getScheme_from "" rawURL rawURL.

(** [url.Parse] up to the scheme: the fragment is cut off, control bytes
    and a leading colon are refused, a relative reference whose first
    path segment has a colon is refused, the scheme is lower-cased. *)
Definition ref_url_Parse (rawURL : string) : goerror + URL :=
  let u := (Cut rawURL "#"%char).1 in
  if negb (string_forallb (fun a => negb (is_ctl a)) u) then
    inl (ForeignError "net/url" "net/url: invalid control character in URL")
  else if decide (u = "*") then inr (mkURL "")
  else
    match getScheme u with
    | inl err => inl err
    | inr (scheme, rest) =>
        let rest := (Cut rest "?"%char).1 in
        if negb (HasPrefix rest "/") && bool_decide (scheme = "")
           && negb (string_forallb (fun a => negb (Ascii.eqb a ":"%char)) (Cut rest "/"%char).1)
        then inl (ForeignError "net/url" "first path segment in URL cannot contain colon")
        else inr (mkURL (ToLower scheme))
    end.

(** [http.StatusText]. *)
Definition ref_StatusText (code : Z) : string :=
  default "" (list_to_map (M := gmap Z string)
    [ (100, "Continue"); (101, "Switching Protocols"); (102, "Processing");
      (103, "Early Hints");
      (200, "OK"); (201, "Created"); (202, "Accepted");
      (203, "Non-Authoritative Information"); (204, "No Content");
      (205, "Reset Content"); (206, "Partial Content"); (207, "Multi-Status");
      (208, "Already Reported"); (226, "IM Used");
      (300, "Multiple Choices"); (301, "Moved Permanently"); (302, "Found");
      (303, "See Other"); (304, "Not Modified"); (305, "Use Proxy");
      (307, "Temporary Redirect"); (308, "Permanent Redirect");
      (400, "Bad Request"); (401, "Unauthorized"); (402, "Payment Required");
      (403, "Forbidden"); (404, "Not Found"); (405, "Method Not Allowed");
      (406, "Not Acceptable"); (407, "Proxy Authentication Required");
      (408, "Request Timeout"); (409, "Conflict"); (410, "Gone");
      (411, "Length Required"); (412, "Precondition Failed");
      (413, "Request Entity Too Large"); (414, "Request URI Too Long");
      (415, "Unsupported Media Type"); (416, "Requested Range Not Satisfiable");
      (417, "Expectation Failed"); (418, "I'm a teapot");
      (421, "Misdirected Request"); (422, "Unprocessable Entity");
      (423, "Locked"); (424, "Failed Dependency"); (425, "Too Early");
      (426, "Upgrade Required"); (428, "Precondition Required");
      (429, "Too Many Requests"); (431, "Request Header Fields Too Large");
      (451, "Unavailable For Legal Reasons");
      (500, "Internal Server Error"); (501, "Not Implemented");
      (502, "Bad Gateway"); (503, "Service Unavailable");
      (504, "Gateway Timeout"); (505, "HTTP Version Not Supported");
      (506, "Variant Also Negotiates"); (507, "Insufficient Storage");
      (508, "Loop Detected"); (510, "Not Extended");
      (511, "Network Authentication Required") ] !! code).

(** [http.NewRequest] refuses a method that is not a token and a URL
    that does not parse. *)
Definition ref_NewRequest_failure (method rawurl : string) : option goerror :=
  if negb (string_forallb is_token_byte method) then
    Some (ForeignError "net/http" "net/http: invalid method")
  else
    match ref_url_Parse rawurl with
    | inl err => Some err
    | inr _ => None
    end.

Definition CRLF : string := String (ascii_of_N 13) LF.

Definition string_of_bytes (b : list byte) : string := String.string_of_list_byte b.
Definition bytes_of_string (s : string) : list byte := String.list_byte_of_string s.

Definition dump_header (h : Header) : string :=
  Join (sorted_keys h ≫= fun k =>
          map (fun v => k +:+ ": " +:+ v +:+ CRLF) (default [] (h !! k))) "".

(** The dumps: the start line, the header lines, and for a response
    the bytes that its body had left.  A response that declares a
    length in its headers is not written out when those bytes are not
    as many. *)
Definition ref_DumpRequestOut (req : Request) : option string :=
  Some (Method req +:+ " " +:+ ReqURL req +:+ " HTTP/1.1" +:+ CRLF
        +:+ dump_header (ReqHeader req) +:+ CRLF).

Definition ref_Response_Write (resp : Response) : option string :=
  let declared := Header_Get (RespHeader resp) "Content-Length" in
  if bool_decide (declared = "")
     || bool_decide (declared = Itoa (Z.of_nat (length (RespBody resp)))) then
    Some ("HTTP/1.1 " +:+ Itoa (StatusCode resp) +:+ " " +:+ ref_StatusText (StatusCode resp)
          +:+ CRLF +:+ dump_header (RespHeader resp) +:+ CRLF
          +:+ string_of_bytes (RespBody resp))
  else None.

(** No network behind the default client. *)
Definition ref_DefaultClient : HTTPClient := fun _ =>
  inl (ForeignError "net" "dial tcp: network is unreachable").

(** A file system with one file. *)
Definition ref_os_Open (path : string) : goerror + Reader :=
  if decide (path = "sample.bin") then inr (mkReader [bytes_of_string "hello"] None)
  else inl (ForeignError "os" ("open " +:+ path +:+ ": no such file or directory")).

#[global] Instance ref_StdLib : StdLib := {|
  url_Parse := ref_url_Parse;
  StatusText := ref_StatusText;
  NewRequest_failure := ref_NewRequest_failure;
  DumpRequestOut := ref_DumpRequestOut;
  Response_Write := ref_Response_Write;
  json_unread := fun _ => [];
  DefaultClient := ref_DefaultClient;
  os_Open := ref_os_Open
|}.

(** DEFLATE with stored blocks.  The writer keeps what it is given and
    releases nothing before it is closed, as the library's writer does
    with input that fits its window; closing writes the data in blocks
    of at most 65535 bytes and ends with an empty final block. *)
Definition maxStoreBlockSize : nat := N.to_nat 65535.

Definition stored_block (final : bool) (data : list byte) : list byte :=
  let n := N.of_nat (length data) in
  [if final then x01 else x00;
   byte_of_N n; byte_of_N (N.shiftr n 8);
   byte_of_N (N.lxor n 65535); byte_of_N (N.shiftr (N.lxor n 65535) 8)] ++ data.

Fixpoint stored_blocks (fuel : nat) (data : list byte) : list byte :=
  match fuel, data with
  | S fuel, _ :: _ =>
      stored_block false (take maxStoreBlockSize data)
      ++ stored_blocks fuel (drop maxStoreBlockSize data)
  | _, _ => stored_block true []
  end.

Fixpoint stored_inflate (fuel : nat) (acc s : list byte) : option (list byte * list byte) :=
  match fuel with
  | O => None
  | S fuel =>
      match s with
      | hdr :: l0 :: l1 :: n0 :: n1 :: rest =>
          let n := (Byte.to_N l0 + 256 * Byte.to_N l1)%N in
          let nn := (Byte.to_N n0 + 256 * Byte.to_N n1)%N in
          if decide ((hdr = x00 ∨ hdr = x01) ∧ N.lxor n 65535 = nn
                     ∧ (N.to_nat n <= length rest)%nat) then
            let acc := acc ++ take (N.to_nat n) rest in
            if decide (hdr = x01) then Some (acc, drop (N.to_nat n) rest)
            else stored_inflate fuel acc (drop (N.to_nat n) rest)
          else None
      | _ => None
      end
  end.

#[global] Instance ref_Flate : Flate := {|
  flate_state := list byte;
  flate_NewWriter := [];
  flate_Write st p := (st ++ p, []);
  flate_Close st := stored_blocks (length st) st;
  flate_inflate s := stored_inflate (S (length s)) [] s
|}.

(** A JSON reader that knows [null] and [{}]; it takes the whole body,
    and the error of a body that breaks off is its error. *)
Definition ref_json_parse {V} (body : list byte) (ends : option goerror) : JSONValue V :=
  if decide (string_of_bytes body = "null") then JNull
  else if decide (string_of_bytes body = "{}") then JObject [] None
  else JInvalid (default (ForeignError "encoding/json"
                            "invalid character looking for beginning of value") ends).

#[global] Instance ref_JSON_QueryResponse : JSONShape QueryResponse := ref_json_parse.
#[global] Instance ref_JSON_UploadResponse : JSONShape UploadResponse := ref_json_parse.

(** A client for the examples: a transport that answers every request
    with the given response. *)
Definition canned (resp : Response) : HTTPClient := fun _ => inr resp.

Definition sample_client (errlog tracelog : option Logger) (resp : Response) : Client :=
  mkClient "k3y" "https://api.example/apiv2/" errlog tracelog (canned resp).

(** Two responses and a five-byte stream. *)
Definition sample_ok : Response := mkResponse 200 ∅ (bytes_of_string "{}").
Definition sample_failed : Response := mkResponse 500 ∅ (bytes_of_string "oops").
Definition sample_hello : Reader := mkReader [bytes_of_string "hello"] None.

(** ** The effects of the executor, piece by piece *)

(** The events that are log output: a [Printf] on a logger or one of
    the timing lines. *)
Definition is_log (e : Event) : bool :=
  match e with
  | Printf _ _ _ | Timing _ _ _ => true
  | _ => false
  end.

(** What is left of a trace without the log output: the calls of the
    transport, the closing of response bodies, the opening and closing
    of files. *)
Definition unlogged (t : list Event) : list Event :=
  List.filter (fun e => negb (is_log e)) t.

(** What a call does that shows outside the process: the requests it
    sends and the files it opens and closes. *)
Definition is_outward (e : Event) : bool :=
  match e with
  | RoundTrip _ | OpenFile _ | CloseFile _ => true
  | _ => false
  end.

Definition outward (t : list Event) : list Event := List.filter is_outward t.

Definition has_logger (l : option Logger) : bool :=
  match l with
  | Some _ => true
  | None => false
  end.

Section ExecutorLog.
Context `{StdLib} {V : Type} `{JSONShape V}.

(** [DumpResponse] in its three parts: the close of the body of the
    transport, the text, and the response it leaves. *)
Definition dump_close (resp : Response) : list Event :=
  match BodyError resp with
  | Some _ => []
  | None => if BodyReplaced resp then [] else [CloseBody]
  end.

Definition dump_text (resp : Response) : option string :=
  match BodyError resp with
  | Some _ => None
  | None => Response_Write resp
  end.

Definition dumped (resp : Response) : Response :=
  match BodyError resp with
  | Some _ => with_body [] resp
  | None => with_copy resp
  end.

(** A dump of the response for a logger, as [handleError], [dumpResponse]
    and the JSON branch of [do] make it. *)
Definition logged_dump (l : option Logger) (resp : Response) : list Event :=
  match l with
  | Some l =>
      dump_close resp
      ++ match dump_text resp with
         | Some out => [Printf l ("%s" +:+ LF) [out]]
         | None => []
         end
  | None => []
  end.

(** The response as [dumpResponse] leaves it. *)
Definition traced (c : Client) (resp : Response) : Response :=
  match tracelog c with
  | Some _ => dumped resp
  | None => resp
  end.

(** What [do] logs before it calls the transport. *)
Definition request_log (c : Client) (req : Request) (rawurl : string) : list Event :=
  match tracelog c with
  | Some l =>
      match DumpRequestOut req with
      | Some out => [Printf l ("%s" +:+ LF) [out]]
      | None => []
      end ++ [Timing l Started rawurl]
  | None => []
  end.

(** What [do] logs when the transport has returned. *)
Definition end_log (c : Client) (rawurl : string) : list Event :=
  match tracelog c with
  | Some l => [Timing l Ended rawurl]
  | None => []
  end.

(** What [do] does with a response before the deferred close: the
    dumps, with the close that the first of them makes, and the log
    lines. *)
Definition response_effects (c : Client) (resp : Response) (result : Result V)
  : list Event :=
  if (StatusCode resp <? 200) || (StatusCode resp >=? 300) then
    logged_dump (errorlog c) resp
    ++ match errorlog c with
       | Some l => [Printf l (status_message (StatusCode resp)) []]
       | None => []
       end
  else
    logged_dump (tracelog c) resp
    ++ match result with
       | DecodeInto m =>
           let resp := traced c resp in
           match (json_Decode (RespBody resp) (BodyError resp) m).2 with
           | Some _ =>
               logged_dump (errorlog c) (with_body (json_unread (RespBody resp)) resp)
           | None => []
           end
       | _ => []
       end.

(** Whether a dump closes the body of the transport before the deferred
    close does: the body is in place and reads to its end, and a dump
    is made of it: for the error logger when the status is an error;
    otherwise for the trace logger, or else for the error logger when
    the decoding fails. *)
Definition dump_closes (c : Client) (resp : Response) (result : Result V) : bool :=
  match BodyError resp with
  | Some _ => false
  | None =>
      negb (BodyReplaced resp)
      && if (StatusCode resp <? 200) || (StatusCode resp >=? 300) then
           has_logger (errorlog c)
         else
           has_logger (tracelog c)
           || match result with
              | DecodeInto m =>
                  match (json_Decode (RespBody resp) None m).2 with
                  | Some _ => has_logger (errorlog c)
                  | None => false
                  end
              | _ => false
              end
  end.

End ExecutorLog.

(** ** Reading a query string back

    [url.QueryUnescape] and [url.ParseQuery], the inverse on the
    receiving side of the encoding that [do] applies to its parameters. *)

(** The bytes [url.QueryEscape] lets through or produces. *)
Definition query_byte (a : ascii) : bool :=
  is_alnum a || bool_decide (a ∈ String.list_ascii_of_string "-_.~+%").

(** [ishex] and [unhex] of [net/url]. *)
Definition ishex (a : ascii) : bool :=
  let n := N_of_ascii a in
  is_digit a || ((97 <=? n) && (n <=? 102))%N || ((65 <=? n) && (n <=? 70))%N.

Definition unhex (a : ascii) : N :=
  let n := N_of_ascii a in
  if is_digit a then n - 48
  else if ((97 <=? n) && (n <=? 102))%N then n - 97 + 10
  else if ((65 <=? n) && (n <=? 70))%N then n - 65 + 10
  else 0.

(** [url.QueryUnescape]: [%XY] with two hex digits is the byte [XY], a
    percent sign followed by anything else is an error, [+] is a space. *)
Fixpoint QueryUnescape (s : string) : option string :=
  match s with
  | EmptyString => Some EmptyString
  | String a rest =>
      if Ascii.eqb a "%"%char then
        match rest with
        | String h1 (String h2 rest') =>
            if ishex h1 && ishex h2 then
              String (ascii_of_N (N.shiftl (unhex h1) 4 + unhex h2)) <$> QueryUnescape rest'
            else None
        | _ => None
        end
      else if Ascii.eqb a "+"%char then String " "%char <$> QueryUnescape rest
      else String a <$> QueryUnescape rest
  end.

(** The two ways in which [url.ParseQuery] rejects a piece. *)
Inductive QueryError := SemicolonSeparator | InvalidEscape.

(** The loop of [url.ParseQuery]: the query is cut at each [&]; a piece
    with a semicolon is an error, an empty piece is skipped; a piece is
    cut at its first [=], both halves are unescaped, and the value is
    appended under the key.  The first error in an escape is kept, the
    error for a semicolon replaces what was there.  The fuel bounds the
    number of pieces. *)
Fixpoint parseQuery (fuel : nat) (m : gmap string (list string))
    (err : option QueryError) (query : string)
  : gmap string (list string) * option QueryError :=
  match fuel with
  | O => (m, err)
  | S fuel =>
      if decide (query = "") then (m, err)
      else
        let '(piece, rest) := Cut query "&"%char in
        let query := default "" rest in
        if negb (string_forallb (fun a => negb (Ascii.eqb a ";"%char)) piece) then
          parseQuery fuel m (Some SemicolonSeparator) query
        else if decide (piece = "") then parseQuery fuel m err query
        else
          let '(k, v) := Cut piece "="%char in
          match QueryUnescape k, QueryUnescape (default "" v) with
          | Some k, Some v => parseQuery fuel (Values_Add m k v) err query
          | _, _ =>
              parseQuery fuel m (Some (default InvalidEscape err)) query
          end
  end.

Definition ParseQuery (query : string) : gmap string (list string) * option QueryError :=
  parseQuery (S (len query)) ∅ None query.

(** One parameter as [Values.Encode] writes it. *)
Abbreviation encoded kv := (QueryEscape kv.1 +:+ "=" +:+ QueryEscape kv.2).

(** ** The options of the package, as a caller writes them *)

Inductive OptionCall :=
| CallSetKey (k : string)
| CallSetHTTPClient (httpClient : option HTTPClient)
| CallSetURL (rawurl : string)
| CallSetErrorLog (logger : option Logger)
| CallSetTraceLog (logger : option Logger).

Definition option_of `{StdLib} (call : OptionCall) : OptionFunc :=
  match call with
  | CallSetKey k => SetKey k
  | CallSetHTTPClient h => SetHTTPClient h
  | CallSetURL rawurl => SetURL rawurl
  | CallSetErrorLog l => SetErrorLog l
  | CallSetTraceLog l => SetTraceLog l
  end.

(** What a call asks for, field by field. *)
Definition asked_key (call : OptionCall) : option string :=
  match call with CallSetKey k => Some k | _ => None end.

Definition asked_url (call : OptionCall) : option string :=
  match call with
  | CallSetURL rawurl => Some (if decide (rawurl = "") then DefaultURL else rawurl)
  | _ => None
  end.

Definition asked_httpc `{StdLib} (call : OptionCall) : option HTTPClient :=
  match call with
  | CallSetHTTPClient h => Some (default DefaultClient h)
  | _ => None
  end.

Definition asked_errorlog (call : OptionCall) : option (option Logger) :=
  match call with CallSetErrorLog l => Some l | _ => None end.

Definition asked_tracelog (call : OptionCall) : option (option Logger) :=
  match call with CallSetTraceLog l => Some l | _ => None end.

(** The last of the values that a list of calls asks for, if any. *)
Definition last_asked {A} (asked : OptionCall -> option A) (calls : list OptionCall)
  : option A :=
  last (omap asked calls).

(** A base URL with its trailing separator. *)
Definition with_separator (s : string) : string :=
  if HasSuffix s "/" then s else s +:+ "/".

(** ** The command line tool

    The second file of the repository, [main] with [check].  The
    values of the flags are its input; it runs to an exit code and
    leaves a trace of what it printed and of what the library did. *)

(** [strings.Split] for a separator of one byte: the pieces between the
    separators, one more than there are separators. *)
Fixpoint Split (s : string) (sep : ascii) : list string :=
  match s with
  | EmptyString => [EmptyString]
  | String a s' =>
      if Ascii.eqb a sep then EmptyString :: Split s' sep
      else
        match Split s' sep with
        | piece :: pieces => String a piece :: pieces
        | [] => [String a EmptyString]
        end
  end.

(** The package-level variables that [flag.Parse] fills. *)
Record Flags := mkFlags {
  flag_key : string;
  flag_url : string;
  flag_q : string;
  flag_f : string;
  flag_c : string;
  flag_jsonFormat : bool;
  flag_v : bool
}.

(** What the tool does to the outside world: an effect of a call into
    the library, a formatted print to standard error or to standard
    output, or a line on standard output. *)
Inductive CLIEvent :=
| Lib (e : Event)
| Stderr (format : string) (args : list string)
| Stdout (format : string) (args : list string)
| StdoutLine (line : string).

(** A run of the tool up to some point: either the code with which
    [os.Exit] ended it or the value computed, and the events so far. *)
Definition CLI (A : Type) : Type := ((Z + A) * list CLIEvent)%type.

Definition retC {A} (a : A) : CLI A := (inr a, []).
Definition exitC {A} (code : Z) : CLI A := (inl code, []).
Definition emitC (e : CLIEvent) : CLI unit := (inr tt, [e]).
Definition lift {A} (m : M A) : CLI A := (inr (value m), map Lib (trace m)).

Definition bindC {A B} (m : CLI A) (k : A -> CLI B) : CLI B :=
  match m with
  | (inl code, t) => (inl code, t)
  | (inr a, t) => let '(r, t') := k a in (r, t ++ t')
  end.

Notation "x <~ m ;; k" := (bindC m (fun x => k))
  (at level 100, m at next level, right associativity).
Notation "m ;;~ k" := (bindC m (fun _ => k))
  (at level 100, right associativity).

(** The exit code of a run: that of [os.Exit], or 0 when [main] returns. *)
Definition exit_code {A} (run : CLI A) : Z :=
  match run.1 with
  | inl code => code
  | inr _ => 0
  end.

(** The effects of the library in a run, and the requests among them. *)
Definition lib_events (t : list CLIEvent) : list Event :=
  omap (fun e => match e with Lib e => Some e | _ => None end) t.

Definition cli_network_calls (t : list CLIEvent) : list Request :=
  network_calls (lib_events t).

(** What is printed on standard output, in order. *)
Definition is_stdout (e : CLIEvent) : bool :=
  match e with
  | Stdout _ _ | StdoutLine _ => true
  | _ => false
  end.

Definition stdout (t : list CLIEvent) : list CLIEvent := List.filter is_stdout t.

(** What shows of a run outside the process, the log of the library
    apart: what the tool itself prints, the requests, the files. *)
Definition cli_outward (t : list CLIEvent) : list CLIEvent :=
  List.filter (fun e => match e with Lib e => is_outward e | _ => true end) t.

(** How a run or a part of it ends: either it goes on, having written
    nothing to standard error itself, or it is over with code 2 and the
    line for the error is the last thing written. *)
Definition error_line (msg : string) : CLIEvent := Stderr ("Error - %v" +:+ LF) [msg].

Definition reports_errors {A} (run : CLI A) : Prop :=
  (exists a, run.1 = inr a /\ forall format args, ~ In (Stderr format args) run.2)
  \/ (exists msg t, run = (inl 2, t ++ [error_line msg])).

(** What the tool takes from [fmt], [encoding/json] and the runtime:
    the [%v] rendering of a [float32] and of the classifiers map,
    [json.MarshalIndent] on the two result maps, and the order in which
    a [range] loop visits a map. *)
Class ToolLib := {
  fmt_float32 : float32 -> string;
  fmt_classifiers : option (gmap string float32) -> string;
  MarshalIndent_query : option (gmap string QueryResponse) -> goerror + string;
  MarshalIndent_upload : option (gmap string UploadResponse) -> goerror + string;
  range_query : gmap string QueryResponse -> list (string * QueryResponse);
  range_upload : gmap string UploadResponse -> list (string * UploadResponse)
}.

(** [x != 0] on a [float32] given by its bits: both zeros are zero. *)
Definition float32_nonzero (x : float32) : bool :=
  negb ((x =? 0) || (x =? 2147483648)).

Definition TAB : string := String (ascii_of_N 9) EmptyString.

(** The two loggers [main] makes with [log.New(os.Stderr, ...)]. *)
Definition stderr_errorlog : Logger := 0%nat.
Definition stderr_tracelog : Logger := 1%nat.

(** [check]: an error is printed and ends the run with code 2. *)
Definition check (e : option goerror) : CLI unit :=
  match e with
  | Some e => emitC (Stderr ("Error - %v" +:+ LF) [error_string e]) ;;~ exitC 2
  | None => retC tt
  end.

Section Tool.
Context `{StdLib} `{Flate} `{JSONShape QueryResponse} `{JSONShape UploadResponse}
        `{ToolLib}.

(** The two ways of printing a result: as indented JSON, or one line
    for each entry of the map. *)
Definition print_query (jsonFormat : bool) (res : option (gmap string QueryResponse))
  : CLI unit :=
  if jsonFormat then
    match MarshalIndent_query res with
    | inl err => check (Some err)
    | inr b => emitC (StdoutLine b)
    end
  else
    foldr (fun kv rest =>
             let v := kv.2 in
             let score :=
               if float32_nonzero (GeneralScore v) then fmt_float32 (GeneralScore v)
               else "-" in
             let confCode := if decide (ConfirmCode v = "") then "-" else ConfirmCode v in
             emitC (Stdout ("%s" +:+ TAB +:+ "%s [%v] %s" +:+ TAB +:+ "%v" +:+ TAB
                            +:+ "%s" +:+ TAB +:+ "%v" +:+ LF)
                      [kv.1; Status (QueryCommon v);
                       fmt_float32 (CommonStatusCode (QueryCommon v));
                       CommonError (QueryCommon v); score; confCode;
                       fmt_classifiers (Classifiers v)]) ;;~
             rest)
          (retC tt) (range_query (default ∅ res)).

Definition print_upload (jsonFormat : bool) (res : option (gmap string UploadResponse))
  : CLI unit :=
  if jsonFormat then
    match MarshalIndent_upload res with
    | inl err => check (Some err)
    | inr b => emitC (StdoutLine b)
    end
  else
    foldr (fun kv rest =>
             let v := kv.2 in
             emitC (Stdout ("Upload done with result: %s [%v] %s" +:+ LF)
                      [Status (UploadCommon v);
                       fmt_float32 (CommonStatusCode (UploadCommon v));
                       CommonError (UploadCommon v)]) ;;~
             rest)
          (retC tt) (range_upload (default ∅ res)).

(** The block of [main] for [-q]: the value of the flag is split at
    the commas, the hashes are queried with no classifiers given, and
    the result is printed. *)
Definition query_command (inf : Client) (flags : Flags) : CLI unit :=
  if negb (bool_decide (flag_q flags = "")) then
    let hashes := Split (flag_q flags) ","%char in
    r <~ lift (Query inf "" hashes) ;;
    check r.2 ;;~
    print_query (flag_jsonFormat flags) r.1
  else retC tt.

(** The block of [main] for [-f]. *)
Definition upload_command (inf : Client) (flags : Flags) : CLI unit :=
  if negb (bool_decide (flag_f flags = "")) then
    r <~ lift (UploadFile inf (flag_c flags) (flag_f flags)) ;;
    check r.2 ;;~
    print_upload (flag_jsonFormat flags) r.1
  else retC tt.

(** [main], after [flag.Parse]: the two checks of the flags, the
    client, the trace logger for [-v], then the two blocks. *)
Definition main (flags : Flags) : CLI unit :=
  (if bool_decide (flag_q flags = "") && bool_decide (flag_f flags = "") then
     emitC (Stderr ("No command given. Please specify either q or f as parameters" +:+ LF)
              []) ;;~
     exitC 1
   else retC tt) ;;~
  (if negb (bool_decide (flag_f flags = "")) && bool_decide (flag_c flags = "")
      || negb (bool_decide (flag_c flags = "")) && bool_decide (flag_f flags = "") then
     emitC (Stderr ("You must provide both the file and confirmation code for upload"
                    +:+ LF) []) ;;~
     exitC 1
   else retC tt) ;;~
  r <~ lift (New [SetErrorLog (Some stderr_errorlog); SetURL (flag_url flags);
                  SetKey (flag_key flags)]) ;;
  match r with
  | inl err => check (Some err)
  | inr inf =>
      inf <~ (if flag_v flags then
                o <~ lift (SetTraceLog (Some stderr_tracelog) inf) ;; retC o.1
              else retC inf) ;;
      query_command inf flags ;;~
      upload_command inf flags
  end.

End Tool.

(** ** The tool in the examples *)

(** Renderings for the examples: a number prints as the decimal of its
    bits, a map as a fixed text, and a [range] loop visits a map in the
    order of its keys. *)
#[global] Instance ref_ToolLib : ToolLib := {|
  fmt_float32 := Itoa;
  fmt_classifiers := fun m => match m with Some _ => "map[...]" | None => "map[]" end;
  MarshalIndent_query := fun m => inr (match m with Some _ => "{...}" | None => "null" end);
  MarshalIndent_upload := fun m => inr (match m with Some _ => "{...}" | None => "null" end);
  range_query := map_to_list;
  range_upload := map_to_list
|}.

(** A command line that asks for two hashes and for an upload, and one
    without a key. *)
Definition sample_flags : Flags :=
  mkFlags "k3y" "" "abc123,ff" "sample.bin" "CODE1" false true.

Definition sample_flags_no_key : Flags :=
  mkFlags "" "" "abc123" "" "" false false.

(** The standard library of the examples with a server behind the
    default client. *)
Definition online_StdLib : StdLib := {|
  url_Parse := ref_url_Parse;
  StatusText := ref_StatusText;
  NewRequest_failure := ref_NewRequest_failure;
  DumpRequestOut := ref_DumpRequestOut;
  Response_Write := ref_Response_Write;
  json_unread := fun _ => [];
  DefaultClient := canned sample_ok;
  os_Open := ref_os_Open
|}.


(** A client without a network, and a stream that breaks off. *)
Definition sample_offline (errlog tracelog : option Logger) : Client :=
  mkClient "k3y" "https://api.example/apiv2/" errlog tracelog ref_DefaultClient.

Definition sample_broken : Reader :=
  mkReader [bytes_of_string "he"] (Some (ForeignError "io" "unexpected EOF")).

(** * Properties *)

(** ** Strings *)

Lemma append_nil_l (s : string) : "" +:+ s = s.
Proof. reflexivity. Qed.

Lemma append_cons (a : ascii) (s t : string) : String a s +:+ t = String a (s +:+ t).
Proof. reflexivity. Qed.

Lemma append_nil_r (s : string) : s +:+ "" = s.
Proof. induction s as [|a s IH]; [reflexivity|]. rewrite append_cons. by f_equal. Qed.

Lemma append_assoc (s t u : string) : (s +:+ t) +:+ u = s +:+ (t +:+ u).
Proof. induction s as [|a s IH]; [reflexivity|]. rewrite !append_cons. by f_equal. Qed.

Lemma len_append (s t : string) : len (s +:+ t) = (len s + len t)%nat.
Proof.
  unfold len. induction s as [|a s IH]; [reflexivity|].
  rewrite append_cons. simpl. by rewrite IH.
Qed.

Lemma substring_all (t : string) : String.substring 0 (len t) t = t.
Proof. induction t as [|a t IH]; [reflexivity|]. simpl. by rewrite IH. Qed.

Lemma substring_append_r (p t : string) : String.substring (len p) (len t) (p +:+ t) = t.
Proof.
  induction p as [|a p IH]; [apply substring_all|].
  rewrite append_cons. simpl. apply IH.
Qed.

Lemma substring_split (s : string) (n : nat) :
  (n <= len s)%nat ->
  s = String.substring 0 n s +:+ String.substring n (len s - n) s.
Proof.
  revert n. induction s as [|a s IH]; intros [|n] Hn; simpl in *; try lia.
  - reflexivity.
  - rewrite append_nil_l. f_equal. symmetry. apply substring_all.
  - rewrite append_cons. f_equal. apply IH. lia.
Qed.

(** [HasSuffix] holds exactly of the strings that end with the suffix. *)
Lemma HasSuffix_iff (s suffix : string) :
  HasSuffix s suffix = true <-> exists p, s = p +:+ suffix.
Proof.
  unfold HasSuffix. rewrite andb_true_iff, Nat.leb_le, String.eqb_eq. split.
  - intros [Hle Hsub]. exists (String.substring 0 (len s - len suffix) s).
    pose proof (substring_split s (len s - len suffix)) as Hsplit.
    replace (len s - (len s - len suffix))%nat with (len suffix) in Hsplit by lia.
    rewrite Hsub in Hsplit. apply Hsplit. lia.
  - intros [p ->]. rewrite len_append. split; [lia|].
    replace (len p + len suffix - len suffix)%nat with (len p) by lia.
    apply substring_append_r.
Qed.

Lemma append_snoc_inj (s t : string) (a b : ascii) :
  s +:+ String a "" = t +:+ String b "" -> s = t /\ a = b.
Proof.
  revert t. induction s as [|c s IH]; intros [|d t] Heq.
  - by inversion Heq.
  - rewrite append_nil_l, append_cons in Heq. inversion Heq as [[Hc Ht]].
    destruct t; discriminate Ht.
  - rewrite append_nil_l, append_cons in Heq. inversion Heq as [[Hc Hs]].
    destruct s; discriminate Hs.
  - rewrite !append_cons in Heq. inversion Heq as [[Hc Hs]].
    destruct (IH _ Hs) as [-> ->]. done.
Qed.

(** Appending a separator to a string that has none gives a string with
    exactly one. *)
Lemma HasSuffix_appended (s : string) :
  HasSuffix (s +:+ "/") "/" = true
  /\ (HasSuffix s "/" = false -> HasSuffix (s +:+ "/") "//" = false).
Proof.
  split.
  - apply HasSuffix_iff. by exists s.
  - intros Hno. apply not_true_is_false. intros [p Hp]%HasSuffix_iff.
    change "//" with ("/" +:+ "/") in Hp. rewrite <- append_assoc in Hp.
    apply append_snoc_inj in Hp as [-> _].
    apply not_true_iff_false in Hno. apply Hno, HasSuffix_iff. by exists p.
Qed.

Lemma Contains_middle (before sub after : string) :
  Contains (before +:+ sub +:+ after) sub.
Proof. by exists before, after. Qed.

(** ** Client construction *)

Section Construction.
Context `{StdLib}.

Lemma run_options_app_err (pre post : list OptionFunc) (c : Client) (e : goerror)
    (t : list Event) :
  run_options pre c = (inl e, t) -> run_options (pre ++ post) c = (inl e, t).
Proof.
  revert c t. induction pre as [|opt pre IH]; intros c t Hrun; simpl in *.
  - discriminate.
  - unfold bind in *. destruct (opt c) as [[c1 [err|]] t1].
    + exact Hrun.
    + destruct (run_options pre c1) as [[e1|c2] t2] eqn:Hpre; [|congruence].
      inversion Hrun; subst. by rewrite (IH _ _ Hpre).
Qed.

Lemma run_options_app_ok (pre post : list OptionFunc) (c c' : Client) (t : list Event) :
  run_options pre c = (inr c', t) ->
  run_options (pre ++ post) c
  = (value (run_options post c'), t ++ trace (run_options post c')).
Proof.
  revert c t. induction pre as [|opt pre IH]; intros c t Hrun; simpl in *.
  - inversion Hrun; subst. by destruct (run_options post c').
  - unfold bind in *. destruct (opt c) as [[c1 [err|]] t1]; [discriminate|].
    destruct (run_options pre c1) as [[e1|c2] t2] eqn:Hpre; [discriminate|].
    inversion Hrun; subst. rewrite (IH _ _ Hpre).
    unfold value, trace. simpl. by rewrite app_assoc.
Qed.

(** An error of the option loop is the error of [New], and nothing is
    done after it. *)
Lemma New_options_err (options : list OptionFunc) (e : goerror) (t : list Event) :
  run_options options New_initial = (inl e, t) -> New options = (inl e, t).
Proof. intros Hrun. unfold New, bind. rewrite Hrun. simpl. by rewrite app_nil_r. Qed.

Lemma New_value_ok (options : list OptionFunc) (c : Client) (t : list Event) :
  run_options options New_initial = (inr c, t) ->
  value (New options)
  = if decide (key c = "") then inl (OwnError ErrMissingCredentials) else inr c.
Proof.
  intros Hrun. unfold New, bind, tracef, errorf. rewrite Hrun.
  destruct (tracelog c), (decide (key c = "")), (errorlog c); reflexivity.
Qed.

(** The first option that fails ends the construction. *)
Lemma New_halts (pre post : list OptionFunc) (opt : OptionFunc) (c c' : Client)
    (err : goerror) (t t' : list Event) :
  run_options pre New_initial = (inr c, t) ->
  opt c = ((c', Some err), t') ->
  New (pre ++ opt :: post) = (inl err, t ++ t').
Proof.
  intros Hpre Hopt.
  apply New_options_err. rewrite (run_options_app_ok _ _ _ _ _ Hpre).
  simpl. unfold bind. rewrite Hopt. unfold value, trace. simpl.
  by rewrite app_nil_r.
Qed.

(** [SetKey] with the empty key is itself refused with the same error. *)
Lemma SetKey_empty (c : Client) :
  value (SetKey "" c) = (c, Some (OwnError ErrMissingCredentials)).
Proof. unfold SetKey, errorf. simpl. by destruct (errorlog c). Qed.

(** C5, as amended.  However the options are chosen, a construction
    whose options all run and leave the key empty (it was never set)
    fails with [missing_credentials], and so does one that reaches
    [SetKey] with the empty key; construction stops at the first option
    that returns an error, whose error is the result, and the options
    after it are not run, so an option that fails earlier decides the
    error; and no client is ever returned with an empty key. *)
Theorem New_empty_key_missing_credentials (options : list OptionFunc) :
  (forall c t,
      run_options options New_initial = (inr c, t) -> key c = "" ->
      value (New options) = inl (OwnError ErrMissingCredentials)
      /\ error_id (OwnError ErrMissingCredentials) = Some "missing_credentials")
  /\ (forall pre post c t,
         options = pre ++ SetKey "" :: post ->
         run_options pre New_initial = (inr c, t) ->
         value (New options) = inl (OwnError ErrMissingCredentials))
  /\ (forall pre opt post c t c' err t',
         options = pre ++ opt :: post ->
         run_options pre New_initial = (inr c, t) ->
         opt c = ((c', Some err), t') ->
         New options = (inl err, t ++ t'))
  /\ (forall c, value (New options) = inr c -> key c <> "").
Proof.
  split; [|split; [|split]].
  - intros c t Hrun Hkey. split; [|reflexivity].
    rewrite (New_value_ok _ _ _ Hrun). by rewrite decide_True.
  - intros pre post c t -> Hpre.
    destruct (SetKey "" c) as [[c' oe] t'] eqn:Hset.
    pose proof (SetKey_empty c) as Hval. rewrite Hset in Hval.
    unfold value in Hval. simpl in Hval. inversion Hval; subst.
    by rewrite (New_halts pre post (SetKey "") c c _ t t' Hpre Hset).
  - intros pre opt post c t c' err t' -> Hpre Hopt. by apply New_halts with c c'.
  - intros c Hnew Hkey.
    destruct (run_options options New_initial) as [[e|c1] t] eqn:Hrun.
    + rewrite (New_options_err _ _ _ Hrun) in Hnew. discriminate.
    + rewrite (New_value_ok _ _ _ Hrun) in Hnew.
      destruct (decide (key c1 = "")); [discriminate|]. congruence.
Qed.

(** The outcome of [SetURL] on a URL of another scheme. *)
Lemma SetURL_other_scheme (rawurl : string) (u : URL) (c : Client) :
  rawurl <> "" -> url_Parse rawurl = inr u ->
  Scheme u <> "http" -> Scheme u <> "https" ->
  value (SetURL rawurl c)
  = (c, Some (OwnError (mkError "bad_url" ("Invalid schema specified [" +:+ rawurl +:+ "]")))).
Proof.
  intros Hne Hparse Hhttp Hhttps. unfold SetURL.
  rewrite decide_False by done. rewrite Hparse.
  apply String.eqb_neq in Hhttp, Hhttps. rewrite Hhttp, Hhttps. simpl.
  unfold errorf. by destruct (errorlog c).
Qed.

(** C6.  A non-empty URL that parses but has a scheme other than http
    and https makes [SetURL] fail with [bad_url], on every client; a
    construction with that option fails, and fails with this error
    whenever the options before it succeed. *)
Theorem SetURL_bad_scheme (rawurl : string) (u : URL)
    (Hne : rawurl <> "") (Hparse : url_Parse rawurl = inr u)
    (Hhttp : Scheme u <> "http") (Hhttps : Scheme u <> "https") :
  let err := OwnError (mkError "bad_url" ("Invalid schema specified [" +:+ rawurl +:+ "]")) in
  error_id err = Some "bad_url"
  /\ (forall c, value (SetURL rawurl c) = (c, Some err))
  /\ (forall pre post, exists e, value (New (pre ++ SetURL rawurl :: post)) = inl e)
  /\ (forall pre post c t,
         run_options pre New_initial = (inr c, t) ->
         value (New (pre ++ SetURL rawurl :: post)) = inl err).
Proof.
  intros err.
  assert (Hset : forall c, value (SetURL rawurl c) = (c, Some err))
    by (intros c; by apply SetURL_other_scheme with u).
  assert (Hafter : forall pre post c t,
             run_options pre New_initial = (inr c, t) ->
             value (New (pre ++ SetURL rawurl :: post)) = inl err).
  { intros pre post c t Hpre.
    destruct (SetURL rawurl c) as [[c1 oe] t1] eqn:Hs.
    specialize (Hset c). rewrite Hs in Hset. unfold value in Hset. simpl in Hset.
    inversion Hset; subst.
    by rewrite (New_halts pre post (SetURL rawurl) c c err t t1 Hpre Hs). }
  repeat split; [exact Hset| |exact Hafter].
  intros pre post.
  destruct (run_options pre New_initial) as [[e|c] t] eqn:Hpre.
  - exists e. erewrite New_options_err; [reflexivity|].
    by apply run_options_app_err.
  - exists err. by apply Hafter with c t.
Qed.

(** C7, as amended.  When [SetURL] accepts a URL, the stored base URL
    ends with a separator: a URL without a trailing separator has
    exactly one appended, a URL that already ends with one is stored
    unchanged, and applying [SetURL] to the stored URL, when accepted,
    stores it again unchanged. *)
Theorem SetURL_trailing_separator (rawurl : string) (c c' : Client) (t : list Event)
    (Hok : SetURL rawurl c = ((c', None), t)) :
  let given := if decide (rawurl = "") then DefaultURL else rawurl in
  HasSuffix (url c') "/" = true
  /\ (HasSuffix given "/" = false ->
      url c' = given +:+ "/" /\ HasSuffix (url c') "//" = false)
  /\ (HasSuffix given "/" = true -> url c' = given)
  /\ (forall c1 c2 t2, SetURL (url c') c1 = ((c2, None), t2) -> url c2 = url c').
Proof.
  assert (Hstored : forall raw c0 c1 t1,
             SetURL raw c0 = ((c1, None), t1) ->
             let g := if decide (raw = "") then DefaultURL else raw in
             url c1 = if HasSuffix g "/" then g else g +:+ "/").
  { intros raw c0 c1 t1 Hs. unfold SetURL in Hs. simpl.
    destruct (url_Parse _) as [e|u].
    - unfold errorf, bind in Hs. destruct (errorlog c0); simpl in Hs; congruence.
    - destruct (negb _ && negb _).
      + unfold errorf, bind in Hs. destruct (errorlog c0); simpl in Hs; congruence.
      + simpl in Hs. destruct (HasSuffix _ "/"); simpl in Hs;
          inversion Hs; reflexivity. }
  intros given. pose proof (Hstored _ _ _ _ Hok) as Hurl. simpl in Hurl.
  fold given in Hurl.
  assert (Hends : HasSuffix (url c') "/" = true).
  { rewrite Hurl. destruct (HasSuffix given "/") eqn:Hg; [exact Hg|].
    apply HasSuffix_appended. }
  split; [exact Hends|]. split; [|split].
  - intros Hg. rewrite Hg in Hurl. split; [exact Hurl|].
    rewrite Hurl. by apply HasSuffix_appended.
  - intros Hg. by rewrite Hg in Hurl.
  - intros c1 c2 t2 Hagain. pose proof (Hstored _ _ _ _ Hagain) as Hurl2.
    simpl in Hurl2.
    assert (Hnonempty : url c' <> "").
    { intros Hempty. rewrite Hempty in Hends. discriminate. }
    rewrite decide_False in Hurl2 by done. by rewrite Hends in Hurl2.
Qed.

End Construction.

(** ** The executor: status classification and logging *)

Section Executor.
Context `{StdLib} {V : Type} `{JSONShape V}.

Lemma status_outside (code : Z) :
  code < 200 \/ 300 <= code -> (code <? 200) || (code >=? 300) = true.
Proof. intros Hc. apply orb_true_iff. rewrite Z.ltb_lt, Z.geb_le. lia. Qed.

Lemma status_inside (code : Z) :
  200 <= code < 300 -> (code <? 200) || (code >=? 300) = false.
Proof.
  intros Hc. apply orb_false_iff. split; [apply Z.ltb_ge; lia|].
  rewrite Z.geb_leb. apply Z.leb_gt. lia.
Qed.

(** [DumpResponse] in one piece. *)
Lemma DumpResponse_run (resp : Response) :
  DumpResponse resp = ((dump_text resp, dumped resp), dump_close resp).
Proof.
  unfold DumpResponse, dump_text, dumped, dump_close.
  destruct (BodyError resp); [reflexivity|]. by destruct (BodyReplaced resp).
Qed.

Lemma handleError_inside (c : Client) (resp : Response) :
  200 <= StatusCode resp < 300 -> handleError c resp = (None, []).
Proof. intros Hc. unfold handleError. by rewrite status_inside. Qed.

Lemma handleError_outside (c : Client) (resp : Response) :
  StatusCode resp < 200 \/ 300 <= StatusCode resp ->
  handleError c resp
  = (Some (OwnError (mkError "http_error" (status_message (StatusCode resp)))),
     logged_dump (errorlog c) resp
     ++ match errorlog c with
        | Some l => [Printf l (status_message (StatusCode resp)) []]
        | None => []
        end).
Proof.
  intros Hc. unfold handleError, errorf, logged_dump. rewrite status_outside by done.
  destruct (errorlog c) as [l|]; [|reflexivity].
  rewrite DumpResponse_run. unfold bind, ret, emit. cbn [fst snd].
  destruct (dump_text resp); cbn [fst snd app]; by rewrite <- ?app_assoc, ?app_nil_r.
Qed.

Lemma dumpResponse_run (c : Client) (resp : Response) :
  dumpResponse c resp = (traced c resp, logged_dump (tracelog c) resp).
Proof.
  unfold dumpResponse, traced, logged_dump, tracef.
  destruct (tracelog c) as [l|]; [|reflexivity].
  rewrite DumpResponse_run. unfold bind, ret, emit. cbn [fst snd].
  destruct (dump_text resp); cbn [fst snd app]; by rewrite ?app_nil_r.
Qed.

(** What [do] returns, written without the logging. *)
Lemma do_value (c : Client) (method rawurl : string)
    (params : gmap string string) (body : option (list byte)) (bodyLength : Z)
    (result : Result V) :
  value (do c method rawurl params body bodyLength result)
  = match do_request c method rawurl params body bodyLength with
    | inl err => (result, Some err)
    | inr req =>
        match httpc c req with
        | inl err => (result, Some err)
        | inr resp =>
            if (StatusCode resp <? 200) || (StatusCode resp >=? 300) then
              (result,
               Some (OwnError (mkError "http_error" (status_message (StatusCode resp)))))
            else
              let resp := traced c resp in
              match result with
              | NoResult => (NoResult, None)
              | Sink written => (Sink (written ++ RespBody resp), BodyError resp)
              | DecodeInto m =>
                  (DecodeInto (json_Decode (RespBody resp) (BodyError resp) m).1,
                   (json_Decode (RespBody resp) (BodyError resp) m).2)
              end
        end
    end.
Proof.
  unfold do. destruct (do_request _ _ _ _ _ _) as [e0|req]; [reflexivity|].
  destruct (httpc c req) as [e1|resp].
  { unfold dumpRequest, tracef, value.
    destruct (tracelog c); [destruct (DumpRequestOut req)|]; reflexivity. }
  destruct ((StatusCode resp <? 200) || (StatusCode resp >=? 300)) eqn:Hcode.
  - assert (Hh : value (handleError c resp)
                 = Some (OwnError (mkError "http_error"
                                     (status_message (StatusCode resp))))).
    { unfold handleError. rewrite Hcode.
      unfold value, bind. destruct (match errorlog c with Some _ => _ | None => _ end).
      by destruct (errorf c _ _). }
    unfold value, bind in *.
    destruct (match tracelog c with Some _ => _ | None => _ end) as [u1 t1].
    destruct (emit (RoundTrip req)) as [u2 t2].
    destruct (match tracelog c with Some _ => _ | None => _ end) as [u3 t3].
    destruct (handleError c resp) as [e t4]. simpl in Hh. subst e. reflexivity.
  - assert (Hh : handleError c resp = (None, [])).
    { unfold handleError. by rewrite Hcode. }
    rewrite Hh, dumpResponse_run. cbv zeta.
    unfold value, bind.
    destruct (match tracelog c with Some _ => _ | None => _ end) as [u1 t1].
    destruct (emit (RoundTrip req)) as [u2 t2].
    destruct (match tracelog c with Some _ => _ | None => _ end) as [u3 t3].
    cbn [ret fst snd].
    destruct result as [|w|m]; try reflexivity.
    destruct (json_Decode (RespBody (traced c resp)) (BodyError (traced c resp)) m)
      as [m' [e|]]; [|reflexivity].
    cbn [fst snd].
    destruct (match errorlog c with Some _ => _ | None => _ end) as [u4 t4].
    reflexivity.
Qed.

(** The effects of [do] in full: nothing when the request is refused;
    otherwise the log of the request, the one call of the transport,
    the end of the timing, and, when a response came back, what is done
    with the response and the deferred close of its body as the last
    effect. *)
Lemma do_trace (c : Client) (method rawurl : string)
    (params : gmap string string) (body : option (list byte)) (bodyLength : Z)
    (result : Result V) :
  trace (do c method rawurl params body bodyLength result)
  = match do_request c method rawurl params body bodyLength with
    | inl _ => []
    | inr req =>
        request_log c req (do_rawurl rawurl params)
        ++ RoundTrip req
        :: end_log c (do_rawurl rawurl params)
        ++ match httpc c req with
           | inl _ => []
           | inr resp => response_effects c resp result ++ [CloseBody]
           end
    end.
Proof.
  unfold do. destruct (do_request _ _ _ _ _ _) as [e0|req]; [reflexivity|].
  assert (Hpre : forall A (k : M A),
             trace (match tracelog c with
                    | Some l => dumpRequest c req ;;;
                                emit (Timing l Started (do_rawurl rawurl params))
                    | None => ret tt
                    end ;;;
                    emit (RoundTrip req) ;;;
                    match tracelog c with
                    | Some l => emit (Timing l Ended (do_rawurl rawurl params))
                    | None => ret tt
                    end ;;;
                    k)
             = request_log c req (do_rawurl rawurl params)
               ++ RoundTrip req :: end_log c (do_rawurl rawurl params) ++ trace k).
  { intros A [a t]. unfold request_log, end_log, dumpRequest, tracef, trace.
    destruct (tracelog c) as [l|]; [destruct (DumpRequestOut req)|]; reflexivity. }
  cbv zeta. rewrite Hpre. do 3 f_equal.
  destruct (httpc c req) as [e1|resp]; [reflexivity|].
  unfold response_effects.
  destruct ((StatusCode resp <? 200) || (StatusCode resp >=? 300)) eqn:Hcode.
  - assert (Hc : StatusCode resp < 200 \/ 300 <= StatusCode resp).
    { apply orb_true_iff in Hcode. rewrite Z.ltb_lt, Z.geb_le in Hcode. lia. }
    rewrite (handleError_outside _ _ Hc). unfold trace, bind, ret, emit. cbn [fst snd].
    by rewrite app_nil_r, app_nil_r.
  - assert (Hh : handleError c resp = (None, [])).
    { unfold handleError. by rewrite Hcode. }
    rewrite Hh, dumpResponse_run. unfold trace, bind, ret, emit. cbn [fst snd app].
    destruct result as [|w|m]; cbn [fst snd app]; rewrite ?app_nil_r; try reflexivity.
    destruct (json_Decode (RespBody (traced c resp)) (BodyError (traced c resp)) m)
      as [m' [e|]]; cbn [fst snd app]; rewrite ?app_nil_r; [|reflexivity].
    unfold logged_dump, errorf.
    destruct (errorlog c) as [l|]; cbn [fst snd app]; rewrite ?app_nil_r; [|reflexivity].
    rewrite DumpResponse_run. unfold emit. cbn [fst snd].
    destruct (dump_text _); cbn [fst snd app]; by rewrite ?app_nil_r.
Qed.

(** What [do] returns and does when the response has an error status. *)
Lemma do_error_status (c : Client) (method rawurl : string)
    (params : gmap string string) (body : option (list byte)) (bodyLength : Z)
    (result : Result V) (req : Request) (resp : Response) :
  do_request c method rawurl params body bodyLength = inr req ->
  httpc c req = inr resp ->
  StatusCode resp < 200 \/ 300 <= StatusCode resp ->
  do c method rawurl params body bodyLength result
  = ((result, Some (OwnError (mkError "http_error" (status_message (StatusCode resp))))),
     match tracelog c with
     | Some l =>
         match DumpRequestOut req with
         | Some out => [Printf l ("%s" +:+ LF) [out]]
         | None => []
         end ++ [Timing l Started (do_rawurl rawurl params)]
     | None => []
     end
     ++ RoundTrip req
     :: match tracelog c with
        | Some l => [Timing l Ended (do_rawurl rawurl params)]
        | None => []
        end
     ++ trace (handleError c resp) ++ [CloseBody]).
Proof.
  intros Hreq Hresp Hc.
  pose proof (do_value c method rawurl params body bodyLength result) as Hv.
  pose proof (do_trace c method rawurl params body bodyLength result) as Ht.
  rewrite Hreq, Hresp in Hv, Ht. rewrite status_outside in Hv by done.
  unfold response_effects in Ht. rewrite status_outside in Ht by done.
  rewrite (handleError_outside _ _ Hc). unfold trace at 1. cbn [snd].
  destruct (do c method rawurl params body bodyLength result) as [v t].
  unfold value, trace in Hv, Ht. cbn [fst snd] in Hv, Ht. subst v t.
  reflexivity.
Qed.

Lemma network_calls_app (t1 t2 : list Event) :
  network_calls (t1 ++ t2) = network_calls t1 ++ network_calls t2.
Proof. apply omap_app. Qed.

Lemma printed_app (l : Logger) (t1 t2 : list Event) :
  printed l (t1 ++ t2) = printed l t1 ++ printed l t2.
Proof. apply omap_app. Qed.

Lemma request_log_is_log (c : Client) (req : Request) (rawurl : string) :
  forallb is_log (request_log c req rawurl) = true.
Proof.
  unfold request_log. destruct (tracelog c); [|reflexivity].
  by destruct (DumpRequestOut req).
Qed.

Lemma end_log_is_log (c : Client) (rawurl : string) :
  forallb is_log (end_log c rawurl) = true.
Proof. unfold end_log. by destruct (tracelog c). Qed.

Lemma log_no_network_calls (t : list Event) :
  forallb is_log t = true -> network_calls t = [].
Proof.
  induction t as [|e t IH]; [reflexivity|]. simpl.
  intros [He Ht]%andb_true_iff. destruct e; try discriminate; by apply IH.
Qed.

(** A dump sends nothing, and what [do] does with a response sends
    nothing. *)
Lemma logged_dump_no_calls (l : option Logger) (resp : Response) :
  network_calls (logged_dump l resp) = [].
Proof.
  unfold logged_dump, dump_close. destruct l; [|reflexivity].
  destruct (BodyError resp); [|destruct (BodyReplaced resp)];
    by destruct (dump_text resp).
Qed.

Lemma response_effects_no_calls (c : Client) (resp : Response) (result : Result V) :
  network_calls (response_effects c resp result) = [].
Proof.
  unfold response_effects.
  destruct ((StatusCode resp <? 200) || (StatusCode resp >=? 300));
    rewrite network_calls_app, logged_dump_no_calls.
  - by destruct (errorlog c).
  - destruct result as [|w|m]; try reflexivity. cbv zeta.
    destruct ((json_Decode _ _ m).2); [|reflexivity]. apply logged_dump_no_calls.
Qed.

(** [do] either fails to build the request and does nothing, or hands
    exactly one request to the transport. *)
Lemma do_no_request (c : Client) (method rawurl : string)
    (params : gmap string string) (body : option (list byte)) (bodyLength : Z)
    (result : Result V) (err : goerror) :
  do_request c method rawurl params body bodyLength = inl err ->
  do c method rawurl params body bodyLength result = ((result, Some err), []).
Proof. intros Hreq. unfold do. by rewrite Hreq. Qed.

Lemma do_network_calls (c : Client) (method rawurl : string)
    (params : gmap string string) (body : option (list byte)) (bodyLength : Z)
    (result : Result V) (req : Request) :
  do_request c method rawurl params body bodyLength = inr req ->
  network_calls (trace (do c method rawurl params body bodyLength result)) = [req].
Proof.
  intros Hreq. rewrite do_trace, Hreq.
  change (?t1 ++ RoundTrip req :: ?t2 ++ ?t3) with (t1 ++ [RoundTrip req] ++ t2 ++ t3).
  rewrite !network_calls_app, (log_no_network_calls _ (request_log_is_log c req _)),
    (log_no_network_calls _ (end_log_is_log c _)).
  destruct (httpc c req) as [e|resp]; [reflexivity|].
  by rewrite network_calls_app, response_effects_no_calls.
Qed.

(** A map destination that is not nil when [do] is called is not nil
    when [do] returns an error. *)
Lemma json_Decode_error_keeps_map (body : list byte) (ends : option goerror)
    (m : gmap string V) (m' : option (gmap string V)) (e : goerror) :
  json_Decode body ends (Some m) = (m', Some e) -> exists m1, m' = Some m1.
Proof.
  unfold json_Decode. destruct (json_parse body ends) as [|entries err|err]; intros Hd.
  - discriminate.
  - inversion Hd; subst. eauto.
  - inversion Hd; subst. eauto.
Qed.

Lemma do_error_keeps_map (c : Client) (method rawurl : string)
    (params : gmap string string) (body : option (list byte)) (bodyLength : Z)
    (m : gmap string V) (r : Result V) (e : goerror) :
  value (do c method rawurl params body bodyLength (DecodeInto (Some m))) = (r, Some e) ->
  exists m1, r = DecodeInto (Some m1).
Proof.
  rewrite do_value.
  destruct (do_request c method rawurl params body bodyLength) as [e0|req].
  { intros Hv. inversion Hv; subst. eauto. }
  destruct (httpc c req) as [e1|resp]; [intros Hv; inversion Hv; subst; eauto|].
  destruct ((StatusCode resp <? 200) || (StatusCode resp >=? 300));
    [intros Hv; inversion Hv; subst; eauto|].
  cbv zeta.
  destruct (json_Decode (RespBody (traced c resp)) (BodyError (traced c resp)) (Some m))
    as [m' [e2|]] eqn:Hd; cbn [fst snd]; intros Hv; inversion Hv; subst.
  destruct (json_Decode_error_keeps_map _ _ _ _ _ Hd) as [m1 ->]. eauto.
Qed.

(** C3, as amended.  [handleError] returns an error exactly when the
    status code is below 200 or at least 300, that is, outside the
    interval from 200 up to and excluding 300; the error has the id
    [http_error] and a detail string that contains the decimal status
    code and its reason phrase, and it is the error [do] returns.  A
    status code from 200 to 299 is not classified as an error. *)
Theorem handleError_http_error (c : Client) (resp : Response) :
  let code := StatusCode resp in
  let err := OwnError (mkError "http_error" (status_message code)) in
  ((exists e, value (handleError c resp) = Some e) <-> (code < 200 \/ 300 <= code))
  /\ (code < 200 \/ 300 <= code ->
      value (handleError c resp) = Some err
      /\ error_id err = Some "http_error"
      /\ Contains (status_message code) (Itoa code)
      /\ Contains (status_message code) (StatusText code)
      /\ forall method rawurl params body bodyLength (result : Result V) req,
           do_request c method rawurl params body bodyLength = inr req ->
           httpc c req = inr resp ->
           value (do c method rawurl params body bodyLength result) = (result, Some err))
  /\ (200 <= code < 300 -> handleError c resp = (None, [])).
Proof.
  intros code err. split; [|split].
  - split.
    + intros [e He]. destruct (Z.lt_ge_cases code 200) as [|Hlo]; [by left|].
      destruct (Z.lt_ge_cases code 300) as [Hhi|]; [|by right].
      rewrite handleError_inside in He by done. discriminate.
    + intros Hc. exists err. by rewrite handleError_outside.
  - intros Hc. split; [by rewrite handleError_outside|]. split; [reflexivity|].
    split; [apply Contains_middle|]. split.
    + exists ("Unexpected status code: " +:+ Itoa code +:+ " ("), ")".
      by rewrite !append_assoc.
    + intros method rawurl params body bodyLength result req Hreq Hresp.
      by rewrite (do_error_status _ _ _ _ _ _ _ _ _ Hreq Hresp Hc).
  - apply handleError_inside.
Qed.

(** C4, as amended.  When [do] receives a response with an error status
    and an error logger is configured, the dump of the full response is
    written to the error logger, whether or not a trace logger is
    configured; a trace logger other than the error logger receives the
    dump of the request and nothing of the response. *)
Theorem do_error_status_dumps_to_errorlog (c : Client) (method rawurl : string)
    (params : gmap string string) (body : option (list byte)) (bodyLength : Z)
    (result : Result V) (req : Request) (resp : Response) (l : Logger) (out : string)
    (Hreq : do_request c method rawurl params body bodyLength = inr req)
    (Hresp : httpc c req = inr resp)
    (Hcode : StatusCode resp < 200 \/ 300 <= StatusCode resp)
    (Hlog : errorlog c = Some l)
    (Hdump : (value (DumpResponse resp)).1 = Some out) :
  let t := trace (do c method rawurl params body bodyLength result) in
  In (Printf l ("%s" +:+ LF) [out]) t
  /\ (tracelog c <> Some l ->
      printed l t = [("%s" +:+ LF, [out]); (status_message (StatusCode resp), [])])
  /\ (forall l', tracelog c = Some l' -> l' <> l ->
        printed l' t = match DumpRequestOut req with
                       | Some o => [("%s" +:+ LF, [o])]
                       | None => []
                       end).
Proof.
  intros t. subst t. rewrite (do_error_status _ _ _ _ _ _ _ _ _ Hreq Hresp Hcode).
  rewrite DumpResponse_run in Hdump. unfold value in Hdump. cbn [fst] in Hdump.
  rewrite (handleError_outside _ _ Hcode), Hlog. unfold logged_dump. rewrite Hdump.
  unfold trace. simpl snd.
  assert (Hclose : forall l0, printed l0 (dump_close resp) = []).
  { intros l0. unfold dump_close.
    destruct (BodyError resp); [|destruct (BodyReplaced resp)]; reflexivity. }
  split; [|split].
  - apply in_or_app. right. right. apply in_or_app. right.
    apply in_or_app. left. apply in_or_app. left. apply in_or_app. right.
    left. reflexivity.
  - intros Hne. change (?t1 ++ RoundTrip req :: ?t2) with (t1 ++ [RoundTrip req] ++ t2).
    rewrite !printed_app, Hclose. destruct (tracelog c) as [l'|].
    + assert (l' <> l) by congruence.
      destruct (DumpRequestOut req); simpl;
        rewrite ?decide_False by done; by rewrite !decide_True.
    + simpl. by rewrite !decide_True.
  - intros l' -> Hne.
    change (?t1 ++ RoundTrip req :: ?t2) with (t1 ++ [RoundTrip req] ++ t2).
    rewrite !printed_app, Hclose.
    destruct (DumpRequestOut req); simpl;
      rewrite ?decide_True by done; by rewrite !decide_False by done.
Qed.

End Executor.

(** ** The public operations *)

Section Operations.
Context `{StdLib} `{Flate} `{JSONShape QueryResponse} `{JSONShape UploadResponse}.

(** The parameters of [Query] on the wire. *)
Lemma Query_values (cls joined : string) :
  map_fold (fun k v values => Values_Add values k v) ∅
    ({[ "c" := cls; "h" := joined ]} : gmap string string)
  = {[ "c" := [cls]; "h" := [joined] ]}.
Proof. vm_compute. reflexivity. Qed.

Lemma Query_encoded (cls joined : string) :
  Values_Encode {[ "c" := [cls]; "h" := [joined] ]}
  = "c=" +:+ QueryEscape cls +:+ "&h=" +:+ QueryEscape joined.
Proof. vm_compute. reflexivity. Qed.

Lemma Query_rawurl (cls joined : string) :
  do_rawurl "q" {[ "c" := cls; "h" := joined ]}
  = "q" +:+ "?" +:+ Values_Encode {[ "c" := [cls]; "h" := [joined] ]}.
Proof.
  unfold do_rawurl. rewrite Query_values.
  rewrite decide_True; [reflexivity|]. vm_compute. lia.
Qed.

Lemma bind_ret_value {A B} (m : M A) (f : A -> B) :
  value (x <- m ;; ret (f x)) = f (value m).
Proof. by destruct m. Qed.

Lemma bind_ret_trace {A B} (m : M A) (f : A -> B) :
  trace (x <- m ;; ret (f x)) = trace m.
Proof. destruct m. unfold trace. simpl. apply app_nil_r. Qed.

(** [Query] with hashes is one call of [do]. *)
Lemma Query_unfold (c : Client) (classifiers : string) (hash : list string) :
  hash <> [] ->
  Query c classifiers hash
  = (r <- do c "GET" "q"
            {[ "c" := if decide (classifiers = "") then "all" else classifiers;
               "h" := Join hash "," ]} None 0 (DecodeInto (Some ∅)) ;;
     ret (decoded r.1, r.2)).
Proof.
  intros Hhash. unfold Query. rewrite decide_False; [reflexivity|].
  by destruct hash.
Qed.

(** [Upload] with a code and a stream that is read to its end is one
    call of [do] on the buffer as [io.Copy] left it. *)
Lemma Upload_unfold (c : Client) (confirmCode : string) (data : Reader) :
  confirmCode <> "" -> failure data = None ->
  Upload c confirmCode (Some data)
  = (r <- do c "PUT" ("u/" +:+ confirmCode) ∅ (Some (Upload_copied data).1.2)
            (Z.of_nat (length (Upload_copied data).1.2)) (DecodeInto (Some ∅)) ;;
     ret (decoded r.1, r.2)).
Proof.
  intros Hcode Hread. unfold Upload. rewrite decide_False by done.
  unfold Upload_copied, io_Copy. rewrite Hread. simpl.
  by destruct (foldl _ _ _).
Qed.

(** C8, as amended.  Argument validation precedes any network activity:
    [Query] without hashes, and [Upload] with an empty confirmation code
    or a nil stream, return [missing_arg] and do nothing at all.
    [UploadFile] opens the file first: with an empty confirmation code
    it returns [missing_arg] when the file opens, and the error of the
    open when it does not, in both cases without a network call. *)
Theorem validation_precedes_network (c : Client) :
  (forall classifiers,
      Query c classifiers [] = ((None, Some (missing_arg "hash is required")), []))
  /\ (forall data,
         Upload c "" data
         = ((None, Some (missing_arg "Confirmation code is required")), []))
  /\ (forall confirmCode,
         confirmCode <> "" ->
         Upload c confirmCode None = ((None, Some (missing_arg "Data is required")), []))
  /\ (forall path f,
         os_Open path = inr f ->
         value (UploadFile c "" path)
         = (None, Some (missing_arg "Confirmation code is required"))
         /\ network_calls (trace (UploadFile c "" path)) = [])
  /\ (forall confirmCode path err,
         os_Open path = inl err ->
         UploadFile c confirmCode path = ((None, Some err), [])).
Proof.
  split; [|split; [|split; [|split]]].
  - reflexivity.
  - reflexivity.
  - intros confirmCode Hcode. unfold Upload. by rewrite decide_False.
  - intros path f Hopen. unfold UploadFile. rewrite Hopen. by split.
  - intros confirmCode path err Hopen. unfold UploadFile. by rewrite Hopen.
Qed.

(** C9.  [Query] with at least one hash issues, unless the library
    refuses the URL, exactly one request: a GET to the path [q] under
    the base URL, whose query string encodes the parameter [c] with the
    classifiers, or [all] when none are given, and the parameter [h]
    with the hashes joined by commas. *)
Theorem Query_request (c : Client) (classifiers : string) (hash : list string)
    (Hhash : hash <> []) :
  let cls := if decide (classifiers = "") then "all" else classifiers in
  let params : gmap string (list string) := {[ "c" := [cls]; "h" := [Join hash ","] ]} in
  let target := url c +:+ "q" +:+ "?" +:+ Values_Encode params in
  Values_Encode params = "c=" +:+ QueryEscape cls +:+ "&h=" +:+ QueryEscape (Join hash ",")
  /\ match NewRequest_failure "GET" target with
     | Some err => Query c classifiers hash = ((Some ∅, Some err), [])
     | None =>
         exists req,
           network_calls (trace (Query c classifiers hash)) = [req]
           /\ Method req = "GET"
           /\ ReqURL req = target
           /\ ReqBody req = None
           /\ Header_Get (ReqHeader req) "Accept" = "application/json"
           /\ Header_Get (ReqHeader req) AuthHeader = key c
     end.
Proof.
  intros cls params target. split; [apply Query_encoded|].
  rewrite (Query_unfold _ _ _ Hhash). fold cls.
  destruct (NewRequest_failure "GET" target) as [err|] eqn:Hnew.
  - rewrite (do_no_request _ _ _ _ _ _ _ err); [reflexivity|].
    unfold do_request, http_NewRequest. rewrite Query_rawurl.
    subst target params. by rewrite Hnew.
  - eexists. rewrite bind_ret_trace. split.
    + apply do_network_calls. unfold do_request, http_NewRequest.
      rewrite Query_rawurl. subst target params. rewrite Hnew. reflexivity.
    + repeat split.
Qed.

(** C10.  A failure of [Query] or [Upload] that occurs in the executor,
    after the arguments were validated and the stream was read (the
    request is refused, the transport fails, the status is an error, the
    JSON does not decode), comes with a map that is not nil; a
    [missing_arg] failure comes with a nil map. *)
Theorem failure_keeps_map (c : Client) :
  (forall classifiers hash err,
      hash <> [] ->
      (value (Query c classifiers hash)).2 = Some err ->
      exists m, (value (Query c classifiers hash)).1 = Some m)
  /\ (forall confirmCode data err,
         confirmCode <> "" -> failure data = None ->
         (value (Upload c confirmCode (Some data))).2 = Some err ->
         exists m, (value (Upload c confirmCode (Some data))).1 = Some m)
  /\ (forall classifiers, (value (Query c classifiers [])).1 = None)
  /\ (forall data, (value (Upload c "" data)).1 = None)
  /\ (forall confirmCode, (value (Upload c confirmCode None)).1 = None).
Proof.
  split; [|split; [|split; [|split]]].
  - intros classifiers hash err Hhash. rewrite (Query_unfold _ _ _ Hhash).
    rewrite bind_ret_value.
    destruct (value (do _ _ _ _ _ _ _)) as [r oe] eqn:Hdo. simpl. intros ->.
    destruct (do_error_keeps_map _ _ _ _ _ _ _ _ _ Hdo) as [m ->]. by exists m.
  - intros confirmCode data err Hcode Hread.
    rewrite (Upload_unfold _ _ _ Hcode Hread). rewrite bind_ret_value.
    destruct (value (do _ _ _ _ _ _ _)) as [r oe] eqn:Hdo. simpl. intros ->.
    destruct (do_error_keeps_map _ _ _ _ _ _ _ _ _ Hdo) as [m ->]. by exists m.
  - reflexivity.
  - reflexivity.
  - intros confirmCode. unfold Upload. by destruct (decide (confirmCode = "")).
Qed.

(** *** The upload body *)

Lemma gzip_Write_closed (zb : gzipWriter * list byte) (p : list byte) :
  closed (gzip_Write zb p).1 = closed zb.1.
Proof.
  destruct zb as [z buf]. unfold gzip_Write.
  by destruct (flate_Write (compressor z) p).
Qed.

(** [io.Copy] does not close the writer. *)
Lemma io_Copy_closed (zb : gzipWriter * list byte) (data : Reader) :
  closed (io_Copy zb data).1.1 = closed zb.1.
Proof.
  unfold io_Copy. simpl. generalize (chunks data). intros l. revert zb.
  induction l as [|chunk l IH]; intros zb; [reflexivity|].
  simpl. rewrite IH. destruct chunk; [reflexivity|]. apply gzip_Write_closed.
Qed.

Lemma le_PutUint32_length (x : N) : length (le_PutUint32 x) = 4%nat.
Proof. reflexivity. Qed.

(** Closing an open writer appends to the buffer, and appends at least
    the eight bytes of the trailer. *)
Lemma gzip_Close_appends (z : gzipWriter) (buf : list byte) :
  closed z = false ->
  exists rest, (gzip_Close (z, buf)).2 = buf ++ rest /\ (8 <= length rest)%nat.
Proof.
  intros Hopen. unfold gzip_Close. rewrite Hopen.
  destruct (wroteHeader z) eqn:Hhdr.
  - eexists. split; [reflexivity|].
    rewrite !length_app. cbn [length le_PutUint32]. lia.
  - unfold gzip_Write. rewrite Hhdr.
    destruct (flate_Write (compressor z) []) as [st out].
    cbn [snd compressor digest gzsize].
    eexists. rewrite <- !app_assoc. split; [reflexivity|].
    rewrite !length_app. cbn [length le_PutUint32]. lia.
Qed.

Lemma Upload_closed_appends (data : Reader) :
  exists rest,
    Upload_closed data = (Upload_copied data).1.2 ++ rest /\ (8 <= length rest)%nat.
Proof.
  unfold Upload_closed.
  pose proof (io_Copy_closed (gzip_NewWriter, []) data) as Hopen.
  fold (Upload_copied data) in Hopen.
  destruct (Upload_copied data) as [[z buf] e]. simpl in *.
  by apply gzip_Close_appends.
Qed.

(** The request of [Upload]. *)
Lemma Upload_request (c : Client) (confirmCode : string) (buf : list byte)
    (req : Request) :
  do_request c "PUT" ("u/" +:+ confirmCode) ∅ (Some buf) (Z.of_nat (length buf)) = inr req ->
  Method req = "PUT"
  /\ ReqURL req = url c +:+ "u/" +:+ confirmCode
  /\ ReqBody req = Some buf
  /\ ContentLength req = Z.of_nat (length buf)
  /\ Header_Get (ReqHeader req) ContentLengthHeader = Itoa (Z.of_nat (length buf))
  /\ Header_Get (ReqHeader req) ContentTypeHeader = GzipContentType.
Proof.
  unfold do_request, http_NewRequest, do_rawurl.
  rewrite decide_False by (rewrite map_size_empty; lia).
  destruct (NewRequest_failure _ _); [discriminate|].
  intros Hreq. inversion Hreq; subst; clear Hreq. repeat split.
Qed.

(** A request that [Upload] hands to the transport is the request [do]
    builds from the buffer as [io.Copy] left it. *)
Lemma Upload_sent (c : Client) (confirmCode : string) (data : Reader) (req : Request) :
  confirmCode <> "" -> failure data = None ->
  In req (network_calls (trace (Upload c confirmCode (Some data)))) ->
  do_request c "PUT" ("u/" +:+ confirmCode) ∅ (Some (Upload_copied data).1.2)
    (Z.of_nat (length (Upload_copied data).1.2)) = inr req.
Proof.
  intros Hcode Hread Hsent.
  rewrite (Upload_unfold _ _ _ Hcode Hread), bind_ret_trace in Hsent.
  destruct (do_request c "PUT" ("u/" +:+ confirmCode) ∅ (Some (Upload_copied data).1.2)
              (Z.of_nat (length (Upload_copied data).1.2))) as [err|req'] eqn:Hreq.
  - rewrite (do_no_request _ _ _ _ _ _ _ _ Hreq) in Hsent. destruct Hsent.
  - rewrite (do_network_calls _ _ _ _ _ _ _ _ Hreq) in Hsent.
    by destruct Hsent as [<-|[]].
Qed.

(** When the stream cannot be read to its end, [Upload] returns the
    error of the read before it makes the map and before it calls [do]. *)
Lemma Upload_read_failure (c : Client) (confirmCode : string) (data : Reader)
    (e : goerror) :
  confirmCode <> "" -> failure data = Some e ->
  Upload c confirmCode (Some data) = ((None, Some e), []).
Proof.
  intros Hcode Hread. unfold Upload. rewrite decide_False by done.
  unfold Upload_copied, io_Copy. rewrite Hread. by destruct (foldl _ _ _).
Qed.

(** C1, on the code as it is.  The request [Upload] hands to the
    transport carries the buffer as [io.Copy] left it, and its
    Content-Length is the length of that buffer; the deferred close of
    the gzip writer runs afterwards and appends at least the eight bytes
    of the trailer, so the length sent is smaller than the length of the
    finalized gzip buffer. *)
Theorem Upload_content_length_before_close (c : Client) (confirmCode : string)
    (data : Reader) (req : Request)
    (Hcode : confirmCode <> "") (Hread : failure data = None)
    (Hsent : In req (network_calls (trace (Upload c confirmCode (Some data))))) :
  let sent := (Upload_copied data).1.2 in
  ReqBody req = Some sent
  /\ Header_Get (ReqHeader req) ContentLengthHeader = Itoa (Z.of_nat (length sent))
  /\ ContentLength req = Z.of_nat (length sent)
  /\ (exists rest, Upload_closed data = sent ++ rest /\ (8 <= length rest)%nat)
  /\ Z.of_nat (length sent) < Z.of_nat (length (Upload_closed data)).
Proof.
  intros sent. pose proof (Upload_sent _ _ _ _ Hcode Hread Hsent) as Hreq.
  destruct (Upload_request _ _ _ _ Hreq) as (_ & _ & Hbody & Hlen & Hhdr & _).
  destruct (Upload_closed_appends data) as (rest & Hclosed & Hrest).
  fold sent in Hclosed.
  repeat split; try done.
  - by exists rest.
  - rewrite Hclosed, length_app. lia.
Qed.

Lemma io_Copy_writes (zb : gzipWriter * list byte) (data : Reader) :
  (io_Copy zb data).1 = foldl gzip_Write zb (written data).
Proof.
  unfold io_Copy, written. simpl. generalize (chunks data). intros l. revert zb.
  induction l as [|chunk l IH]; intros zb; [reflexivity|].
  simpl. rewrite IH. destruct chunk as [|b chunk].
  - by rewrite filter_cons_False by (intros Hne; by apply Hne).
  - by rewrite filter_cons_True by done.
Qed.

Lemma flate_run_snoc (st : flate_state) (cs : list (list byte)) (p : list byte) :
  flate_run st (cs ++ [p])
  = ((flate_Write (flate_run st cs).1 p).1,
     (flate_run st cs).2 ++ (flate_Write (flate_run st cs).1 p).2).
Proof.
  unfold flate_run. rewrite foldl_app. simpl.
  by destruct (flate_Write _ p).
Qed.

(** The writer and the buffer after a sequence of writes: nothing at
    all before the first write, the header and what the deflate writer
    released after it. *)
Lemma gzip_writes (cs : list (list byte)) :
  let zb := foldl gzip_Write (gzip_NewWriter, []) cs in
  closed zb.1 = false
  /\ (cs = [] -> wroteHeader zb.1 = false /\ zb.2 = [])
  /\ (cs <> [] ->
      wroteHeader zb.1 = true
      /\ zb.2 = gzip_header ++ (flate_run flate_NewWriter cs).2
      /\ compressor zb.1 = (flate_run flate_NewWriter cs).1).
Proof.
  induction cs as [|p cs IH] using rev_ind; [by repeat split|].
  destruct cs as [|c0 cs].
  - simpl. unfold gzip_Write, flate_run. simpl.
    destruct (flate_Write flate_NewWriter p) as [st out]. by repeat split.
  - cbv zeta in *. rewrite foldl_app, flate_run_snoc.
    change (foldl gzip_Write ?a [p]) with (gzip_Write a p).
    destruct (foldl gzip_Write (gzip_NewWriter, []) (c0 :: cs)) as [z buf].
    destruct IH as (Hopen & _ & Hlater).
    destruct Hlater as (Hhdr & Hbuf & Hst); [done|]. simpl in Hopen, Hhdr, Hbuf, Hst.
    subst buf. unfold gzip_Write. rewrite Hhdr, Hst.
    destruct (flate_Write _ p) as [st out]. cbn [fst snd wroteHeader closed compressor].
    split; [done|]. split; [done|]. intros _.
    repeat split; by rewrite <- ?app_assoc.
Qed.

(** A buffer that holds the header and an unfinished deflate stream is
    not a gzip stream. *)
Lemma gunzip_unfinished (Hlaws : FlateLaws) (cs : list (list byte)) :
  gunzip (gzip_header ++ (flate_run flate_NewWriter cs).2) = None.
Proof.
  unfold gunzip. set (E := (flate_run flate_NewWriter cs).2).
  assert (Hmember : gunzip_member (gzip_header ++ E) = None).
  { assert (Hinf : forall d r, flate_inflate E = Some (d, r) -> r = []).
    { intros d r Hd.
      destruct (inflate_delimited Hlaws _ _ _ Hd) as (z & HE & Hz).
      pose proof (inflate_deflate Hlaws cs []) as Hrt. unfold deflate in Hrt.
      destruct (flate_run flate_NewWriter cs) as [st out] eqn:Hrun.
      simpl in E. subst E. rewrite HE in Hrt.
      rewrite <- !app_assoc in Hrt. rewrite Hz in Hrt.
      injection Hrt as _ Hrest. destruct r; [done|discriminate Hrest]. }
    unfold gzip_header. cbn -[flate_inflate].
    destruct (flate_inflate E) as [[d r]|] eqn:Hd; [|reflexivity].
    rewrite (Hinf d r eq_refl). reflexivity. }
  cbn [gunzip_members]. by rewrite Hmember.
Qed.

Lemma gunzip_nil : gunzip [] = None.
Proof. reflexivity. Qed.

(** C2, on the code as it is.  With a deflate implementation that obeys
    its laws, the body [Upload] hands to the transport is the buffer
    before the deferred close: it is empty, or the header followed by an
    unfinished deflate stream, and it does not decompress at all, to the
    input or to anything else. *)
Theorem Upload_body_not_gzip (Hlaws : FlateLaws) (c : Client) (confirmCode : string)
    (data : Reader) (req : Request)
    (Hcode : confirmCode <> "") (Hread : failure data = None)
    (Hsent : In req (network_calls (trace (Upload c confirmCode (Some data))))) :
  exists sent,
    ReqBody req = Some sent
    /\ sent = (Upload_copied data).1.2
    /\ gunzip sent = None.
Proof.
  exists (Upload_copied data).1.2.
  pose proof (Upload_sent _ _ _ _ Hcode Hread Hsent) as Hreq.
  destruct (Upload_request _ _ _ _ Hreq) as (_ & _ & Hbody & _).
  split; [exact Hbody|]. split; [reflexivity|].
  unfold Upload_copied. rewrite io_Copy_writes.
  pose proof (gzip_writes (written data)) as (_ & Hfirst & Hlater).
  destruct (written data) as [|c0 cs].
  - destruct Hfirst as [_ ->]; [done|]. apply gunzip_nil.
  - destruct Hlater as (_ & -> & _); [done|]. by apply gunzip_unfinished.
Qed.

End Operations.

(** ** Bytes and checksums *)

Lemma byte_to_of_N (n : N) : Byte.to_N (byte_of_N n) = (n mod 256)%N.
Proof.
  unfold byte_of_N. destruct (Byte.of_N (n mod 256)) as [b|] eqn:Hb.
  - by apply Byte.to_of_N.
  - apply Byte.of_N_None_iff in Hb. pose proof (N.mod_lt n 256). lia.
Qed.

Lemma N_lxor_lt (a b n : N) : (a < 2 ^ n -> b < 2 ^ n -> N.lxor a b < 2 ^ n)%N.
Proof.
  intros Ha Hb.
  destruct (N.eq_dec (N.lxor a b) 0%N) as [->|Hne]; [lia|].
  apply N.log2_lt_pow2; [lia|].
  eapply N.le_lt_trans; [apply N.log2_lxor|].
  destruct (N.eq_dec a 0%N) as [->|Ha0], (N.eq_dec b 0%N) as [->|Hb0].
  - rewrite N.lxor_0_l in Hne. done.
  - rewrite N.max_r by (simpl; lia). apply N.log2_lt_pow2; lia.
  - rewrite N.max_l by (simpl; lia). apply N.log2_lt_pow2; lia.
  - apply N.max_lub_lt; apply N.log2_lt_pow2; lia.
Qed.

Lemma le16_decode (n : N) :
  (n < 65536)%N ->
  (Byte.to_N (byte_of_N n) + 256 * Byte.to_N (byte_of_N (N.shiftr n 8)) = n)%N.
Proof.
  intros Hn. rewrite !byte_to_of_N, N.shiftr_div_pow2.
  change (2 ^ 8)%N with 256%N. zify. Z.to_euclidean_division_equations. lia.
Qed.

Lemma uint32_not_involutive (x : N) : uint32_not (uint32_not x) = x.
Proof. unfold uint32_not. by rewrite N.lxor_assoc, N.lxor_nilpotent, N.lxor_0_r. Qed.

Lemma crc32_Update_app (crc : N) (p q : list byte) :
  crc32_Update (crc32_Update crc p) q = crc32_Update crc (p ++ q).
Proof. unfold crc32_Update. by rewrite uint32_not_involutive, foldl_app. Qed.

Lemma N_land_lt (a b n : N) : (a < 2 ^ n -> N.land a b < 2 ^ n)%N.
Proof.
  intros Ha.
  destruct (N.eq_dec (N.land a b) 0%N) as [->|Hne]; [lia|].
  apply N.log2_lt_pow2; [lia|].
  eapply N.le_lt_trans; [apply N.log2_land|].
  destruct (N.eq_dec a 0%N) as [->|Ha0].
  - rewrite N.land_0_l in Hne. done.
  - eapply N.le_lt_trans; [apply N.le_min_l|]. apply N.log2_lt_pow2; lia.
Qed.

Lemma N_shiftr_lt (a k n : N) : (a < 2 ^ n -> N.shiftr a k < 2 ^ n)%N.
Proof. intros Ha. eapply N.le_lt_trans; [apply N.shiftr_upper_bound|exact Ha]. Qed.

Lemma crc32_step_lt (crc : N) : (crc < 2 ^ 32 -> crc32_step crc < 2 ^ 32)%N.
Proof.
  intros Hc. unfold crc32_step. destruct (N.testbit crc 0).
  - apply N_lxor_lt; [by apply N_shiftr_lt|reflexivity].
  - by apply N_shiftr_lt.
Qed.

Lemma crc32_table_lt (i : N) : (i < 2 ^ 32 -> crc32_table i < 2 ^ 32)%N.
Proof.
  intros Hi. unfold crc32_table.
  do 8 (rewrite Nat.iter_succ; apply crc32_step_lt). exact Hi.
Qed.

Lemma crc32_Update_lt (crc : N) (p : list byte) :
  (crc < 2 ^ 32 -> crc32_Update crc p < 2 ^ 32)%N.
Proof.
  intros Hc. unfold crc32_Update, uint32_not at 1.
  apply N_lxor_lt; [|reflexivity].
  assert (Hstart : (uint32_not crc < 2 ^ 32)%N)
    by (apply N_lxor_lt; [done|reflexivity]).
  revert Hstart. generalize (uint32_not crc). clear Hc.
  induction p as [|v p IH]; intros x Hx; [exact Hx|].
  simpl. apply IH. apply N_lxor_lt; [|by apply N_shiftr_lt].
  apply crc32_table_lt, N_lxor_lt; [by apply N_land_lt|].
  pose proof (Byte.to_N_bounded v). change (2 ^ 32)%N with 4294967296%N. lia.
Qed.

Lemma le_Uint32_PutUint32 (x : N) :
  (x < 2 ^ 32)%N ->
  le_Uint32 (byte_of_N x) (byte_of_N (N.shiftr x 8)) (byte_of_N (N.shiftr x 16))
            (byte_of_N (N.shiftr x 24)) = x.
Proof.
  intros Hx. unfold le_Uint32. rewrite !byte_to_of_N, !N.shiftr_div_pow2, !N.shiftl_mul_pow2.
  change (2 ^ 8)%N with 256%N. change (2 ^ 16)%N with 65536%N.
  change (2 ^ 24)%N with 16777216%N. change (2 ^ 32)%N with 4294967296%N in Hx.
  zify. Z.to_euclidean_division_equations. lia.
Qed.

(** ** The finalized buffer *)

Section Finalized.
Context `{Flate}.

Lemma gzip_writes_sums (cs : list (list byte)) :
  let zb := foldl gzip_Write (gzip_NewWriter, []) cs in
  digest zb.1 = crc32_Update 0 (concat cs)
  /\ gzsize zb.1 = (N.of_nat (length (concat cs)) mod 4294967296)%N.
Proof.
  induction cs as [|p cs IH] using rev_ind; [by split|].
  cbv zeta in *. rewrite foldl_app, concat_app. cbn [concat foldl]. rewrite app_nil_r.
  destruct (foldl gzip_Write (gzip_NewWriter, []) cs) as [z buf].
  destruct IH as [Hd Hs]. cbn [fst] in Hd, Hs. unfold gzip_Write.
  destruct (flate_Write (compressor z) p) as [st out]. cbn [fst digest gzsize].
  rewrite Hd, Hs, crc32_Update_app. split; [done|].
  rewrite length_app, Nat2N.inj_add. by rewrite N.Div0.add_mod_idemp_l.
Qed.

Lemma concat_written (data : Reader) : concat (written data) = concat (chunks data).
Proof.
  unfold written. induction (chunks data) as [|chunk l IH]; [reflexivity|].
  destruct chunk as [|b chunk].
  - rewrite filter_cons_False by (intros Hne; by apply Hne). exact IH.
  - rewrite filter_cons_True by done. simpl. by rewrite IH.
Qed.

(** A whole member is read back as its data. *)
Lemma gunzip_whole (Hlaws : FlateLaws) (cs : list (list byte)) :
  gunzip (gzip_header ++ deflate cs
          ++ le_PutUint32 (crc32_Update 0 (concat cs))
          ++ le_PutUint32 (N.of_nat (length (concat cs)) mod 4294967296))
  = Some (concat cs).
Proof.
  unfold gunzip. cbn [gunzip_members].
  set (trailer := le_PutUint32 _ ++ le_PutUint32 _).
  assert (Hmember : gunzip_member (gzip_header ++ deflate cs ++ trailer)
                    = Some (concat cs, [])).
  { unfold gzip_header. cbn -[flate_inflate deflate trailer].
    rewrite (inflate_deflate Hlaws). subst trailer.
    cbn -[crc32_Update N.modulo N.of_nat byte_of_N N.shiftr le_Uint32].
    rewrite !le_Uint32_PutUint32.
    - rewrite decide_True by done. by rewrite decide_True.
    - apply N.mod_lt. done.
    - by apply crc32_Update_lt. }
  by rewrite Hmember.
Qed.

(** The buffer of [Upload] after the deferred close is a gzip stream of
    the input. *)
Lemma gunzip_Upload_closed (Hlaws : FlateLaws) (data : Reader) :
  gunzip (Upload_closed data) = Some (concat (chunks data)).
Proof.
  unfold Upload_closed, Upload_copied. rewrite io_Copy_writes.
  rewrite <- (concat_written data).
  generalize (written data). intros cs.
  destruct cs as [|c0 cs].
  - pose proof (gunzip_whole Hlaws [[]]) as Hw.
    unfold deflate, flate_run in Hw. cbn [foldl fst snd concat app length] in Hw.
    cbn [foldl fst snd]. unfold gzip_Close, gzip_Write, gzip_NewWriter.
    cbn [closed wroteHeader compressor digest gzsize].
    destruct (flate_Write flate_NewWriter []) as [st out].
    cbn [fst snd closed wroteHeader compressor digest gzsize app length concat] in *.
    rewrite <- !app_assoc in *. exact Hw.
  - pose proof (gzip_writes (c0 :: cs)) as (Hopen & _ & Hlater).
    pose proof (gzip_writes_sums (c0 :: cs)) as [Hd Hs]. cbv zeta in *.
    destruct (foldl gzip_Write (gzip_NewWriter, []) (c0 :: cs)) as [z buf].
    cbn [fst snd] in *. unfold gzip_Close. rewrite Hopen.
    destruct Hlater as (Hhdr & -> & Hst); [done|]. rewrite Hhdr, Hd, Hs, Hst.
    cbn [snd]. rewrite <- !app_assoc.
    pose proof (gunzip_whole Hlaws (c0 :: cs)) as Hw. unfold deflate in Hw.
    destruct (flate_run flate_NewWriter (c0 :: cs)) as [st out].
    rewrite <- !app_assoc in Hw. exact Hw.
Qed.

End Finalized.

(** ** The reference implementation *)

Lemma maxStoreBlockSize_N : N.of_nat maxStoreBlockSize = 65535%N.
Proof. reflexivity. Qed.

Lemma maxStoreBlockSize_pos : (0 < maxStoreBlockSize)%nat.
Proof. pose proof maxStoreBlockSize_N. lia. Qed.

Lemma take_chunk_length (d : list byte) :
  (N.of_nat (length (take maxStoreBlockSize d)) < 65536)%N.
Proof. rewrite length_take. pose proof maxStoreBlockSize_N. lia. Qed.

(** One stored block is read back as its data. *)
Lemma stored_inflate_block (fuel : nat) (final : bool) (acc data rest : list byte) :
  (N.of_nat (length data) < 65536)%N ->
  stored_inflate (S fuel) acc (stored_block final data ++ rest)
  = if final then Some (acc ++ data, rest)
    else stored_inflate fuel (acc ++ data) rest.
Proof.
  intros Hlen. unfold stored_block. cbn [app stored_inflate].
  rewrite le16_decode by done.
  rewrite le16_decode by (apply (N_lxor_lt _ _ 16); [done|reflexivity]).
  rewrite Nat2N.id.
  rewrite decide_True.
  2:{ split; [destruct final; auto|]. split; [reflexivity|]. rewrite length_app. lia. }
  rewrite take_app_length, drop_app_length.
  destruct final; [by rewrite decide_True|by rewrite decide_False].
Qed.

Lemma stored_blocks_nil (fuel : nat) : stored_blocks fuel [] = stored_block true [].
Proof. by destruct fuel. Qed.

Lemma stored_blocks_cons (fuel : nat) (b : byte) (d : list byte) :
  stored_blocks (S fuel) (b :: d)
  = stored_block false (take maxStoreBlockSize (b :: d))
    ++ stored_blocks fuel (drop maxStoreBlockSize (b :: d)).
Proof. reflexivity. Qed.

Lemma stored_block_length (final : bool) (data : list byte) :
  length (stored_block final data) = (5 + length data)%nat.
Proof. reflexivity. Qed.

(** The blocks written for some data are read back as the data. *)
Lemma stored_roundtrip (fuel : nat) :
  forall (d acc rest : list byte) (f : nat),
    (length d <= fuel)%nat ->
    (length (stored_blocks fuel d) < f)%nat ->
    stored_inflate f acc (stored_blocks fuel d ++ rest) = Some (acc ++ d, rest).
Proof.
  induction fuel as [|fuel IH]; intros d acc rest f Hlen Hf.
  - destruct d; [|cbn [length] in Hlen; lia].
    destruct f; [lia|]. by rewrite stored_blocks_nil, stored_inflate_block.
  - destruct d as [|b d].
    + destruct f; [lia|]. by rewrite stored_blocks_nil, stored_inflate_block.
    + rewrite stored_blocks_cons in *. rewrite length_app, stored_block_length in Hf.
      destruct f; [lia|]. rewrite <- app_assoc.
      rewrite stored_inflate_block by apply take_chunk_length.
      rewrite IH.
      * by rewrite <- app_assoc, take_drop.
      * rewrite length_drop. pose proof maxStoreBlockSize_pos.
        cbn [length] in Hlen |- *. lia.
      * lia.
Qed.

(** A stream that is accepted ends where the decoder says, and is
    accepted with any continuation. *)
Lemma stored_delimited (f : nat) :
  forall (acc s d r : list byte),
    stored_inflate f acc s = Some (d, r) ->
    exists z, s = z ++ r
              /\ forall r' f', (length z < f')%nat ->
                               stored_inflate f' acc (z ++ r') = Some (d, r').
Proof.
  induction f as [|f IH]; intros acc s d r Hs; [discriminate|].
  destruct s as [|hdr [|l0 [|l1 [|n0 [|n1 rest0]]]]]; try discriminate.
  cbn [stored_inflate] in Hs.
  set (n := N.to_nat (Byte.to_N l0 + 256 * Byte.to_N l1)) in *.
  destruct (decide _) as [(Hhdr & Hnn & Hn)|]; [|discriminate].
  assert (Hgen : forall T X : list byte,
             length T = n ->
             take n (T ++ X) = T /\ drop n (T ++ X) = X /\ (n <= length (T ++ X))%nat).
  { intros T X Hl. rewrite <- Hl, take_app_length, drop_app_length, length_app.
    repeat split; lia. }
  assert (Hblock : forall X, take n (take n rest0 ++ X) = take n rest0
                             /\ drop n (take n rest0 ++ X) = X
                             /\ (n <= length (take n rest0 ++ X))%nat).
  { intros X. apply Hgen. rewrite length_take. lia. }
  clear Hgen.
  destruct (decide (hdr = x01)) as [->|Hne].
  - inversion Hs; subst d r; clear Hs.
    exists (x01 :: l0 :: l1 :: n0 :: n1 :: take n rest0). split.
    + simpl. by rewrite take_drop.
    + intros r' [|f'] Hf'; [lia|]. simpl app. cbn [stored_inflate]. fold n.
      destruct (Hblock r') as (Htake & Hdrop & Hle).
      rewrite decide_True by done. rewrite decide_True by done.
      by rewrite Htake, Hdrop.
  - destruct (IH _ _ _ _ Hs) as (z1 & Hz1 & Hcont).
    exists (hdr :: l0 :: l1 :: n0 :: n1 :: take n rest0 ++ z1). split.
    + simpl. rewrite <- app_assoc, <- Hz1. by rewrite take_drop.
    + intros r' [|f'] Hf'; [lia|]. simpl app. cbn [stored_inflate]. fold n.
      rewrite <- app_assoc.
      destruct (Hblock (z1 ++ r')) as (Htake & Hdrop & Hle).
      rewrite decide_True by done. rewrite decide_False by done.
      rewrite Htake, Hdrop. apply Hcont.
      simpl in Hf'. rewrite length_app in Hf'. lia.
Qed.

Lemma ref_flate_run (cs : list (list byte)) (st : list byte) :
  @flate_run ref_Flate st cs = (st ++ concat cs, []).
Proof.
  unfold flate_run.
  assert (Hgen : forall acc : list byte * list byte,
             acc.2 = [] ->
             foldl (fun acc p => let '(st', out) := flate_Write (Flate := ref_Flate) acc.1 p in
                                 (st', acc.2 ++ out)) acc cs
             = (acc.1 ++ concat cs, [])).
  { induction cs as [|p cs IH]; intros [a o] Ho; simpl in *.
    - by rewrite app_nil_r, Ho.
    - rewrite IH by (simpl; by rewrite Ho). simpl. by rewrite <- app_assoc. }
  by rewrite Hgen.
Qed.

(** The reference deflate obeys the laws. *)
Lemma ref_Flate_laws : @FlateLaws ref_Flate.
Proof.
  split.
  - intros cs rest. unfold deflate. rewrite ref_flate_run.
    cbn -[stored_inflate stored_blocks length].
    apply (stored_roundtrip _ _ []); [done|]. rewrite length_app. lia.
  - intros s d r Hs. cbn -[stored_inflate length] in Hs.
    destruct (stored_delimited _ _ _ _ _ Hs) as (z & -> & Hcont).
    exists z. split; [done|]. intros r'. cbn -[stored_inflate length]. apply Hcont.
    rewrite length_app. lia.
Qed.

(** ** The model at work

    The theorems above, applied on the reference implementation, and
    the inputs at which the code departs from what is claimed of it. *)

(** C5 as stated fails: the options run in order and the first error
    is the result, so with a URL of another scheme before it, the empty
    key is never looked at and the construction fails with [bad_url]. *)
Lemma New_bad_url_before_empty_key :
  value (New [SetURL "ftp://x"; SetKey ""])
  = inl (OwnError (mkError "bad_url" "Invalid schema specified [ftp://x]"))
  /\ error_id (OwnError (mkError "bad_url" "Invalid schema specified [ftp://x]"))
     <> Some "missing_credentials".
Proof. split; [reflexivity|discriminate]. Qed.

Lemma New_empty_key_missing_credentials_witness :
  let options := [SetErrorLog (Some 1%nat); SetURL "http://a"] in
  let c := mkClient "" "http://a/" (Some 1%nat) None DefaultClient in
  run_options options New_initial = (inr c, [])
  /\ key c = ""
  /\ value (New options) = inl (OwnError ErrMissingCredentials).
Proof.
  intros options c. split; [reflexivity|]. split; [reflexivity|].
  destruct (New_empty_key_missing_credentials options) as (Hempty & _ & _ & _).
  apply (Hempty c []); reflexivity.
Defined.

Lemma SetURL_bad_scheme_witness :
  url_Parse "ftp://example.com/" = inr (mkURL "ftp")
  /\ value (New [SetKey "k3y"; SetURL "ftp://example.com/"])
     = inl (OwnError (mkError "bad_url" "Invalid schema specified [ftp://example.com/]")).
Proof.
  assert (Hparse : url_Parse "ftp://example.com/" = inr (mkURL "ftp")) by reflexivity.
  split; [exact Hparse|].
  assert (Hne : "ftp://example.com/" <> "") by discriminate.
  assert (Hhttp : Scheme (mkURL "ftp") <> "http") by discriminate.
  assert (Hhttps : Scheme (mkURL "ftp") <> "https") by discriminate.
  destruct (SetURL_bad_scheme "ftp://example.com/" (mkURL "ftp") Hne Hparse Hhttp Hhttps)
    as (_ & _ & _ & Hnew).
  apply (Hnew [SetKey "k3y"] [] (with_key "k3y" New_initial) []). reflexivity.
Defined.

(** C7 as stated fails: a URL that ends with two separators is stored
    as it is. *)
Lemma SetURL_double_separator :
  let r := value (SetURL "http://a//" New_initial) in
  r.2 = None /\ url r.1 = "http://a//"
  /\ ~ (HasSuffix (url r.1) "/" = true /\ HasSuffix (url r.1) "//" = false).
Proof.
  intros r. split; [reflexivity|]. split; [reflexivity|].
  intros [_ Hone]. vm_compute in Hone. discriminate Hone.
Qed.

Lemma SetURL_trailing_separator_witness :
  SetURL "http://a" New_initial = ((with_url "http://a/" New_initial, None), [])
  /\ HasSuffix (url (with_url "http://a/" New_initial)) "/" = true.
Proof.
  split; [reflexivity|].
  apply (SetURL_trailing_separator "http://a" New_initial
           (with_url "http://a/" New_initial) []).
  reflexivity.
Defined.

(** C3 as stated fails: 299 lies outside the half-open interval from
    200 to 299 and is not an error. *)
Lemma handleError_299_not_error :
  ~ (200 <= 299 < 299)
  /\ value (handleError (sample_client None None sample_ok) (mkResponse 299 ∅ [])) = None.
Proof. split; [lia|reflexivity]. Qed.

Lemma handleError_http_error_witness :
  (404 < 200 \/ 300 <= 404)
  /\ value (handleError (sample_client None None sample_ok) (mkResponse 404 ∅ []))
     = Some (OwnError (mkError "http_error" "Unexpected status code: 404 (Not Found)")).
Proof.
  assert (Hc : 404 < 200 \/ 300 <= 404) by (right; lia).
  split; [exact Hc|].
  destruct (handleError_http_error (V := QueryResponse)
              (sample_client None None sample_ok) (mkResponse 404 ∅ []))
    as (_ & Hout & _).
  destruct (Hout Hc) as (Hval & _). exact Hval.
Defined.

(** C4 as stated fails: with a trace logger and no error logger, the
    response with an error status is written nowhere; the trace logger
    receives the dump of the request only. *)
Lemma trace_sink_misses_error_response :
  let c := sample_client None (Some 2%nat) sample_failed in
  let t := trace (Query c "" ["abc123"]) in
  exists out,
    (value (DumpResponse sample_failed)).1 = Some out
    /\ (value (Query c "" ["abc123"])).2
       = Some (OwnError (mkError "http_error"
                           "Unexpected status code: 500 (Internal Server Error)"))
    /\ ~ In (Printf 2%nat ("%s" +:+ LF) [out]) t
    /\ length (printed 2%nat t) = 1%nat.
Proof.
  intros c t. eexists. split; [reflexivity|]. split; [reflexivity|].
  split; [|reflexivity].
  vm_compute. intros Hin.
  repeat (destruct Hin as [Hin|Hin]; [discriminate Hin|]). destruct Hin.
Qed.

Lemma do_error_status_dumps_to_errorlog_witness :
  let c := sample_client (Some 1%nat) (Some 2%nat) sample_failed in
  exists req out,
    do_request c "GET" "q" ∅ None 0 = inr req
    /\ (value (DumpResponse sample_failed)).1 = Some out
    /\ In (Printf 1%nat ("%s" +:+ LF) [out])
          (trace (do (V := QueryResponse) c "GET" "q" ∅ None 0 (DecodeInto (Some ∅)))).
Proof.
  intros c.
  destruct (do_request c "GET" "q" ∅ None 0) as [e|req] eqn:Hreq;
    [vm_compute in Hreq; discriminate Hreq|].
  destruct ((value (DumpResponse sample_failed)).1) as [out|] eqn:Hdump;
    [|discriminate Hdump].
  exists req, out. split; [reflexivity|]. split; [reflexivity|].
  assert (Hcode : StatusCode sample_failed < 200 \/ 300 <= StatusCode sample_failed)
    by (right; simpl; lia).
  assert (Hresp : httpc c req = inr sample_failed) by reflexivity.
  assert (Hlog : errorlog c = Some 1%nat) by reflexivity.
  apply (do_error_status_dumps_to_errorlog (V := QueryResponse) c "GET" "q" ∅ None 0
           (DecodeInto (Some ∅)) req sample_failed 1%nat out Hreq Hresp Hcode Hlog Hdump).
Defined.

(** C8 as stated fails for [UploadFile]: with an empty confirmation code
    and a file that cannot be opened, the error is the error of the
    open. *)
Lemma UploadFile_unopened :
  let r := UploadFile (sample_client None None sample_ok) "" "missing.bin" in
  exists err,
    (value r).2 = Some err
    /\ error_id err <> Some "missing_arg"
    /\ network_calls (trace r) = [].
Proof.
  intros r. exists (ForeignError "os" "open missing.bin: no such file or directory").
  split; [reflexivity|]. split; [discriminate|reflexivity].
Qed.

Lemma validation_precedes_network_witness :
  os_Open "sample.bin" = inr sample_hello
  /\ value (UploadFile (sample_client None None sample_ok) "" "sample.bin")
     = (None, Some (OwnError (mkError "missing_arg" "Confirmation code is required")))
  /\ network_calls (trace (UploadFile (sample_client None None sample_ok) "" "sample.bin"))
     = [].
Proof.
  assert (Hopen : os_Open "sample.bin" = inr sample_hello) by reflexivity.
  split; [exact Hopen|].
  destruct (validation_precedes_network (sample_client None None sample_ok))
    as (_ & _ & _ & Hfile & _).
  exact (Hfile "sample.bin" sample_hello Hopen).
Defined.

Lemma Query_request_witness :
  ["abc123"] <> []
  /\ exists req,
       network_calls (trace (Query (sample_client None None sample_ok) "" ["abc123"])) = [req]
       /\ Method req = "GET"
       /\ ReqURL req = "https://api.example/apiv2/q?c=all&h=abc123".
Proof.
  assert (Hhash : ["abc123"] <> []) by discriminate.
  split; [exact Hhash|].
  destruct (Query_request (sample_client None None sample_ok) "" ["abc123"] Hhash)
    as [_ Hreq].
  destruct (NewRequest_failure _ _) as [err|] eqn:Hnew;
    [vm_compute in Hnew; discriminate Hnew|].
  destruct Hreq as (req & Hcalls & Hmethod & Hurl & _).
  exists req. split; [exact Hcalls|]. split; [exact Hmethod|].
  rewrite Hurl. reflexivity.
Defined.

(** Two hashes travel as one parameter; the comma that joins them is
    escaped by the encoding of the query string. *)
Example Query_two_hashes_on_the_wire :
  map ReqURL (network_calls
                (trace (Query (sample_client None None sample_ok) "ml" ["abc123"; "ff"])))
  = ["https://api.example/apiv2/q?c=ml&h=abc123%2Cff"].
Proof. vm_compute. reflexivity. Qed.

(** A stream that fails while it is read: no request, no map. *)
Example Upload_unreadable_stream :
  Upload (sample_client None None sample_ok) "CODE1"
         (Some (mkReader [bytes_of_string "he"] (Some (ForeignError "os" "read error"))))
  = ((None, Some (ForeignError "os" "read error")), []).
Proof. apply Upload_read_failure; [discriminate|reflexivity]. Qed.

Lemma failure_keeps_map_witness :
  let c := sample_client None None sample_failed in
  ["abc123"] <> []
  /\ (value (Query c "" ["abc123"])).2
     = Some (OwnError (mkError "http_error"
                         "Unexpected status code: 500 (Internal Server Error)"))
  /\ exists m, (value (Query c "" ["abc123"])).1 = Some m.
Proof.
  intros c.
  assert (Hhash : ["abc123"] <> []) by discriminate.
  assert (Herr : (value (Query c "" ["abc123"])).2
                 = Some (OwnError (mkError "http_error"
                                     "Unexpected status code: 500 (Internal Server Error)")))
    by reflexivity.
  split; [exact Hhash|]. split; [exact Herr|].
  destruct (failure_keeps_map c) as (Hquery & _).
  exact (Hquery "" ["abc123"] _ Hhash Herr).
Defined.

(** The upload of the spec's example, the five bytes of [hello]: what is
    sent is the ten bytes of the gzip header, announced with that length;
    it is not a gzip stream, while the buffer after the deferred close
    decompresses to the input. *)
Lemma Upload_hello_sends_header_only :
  let c := sample_client None None sample_ok in
  map (fun req => (Method req, ReqURL req, ReqBody req,
                   Header_Get (ReqHeader req) ContentLengthHeader))
      (network_calls (trace (Upload c "CODE1" (Some sample_hello))))
  = [("PUT", "https://api.example/apiv2/u/CODE1", Some gzip_header, "10")]
  /\ gunzip gzip_header = None
  /\ length (Upload_closed sample_hello) = 33%nat
  /\ gunzip (Upload_closed sample_hello) = Some (bytes_of_string "hello").
Proof. repeat split; vm_compute; reflexivity. Qed.

Lemma Upload_content_length_before_close_witness :
  let c := sample_client None None sample_ok in
  exists req,
    In req (network_calls (trace (Upload c "CODE1" (Some sample_hello))))
    /\ Header_Get (ReqHeader req) ContentLengthHeader = "10"
    /\ Z.of_nat (length (Upload_copied sample_hello).1.2)
       < Z.of_nat (length (Upload_closed sample_hello)).
Proof.
  intros c.
  destruct (network_calls (trace (Upload c "CODE1" (Some sample_hello))))
    as [|req calls] eqn:Hcalls; [vm_compute in Hcalls; discriminate Hcalls|].
  assert (Hcode : "CODE1" <> "") by discriminate.
  assert (Hread : failure sample_hello = None) by reflexivity.
  assert (Hsent : In req (network_calls (trace (Upload c "CODE1" (Some sample_hello)))))
    by (rewrite Hcalls; left; reflexivity).
  exists req. split; [left; reflexivity|].
  destruct (Upload_content_length_before_close c "CODE1" sample_hello req Hcode Hread Hsent)
    as (_ & Hlen & _ & _ & Hshort).
  split; [rewrite Hlen; reflexivity|exact Hshort].
Defined.

Lemma Upload_body_not_gzip_witness :
  let c := sample_client None None sample_ok in
  exists req sent,
    In req (network_calls (trace (Upload c "CODE1" (Some sample_hello))))
    /\ ReqBody req = Some sent
    /\ gunzip sent = None.
Proof.
  intros c.
  destruct (network_calls (trace (Upload c "CODE1" (Some sample_hello))))
    as [|req calls] eqn:Hcalls; [vm_compute in Hcalls; discriminate Hcalls|].
  assert (Hcode : "CODE1" <> "") by discriminate.
  assert (Hread : failure sample_hello = None) by reflexivity.
  assert (Hsent : In req (network_calls (trace (Upload c "CODE1" (Some sample_hello)))))
    by (rewrite Hcalls; left; reflexivity).
  destruct (Upload_body_not_gzip ref_Flate_laws c "CODE1" sample_hello req Hcode Hread Hsent)
    as (sent & Hbody & _ & Hgz).
  exists req, sent. split; [left; reflexivity|]. split; [exact Hbody|exact Hgz].
Defined.

(** * Further properties of the code *)

(** ** The executor, whatever the destination *)

Section ExecutorMore.
Context `{StdLib} {V : Type} `{JSONShape V}.

Lemma unlogged_app (t1 t2 : list Event) : unlogged (t1 ++ t2) = unlogged t1 ++ unlogged t2.
Proof. apply List.filter_app. Qed.

Lemma unlogged_log (t : list Event) : forallb is_log t = true -> unlogged t = [].
Proof.
  induction t as [|e t IH]; [reflexivity|]. simpl.
  intros [He Ht]%andb_true_iff. rewrite He. simpl. by apply IH.
Qed.

Lemma outward_app (t1 t2 : list Event) : outward (t1 ++ t2) = outward t1 ++ outward t2.
Proof. apply List.filter_app. Qed.

Lemma outward_unlogged (t : list Event) : outward (unlogged t) = outward t.
Proof.
  induction t as [|e t IH]; [reflexivity|].
  destruct e; simpl; by rewrite ?IH.
Qed.

Lemma network_calls_unlogged (t : list Event) :
  network_calls (unlogged t) = network_calls t.
Proof.
  induction t as [|e t IH]; [reflexivity|].
  destruct e; simpl; by rewrite ?IH.
Qed.

(** The request does not depend on the loggers. *)
Lemma do_request_ext (c c' : Client) (method rawurl : string)
    (params : gmap string string) (body : option (list byte)) (bodyLength : Z) :
  key c = key c' -> url c = url c' ->
  do_request c method rawurl params body bodyLength
  = do_request c' method rawurl params body bodyLength.
Proof. intros Hkey Hurl. unfold do_request. by rewrite Hkey, Hurl. Qed.

(** Of a dump, only the close of the body is not log output. *)
Lemma logged_dump_unlogged (l : option Logger) (resp : Response) :
  unlogged (logged_dump l resp) = if has_logger l then dump_close resp else [].
Proof.
  unfold logged_dump, dump_close. destruct l as [l|]; [|reflexivity]. simpl.
  destruct (BodyError resp); [|destruct (BodyReplaced resp)];
    by destruct (dump_text resp).
Qed.

Lemma dump_close_with_body (rest : list byte) (resp : Response) :
  dump_close (with_body rest resp) = dump_close resp.
Proof. reflexivity. Qed.

(** What [do] does with a response, log output apart: a close of the
    body when a dump reads it. *)
Lemma response_effects_unlogged (c : Client) (resp : Response) (result : Result V) :
  unlogged (response_effects c resp result)
  = if dump_closes c resp result then [CloseBody] else [].
Proof.
  unfold response_effects, dump_closes.
  destruct ((StatusCode resp <? 200) || (StatusCode resp >=? 300)).
  - rewrite unlogged_app, logged_dump_unlogged. unfold dump_close.
    destruct (errorlog c), (BodyError resp), (BodyReplaced resp); reflexivity.
  - rewrite unlogged_app, logged_dump_unlogged. unfold traced.
    destruct (tracelog c) as [l|]; cbn [has_logger orb].
    + assert (Hrest : unlogged
                        match result with
                        | DecodeInto m =>
                            let resp := dumped resp in
                            match (json_Decode (RespBody resp) (BodyError resp) m).2 with
                            | Some _ =>
                                logged_dump (errorlog c)
                                  (with_body (json_unread (RespBody resp)) resp)
                            | None => []
                            end
                        | _ => []
                        end = []).
      { destruct result as [|w|m]; try reflexivity. cbv zeta.
        destruct ((json_Decode _ _ m).2); [|reflexivity].
        rewrite logged_dump_unlogged, dump_close_with_body.
        unfold dumped, dump_close.
        destruct (has_logger (errorlog c)); [|reflexivity].
        destruct (BodyError resp) as [e0|] eqn:Hends; cbn [BodyError with_body with_copy];
          by rewrite Hends. }
      cbv zeta in Hrest. rewrite Hrest, app_nil_r. unfold dump_close.
      destruct (BodyError resp); [reflexivity|].
      by destruct (BodyReplaced resp).
    + cbn [app]. destruct result as [|w|m]; cbn [unlogged List.filter];
        try (by destruct (BodyError resp), (BodyReplaced resp)).
      cbv zeta. destruct (BodyError resp) as [e|] eqn:Hends.
      * destruct ((json_Decode _ _ m).2); [|reflexivity].
        rewrite logged_dump_unlogged, dump_close_with_body. unfold dump_close.
        rewrite Hends. by destruct (has_logger (errorlog c)).
      * destruct ((json_Decode (RespBody resp) None m).2).
        -- rewrite logged_dump_unlogged, dump_close_with_body. unfold dump_close.
           rewrite Hends.
           by destruct (has_logger (errorlog c)), (BodyReplaced resp).
        -- by destruct (BodyReplaced resp).
Qed.

(** What [do] does besides logging: one call of the transport when the
    request could be built and, when a response came back, the close
    that a dump makes, if one reads the body, and the deferred close. *)
Lemma do_unlogged (c : Client) (method rawurl : string)
    (params : gmap string string) (body : option (list byte)) (bodyLength : Z)
    (result : Result V) :
  unlogged (trace (do c method rawurl params body bodyLength result))
  = match do_request c method rawurl params body bodyLength with
    | inl _ => []
    | inr req =>
        RoundTrip req
        :: match httpc c req with
           | inl _ => []
           | inr resp =>
               (if dump_closes c resp result then [CloseBody] else []) ++ [CloseBody]
           end
    end.
Proof.
  rewrite do_trace. destruct (do_request _ _ _ _ _ _) as [e|req]; [reflexivity|].
  change (?t1 ++ RoundTrip req :: ?t2 ++ ?t3) with (t1 ++ [RoundTrip req] ++ t2 ++ t3).
  rewrite !unlogged_app, (unlogged_log _ (request_log_is_log c req _)),
    (unlogged_log _ (end_log_is_log c _)).
  destruct (httpc c req) as [e|resp]; [reflexivity|].
  by rewrite unlogged_app, response_effects_unlogged.
Qed.

(** Outside the process, [do] shows as its one request. *)
Lemma do_outward (c : Client) (method rawurl : string)
    (params : gmap string string) (body : option (list byte)) (bodyLength : Z)
    (result : Result V) :
  outward (trace (do c method rawurl params body bodyLength result))
  = match do_request c method rawurl params body bodyLength with
    | inl _ => []
    | inr req => [RoundTrip req]
    end.
Proof.
  rewrite <- outward_unlogged, do_unlogged.
  destruct (do_request _ _ _ _ _ _) as [e|req]; [reflexivity|].
  destruct (httpc c req) as [e|resp]; [reflexivity|].
  by destruct (dump_closes c resp result).
Qed.

(** A dump leaves a body that reads to its end with the bytes it had. *)
Lemma traced_body (c : Client) (resp : Response) :
  BodyError resp = None ->
  RespBody (traced c resp) = RespBody resp /\ BodyError (traced c resp) = None.
Proof.
  intros Hends. unfold traced, dumped. rewrite Hends.
  by destruct (tracelog c).
Qed.

(** Two clients that differ in their loggers only get the same result
    from [do] and send the same request, when the bodies of the
    responses read to their end. *)
Lemma do_loggers_ext (c c' : Client) (method rawurl : string)
    (params : gmap string string) (body : option (list byte)) (bodyLength : Z)
    (result : Result V) :
  key c = key c' -> url c = url c' -> httpc c = httpc c' ->
  (forall req resp, httpc c req = inr resp -> BodyError resp = None) ->
  value (do c method rawurl params body bodyLength result)
  = value (do c' method rawurl params body bodyLength result)
  /\ outward (trace (do c method rawurl params body bodyLength result))
     = outward (trace (do c' method rawurl params body bodyLength result)).
Proof.
  intros Hkey Hurl Hhttp Hbody.
  rewrite !do_value, !do_outward. rewrite (do_request_ext c c') by done.
  split; [|reflexivity].
  destruct (do_request c' _ _ _ _ _) as [e|req]; [reflexivity|].
  rewrite <- Hhttp. destruct (httpc c req) as [e|resp] eqn:Hresp; [reflexivity|].
  destruct (_ || _); [reflexivity|]. cbv zeta.
  destruct (traced_body c resp (Hbody _ _ Hresp)) as [-> ->].
  by destruct (traced_body c' resp (Hbody _ _ Hresp)) as [-> ->].
Qed.

(** Once a response is received, the deferred close of its body runs,
    as the last effect, on every path: an error status, a decoding
    error, or success.  The body is closed a second time, before that,
    exactly when a dump of the response reads it: a logger asks for the
    dump, and the body reads to its end.  Log output apart, [do] then
    does nothing else but send the request.  When the transport fails
    there is no body and nothing is closed. *)
Theorem response_body_closed_last (c : Client) (method rawurl : string)
    (params : gmap string string) (body : option (list byte)) (bodyLength : Z)
    (result : Result V) (req : Request)
    (Hreq : do_request c method rawurl params body bodyLength = inr req) :
  let t := trace (do c method rawurl params body bodyLength result) in
  (forall resp,
      httpc c req = inr resp ->
      (exists t', t = t' ++ [CloseBody])
      /\ unlogged t
         = RoundTrip req
           :: (if dump_closes c resp result then [CloseBody] else []) ++ [CloseBody])
  /\ (forall err, httpc c req = inl err -> ~ In CloseBody t).
Proof.
  intros t. subst t. split.
  - intros resp Hresp. split.
    + rewrite do_trace, Hreq, Hresp.
      exists (request_log c req (do_rawurl rawurl params)
              ++ RoundTrip req :: end_log c (do_rawurl rawurl params)
              ++ response_effects c resp result).
      by rewrite <- !app_assoc, <- !app_comm_cons, <- !app_assoc.
    + by rewrite do_unlogged, Hreq, Hresp.
  - intros err Hfail Hin.
    assert (Hun : In CloseBody
                    (unlogged (trace (do c method rawurl params body bodyLength result)))).
    { apply List.filter_In. by split. }
    rewrite do_unlogged, Hreq, Hfail in Hun.
    destruct Hun as [Heq|[]]. discriminate.
Qed.

(** A failure of the transport is returned as it is, with the
    destination untouched.  It is not reported to the error logger:
    only the trace logger, if there is one, has the dump of the request
    and the two timing lines. *)
Theorem transport_failure_returned_unlogged (c : Client) (method rawurl : string)
    (params : gmap string string) (body : option (list byte)) (bodyLength : Z)
    (result : Result V) (req : Request) (err : goerror)
    (Hreq : do_request c method rawurl params body bodyLength = inr req)
    (Hfail : httpc c req = inl err) :
  value (do c method rawurl params body bodyLength result) = (result, Some err)
  /\ (forall l, tracelog c <> Some l ->
                printed l (trace (do c method rawurl params body bodyLength result)) = [])
  /\ (forall l, tracelog c = Some l ->
                printed l (trace (do c method rawurl params body bodyLength result))
                = match DumpRequestOut req with
                  | Some out => [("%s" +:+ LF, [out])]
                  | None => []
                  end).
Proof.
  rewrite do_value, do_trace, Hreq, Hfail. split; [reflexivity|].
  unfold request_log, end_log. split.
  - intros l Hl. destruct (tracelog c) as [l'|]; [|reflexivity].
    assert (l' <> l) by congruence.
    destruct (DumpRequestOut req); simpl; by rewrite ?decide_False by done.
  - intros l ->. destruct (DumpRequestOut req); simpl; by rewrite ?decide_True by done.
Qed.

(** Without loggers [do] writes nothing: its only effects are the call
    of the transport and the closing of the response body. *)
Theorem do_silent_without_loggers (c : Client) (method rawurl : string)
    (params : gmap string string) (body : option (list byte)) (bodyLength : Z)
    (result : Result V)
    (Herr : errorlog c = None) (Htrace : tracelog c = None) :
  trace (do c method rawurl params body bodyLength result)
  = match do_request c method rawurl params body bodyLength with
    | inl _ => []
    | inr req =>
        RoundTrip req :: match httpc c req with
                         | inl _ => []
                         | inr _ => [CloseBody]
                         end
    end.
Proof.
  rewrite do_trace. destruct (do_request _ _ _ _ _ _) as [e|req]; [reflexivity|].
  unfold request_log, end_log, response_effects, logged_dump, traced.
  rewrite Herr, Htrace. simpl.
  destruct (httpc c req) as [e|resp]; [reflexivity|].
  destruct ((StatusCode resp <? 200) || (StatusCode resp >=? 300)); [reflexivity|].
  destruct result as [|w|m]; try reflexivity.
  by destruct ((json_Decode (RespBody resp) (BodyError resp) m).2).
Qed.

(** With a trace logger, the call of the transport is bracketed by the
    two timing lines, after the dump of the request, whatever the
    transport returns. *)
Theorem do_traces_around_the_call (c : Client) (method rawurl : string)
    (params : gmap string string) (body : option (list byte)) (bodyLength : Z)
    (result : Result V) (req : Request) (l : Logger)
    (Hreq : do_request c method rawurl params body bodyLength = inr req)
    (Hlog : tracelog c = Some l) :
  exists rest,
    trace (do c method rawurl params body bodyLength result)
    = match DumpRequestOut req with
      | Some out => [Printf l ("%s" +:+ LF) [out]]
      | None => []
      end
      ++ Timing l Started (do_rawurl rawurl params)
      :: RoundTrip req
      :: Timing l Ended (do_rawurl rawurl params)
      :: rest.
Proof.
  rewrite do_trace, Hreq. unfold request_log, end_log. rewrite Hlog.
  eexists. rewrite <- app_assoc. reflexivity.
Qed.

(** A request that [do] builds, field by field. *)
Lemma do_request_fields (c : Client) (method rawurl : string)
    (params : gmap string string) (body : option (list byte)) (bodyLength : Z)
    (req : Request) :
  do_request c method rawurl params body bodyLength = inr req ->
  Method req = (if decide (method = "") then "GET" else method)
  /\ ReqURL req = url c +:+ do_rawurl rawurl params
  /\ ReqBody req = body
  /\ ReqHeader req
     = match body with
       | None => {[ "Accept" := ["application/json"]; "X-Iauth" := [key c] ]}
       | Some _ =>
           {[ "Accept" := ["application/json"]; "X-Iauth" := [key c];
              "Content-Type" := ["application/xgzip"];
              "Content-Length" := [Itoa bodyLength] ]}
       end.
Proof.
  intros Hreq. unfold do_request, http_NewRequest in Hreq.
  destruct (NewRequest_failure _ _); [discriminate|].
  inversion Hreq; subst; clear Hreq.
  destruct body; repeat split; vm_compute; reflexivity.
Qed.

(** The request [do] hands to the transport: the method, the base URL
    followed by the relative URL and the encoded parameters, the body,
    and exactly these headers ([Header.Set] stores them under their
    canonical keys): [Accept] and the API key always, the content type
    and the content length when and only when there is a body. *)
Theorem do_sends_these_headers (c : Client) (method rawurl : string)
    (params : gmap string string) (body : option (list byte)) (bodyLength : Z)
    (result : Result V) (req : Request)
    (Hsent : In req (network_calls
                       (trace (do c method rawurl params body bodyLength result)))) :
  Method req = (if decide (method = "") then "GET" else method)
  /\ ReqURL req = url c +:+ do_rawurl rawurl params
  /\ ReqBody req = body
  /\ ReqHeader req
     = match body with
       | None => {[ "Accept" := ["application/json"]; "X-Iauth" := [key c] ]}
       | Some _ =>
           {[ "Accept" := ["application/json"]; "X-Iauth" := [key c];
              "Content-Type" := ["application/xgzip"];
              "Content-Length" := [Itoa bodyLength] ]}
       end.
Proof.
  destruct (do_request c method rawurl params body bodyLength) as [e|req'] eqn:Hreq.
  { rewrite (do_no_request _ _ _ _ _ _ _ _ Hreq) in Hsent. destruct Hsent. }
  rewrite (do_network_calls _ _ _ _ _ _ _ _ Hreq) in Hsent.
  destruct Hsent as [<-|[]]. by apply do_request_fields.
Qed.


End ExecutorMore.

(** ** The public operations, continued *)

Section OperationsMore.
Context `{StdLib} `{Flate} `{JSONShape QueryResponse} `{JSONShape UploadResponse}.

(** [UploadFile] on a file that opens is [Upload] on its contents,
    between the opening and the closing of the file. *)
Lemma UploadFile_opened (c : Client) (confirmCode path : string) (f : Reader) :
  os_Open path = inr f ->
  UploadFile c confirmCode path
  = (value (Upload c confirmCode (Some f)),
     OpenFile path :: trace (Upload c confirmCode (Some f)) ++ [CloseFile path]).
Proof.
  intros Hopen. unfold UploadFile. rewrite Hopen.
  destruct (Upload c confirmCode (Some f)) as [r t]. reflexivity.
Qed.

(** A request that [Query] hands to the transport is the request [do]
    builds for it. *)
Lemma Query_sent (c : Client) (classifiers : string) (hash : list string) (req : Request) :
  In req (network_calls (trace (Query c classifiers hash))) ->
  hash <> []
  /\ do_request c "GET" "q"
       {[ "c" := if decide (classifiers = "") then "all" else classifiers;
          "h" := Join hash "," ]} None 0 = inr req.
Proof.
  intros Hsent. destruct hash as [|h0 hash]; [destruct Hsent|].
  split; [done|].
  rewrite Query_unfold, bind_ret_trace in Hsent by done.
  destruct (do_request c "GET" "q" _ None 0) as [err|req'] eqn:Hreq.
  - rewrite (do_no_request _ _ _ _ _ _ _ _ Hreq) in Hsent. destruct Hsent.
  - rewrite (do_network_calls _ _ _ _ _ _ _ _ Hreq) in Hsent.
    by destruct Hsent as [<-|[]].
Qed.

Lemma do_calls_at_most_once {V} `{JSONShape V} (c : Client) (method rawurl : string)
    (params : gmap string string) (body : option (list byte)) (bodyLength : Z)
    (result : Result V) :
  (length (network_calls (trace (do c method rawurl params body bodyLength result))) <= 1)%nat.
Proof.
  destruct (do_request c method rawurl params body bodyLength) as [e|req] eqn:Hreq.
  - rewrite (do_no_request _ _ _ _ _ _ _ _ Hreq). simpl. lia.
  - rewrite (do_network_calls _ _ _ _ _ _ _ _ Hreq). simpl. lia.
Qed.

(** No operation calls the transport more than once: whatever the
    arguments and whatever the transport answers, there is no second
    attempt. *)
Theorem never_more_than_one_request (c : Client) :
  (forall classifiers hash,
      (length (network_calls (trace (Query c classifiers hash))) <= 1)%nat)
  /\ (forall confirmCode data,
         (length (network_calls (trace (Upload c confirmCode data))) <= 1)%nat)
  /\ (forall confirmCode path,
         (length (network_calls (trace (UploadFile c confirmCode path))) <= 1)%nat).
Proof.
  assert (Hupload : forall confirmCode data,
             (length (network_calls (trace (Upload c confirmCode data))) <= 1)%nat).
  { intros confirmCode data.
    destruct (decide (confirmCode = "")) as [->|Hcode]; [simpl; lia|].
    destruct data as [data|]; [|unfold Upload; rewrite decide_False by done; simpl; lia].
    destruct (failure data) as [e|] eqn:Hread.
    - rewrite (Upload_read_failure _ _ _ _ Hcode Hread). simpl. lia.
    - rewrite (Upload_unfold _ _ _ Hcode Hread), bind_ret_trace.
      apply do_calls_at_most_once. }
  split; [|split; [exact Hupload|]].
  - intros classifiers hash. destruct hash as [|h0 hash]; [simpl; lia|].
    rewrite Query_unfold, bind_ret_trace by done. apply do_calls_at_most_once.
  - intros confirmCode path. destruct (os_Open path) as [err|f] eqn:Hopen.
    + unfold UploadFile. rewrite Hopen. simpl. lia.
    + rewrite (UploadFile_opened _ _ _ _ Hopen). unfold trace at 1. simpl snd.
      change (OpenFile path :: ?t ++ [CloseFile path])
        with ([OpenFile path] ++ t ++ [CloseFile path]).
      rewrite !network_calls_app. simpl. rewrite app_nil_r. apply Hupload.
Qed.

(** Any request that [Upload] hands to the transport comes from a call
    with a confirmation code and a stream that was read to its end. *)
Lemma Upload_sent_inv (c : Client) (confirmCode : string) (data : option Reader)
    (req : Request) :
  In req (network_calls (trace (Upload c confirmCode data))) ->
  exists d,
    data = Some d /\ confirmCode <> "" /\ failure d = None
    /\ do_request c "PUT" ("u/" +:+ confirmCode) ∅ (Some (Upload_copied d).1.2)
         (Z.of_nat (length (Upload_copied d).1.2)) = inr req.
Proof.
  intros Hsent.
  destruct (decide (confirmCode = "")) as [->|Hcode]; [destruct Hsent|].
  destruct data as [d|];
    [|unfold Upload in Hsent; rewrite decide_False in Hsent by done; destruct Hsent].
  destruct (failure d) as [e|] eqn:Hread.
  { rewrite (Upload_read_failure _ _ _ _ Hcode Hread) in Hsent. destruct Hsent. }
  exists d. repeat split; try done. by apply Upload_sent.
Qed.

Lemma operations_loggers_ext (c c' : Client) :
  key c = key c' -> url c = url c' -> httpc c = httpc c' ->
  (forall req resp, httpc c req = inr resp -> BodyError resp = None) ->
  (forall classifiers hash,
      value (Query c classifiers hash) = value (Query c' classifiers hash)
      /\ outward (trace (Query c classifiers hash))
         = outward (trace (Query c' classifiers hash)))
  /\ (forall confirmCode data,
         value (Upload c confirmCode data) = value (Upload c' confirmCode data)
         /\ outward (trace (Upload c confirmCode data))
            = outward (trace (Upload c' confirmCode data)))
  /\ (forall confirmCode path,
         value (UploadFile c confirmCode path) = value (UploadFile c' confirmCode path)
         /\ outward (trace (UploadFile c confirmCode path))
            = outward (trace (UploadFile c' confirmCode path))).
Proof.
  intros Hkey Hurl Hhttp Hbody.
  assert (Hupload : forall confirmCode data,
             value (Upload c confirmCode data) = value (Upload c' confirmCode data)
             /\ outward (trace (Upload c confirmCode data))
                = outward (trace (Upload c' confirmCode data))).
  { intros confirmCode data.
    destruct (decide (confirmCode = "")) as [->|Hcode]; [by split|].
    destruct data as [data|]; [|unfold Upload; rewrite decide_False by done; by split].
    destruct (failure data) as [e|] eqn:Hread.
    - by rewrite !(Upload_read_failure _ _ _ _ Hcode Hread).
    - rewrite !(Upload_unfold _ _ _ Hcode Hread), !bind_ret_value, !bind_ret_trace.
      destruct (do_loggers_ext c c' "PUT" ("u/" +:+ confirmCode) ∅
                  (Some (Upload_copied data).1.2)
                  (Z.of_nat (length (Upload_copied data).1.2))
                  (DecodeInto (V := UploadResponse) (Some ∅)) Hkey Hurl Hhttp Hbody)
        as [-> ->].
      by split. }
  split; [|split; [exact Hupload|]].
  - intros classifiers hash. destruct hash as [|h0 hash]; [by split|].
    rewrite !Query_unfold, !bind_ret_value, !bind_ret_trace by done.
    destruct (do_loggers_ext c c' "GET" "q"
                {[ "c" := if decide (classifiers = "") then "all" else classifiers;
                   "h" := Join (h0 :: hash) "," ]} None 0
                (DecodeInto (V := QueryResponse) (Some ∅)) Hkey Hurl Hhttp Hbody)
      as [-> ->].
    by split.
  - intros confirmCode path. destruct (os_Open path) as [err|f] eqn:Hopen.
    + unfold UploadFile. rewrite Hopen. by split.
    + rewrite !(UploadFile_opened _ _ _ _ Hopen). unfold value, trace. simpl fst. simpl snd.
      destruct (Hupload confirmCode (Some f)) as [Hv Ht].
      unfold value, trace in Hv, Ht. rewrite Hv. split; [reflexivity|].
      change (?e :: ?t ++ ?u) with ([e] ++ t ++ u).
      rewrite !outward_app. by rewrite Ht.
Qed.

(** The loggers change neither what the operations return nor what
    shows of them outside the process, when the bodies of the
    responses read to their end: two clients with the same key, base
    URL and HTTP client get the same results, send the same requests
    and open and close the same files, whatever their loggers.  (The
    log apart, a logger does show inside: the dump it asks for reads
    and closes the body of the response.) *)
Theorem operations_independent_of_loggers (c c' : Client)
    (Hkey : key c = key c') (Hurl : url c = url c') (Hhttp : httpc c = httpc c')
    (Hbody : forall req resp, httpc c req = inr resp -> BodyError resp = None) :
  (forall classifiers hash,
      value (Query c classifiers hash) = value (Query c' classifiers hash)
      /\ outward (trace (Query c classifiers hash))
         = outward (trace (Query c' classifiers hash)))
  /\ (forall confirmCode data,
         value (Upload c confirmCode data) = value (Upload c' confirmCode data)
         /\ outward (trace (Upload c confirmCode data))
            = outward (trace (Upload c' confirmCode data)))
  /\ (forall confirmCode path,
         value (UploadFile c confirmCode path) = value (UploadFile c' confirmCode path)
         /\ outward (trace (UploadFile c confirmCode path))
            = outward (trace (UploadFile c' confirmCode path))).
Proof. by apply operations_loggers_ext. Qed.

(** What [Upload] does besides logging is at most one call of the
    transport and the closes of the body of its response. *)
Lemma Upload_no_file_event (c : Client) (confirmCode : string) (data : option Reader)
    (e : Event) :
  In e (trace (Upload c confirmCode data)) ->
  is_log e = true \/ e = CloseBody \/ exists req, e = RoundTrip req.
Proof.
  intros Hin. destruct (is_log e) eqn:He; [by left|right].
  assert (Hun : In e (unlogged (trace (Upload c confirmCode data)))).
  { apply List.filter_In. by rewrite He. }
  clear Hin.
  destruct (decide (confirmCode = "")) as [->|Hcode]; [destruct Hun|].
  destruct data as [data|];
    [|unfold Upload in Hun; rewrite decide_False in Hun by done; destruct Hun].
  destruct (failure data) as [err|] eqn:Hread.
  { rewrite (Upload_read_failure _ _ _ _ Hcode Hread) in Hun. destruct Hun. }
  rewrite (Upload_unfold _ _ _ Hcode Hread), bind_ret_trace, do_unlogged in Hun.
  destruct (do_request _ _ _ _ _ _) as [err|req]; [destruct Hun|].
  destruct Hun as [<-|Hun]; [right; by eexists|].
  destruct (httpc c req) as [err|resp]; [destruct Hun|].
  destruct (dump_closes c resp _); simpl in Hun; left; intuition.
Qed.

(** [UploadFile]: when the file cannot be opened, the error of
    [os.Open] is returned and nothing else happens.  When it opens, the
    result is that of [Upload] on the file, the opening is the first
    effect and the closing the last one, and the file is neither
    opened nor closed in between: it is closed once on every path,
    whether [Upload] refuses its arguments, fails, or succeeds. *)
Theorem UploadFile_file_scope (c : Client) (confirmCode path : string) :
  match os_Open path with
  | inl err => UploadFile c confirmCode path = ((None, Some err), [])
  | inr f =>
      value (UploadFile c confirmCode path) = value (Upload c confirmCode (Some f))
      /\ trace (UploadFile c confirmCode path)
         = OpenFile path :: trace (Upload c confirmCode (Some f)) ++ [CloseFile path]
      /\ forall p, ~ In (OpenFile p) (trace (Upload c confirmCode (Some f)))
                   /\ ~ In (CloseFile p) (trace (Upload c confirmCode (Some f)))
  end.
Proof.
  destruct (os_Open path) as [err|f] eqn:Hopen.
  { unfold UploadFile. by rewrite Hopen. }
  rewrite (UploadFile_opened _ _ _ _ Hopen). split; [reflexivity|].
  split; [reflexivity|].
  intros p. split; intros Hin;
    destruct (Upload_no_file_event _ _ _ _ Hin) as [He|[He|[req He]]]; discriminate.
Qed.

(** A stream that ends with a read error is not sent: [Upload] returns
    the error of the read with a nil map and does not call the
    transport, and [UploadFile] on such a file only opens and closes
    it. *)
Theorem Upload_read_error_aborts (c : Client) (confirmCode : string) (data : Reader)
    (e : goerror)
    (Hcode : confirmCode <> "") (Hread : failure data = Some e) :
  Upload c confirmCode (Some data) = ((None, Some e), [])
  /\ forall path,
       os_Open path = inr data ->
       UploadFile c confirmCode path = ((None, Some e), [OpenFile path; CloseFile path]).
Proof.
  pose proof (Upload_read_failure c _ _ _ Hcode Hread) as Hup.
  split; [exact Hup|]. intros path Hopen.
  by rewrite (UploadFile_opened _ _ _ _ Hopen), Hup.
Qed.

End OperationsMore.

(** ** The encoding of the query string *)

Lemma string_forallb_app (p : ascii -> bool) (s t : string) :
  string_forallb p (s +:+ t) = string_forallb p s && string_forallb p t.
Proof.
  induction s as [|a s IH]; [reflexivity|].
  rewrite append_cons. simpl. by rewrite IH, andb_assoc.
Qed.

(** What [QueryEscape] makes of one byte. *)
Lemma QueryEscape_cons (a : ascii) (s : string) :
  QueryEscape (String a s) = QueryEscape (String a "") +:+ QueryEscape s.
Proof. simpl. by rewrite append_nil_r. Qed.

Lemma QueryEscape_byte_safe (a : ascii) :
  string_forallb query_byte (QueryEscape (String a "")) = true.
Proof. destruct a as [[] [] [] [] [] [] [] []]; reflexivity. Qed.

Lemma QueryUnescape_byte (a : ascii) (rest : string) :
  QueryUnescape (QueryEscape (String a "") +:+ rest) = String a <$> QueryUnescape rest.
Proof. destruct a as [[] [] [] [] [] [] [] []]; reflexivity. Qed.

Lemma QueryEscape_query_bytes (s : string) :
  string_forallb query_byte (QueryEscape s) = true.
Proof.
  induction s as [|a s IH]; [reflexivity|].
  rewrite QueryEscape_cons, string_forallb_app, IH, QueryEscape_byte_safe. reflexivity.
Qed.

Lemma QueryUnescape_escaped (s : string) :
  QueryUnescape (QueryEscape s) = Some s.
Proof.
  induction s as [|a s IH]; [reflexivity|].
  rewrite QueryEscape_cons, QueryUnescape_byte, IH. reflexivity.
Qed.

(** [QueryEscape] produces letters, digits and the bytes [-_.~+%]
    only: an escaped value holds no [&], [=], [#], [?], [/] or space,
    so it cannot end its parameter or start another one.  Nothing is
    lost: unescaping an escaped string gives the string back. *)
Theorem QueryEscape_safe_and_reversible (s : string) :
  string_forallb query_byte (QueryEscape s) = true
  /\ QueryUnescape (QueryEscape s) = Some s.
Proof. split; [apply QueryEscape_query_bytes|apply QueryUnescape_escaped]. Qed.

(** *** Parsing the query string of [do] *)

Lemma string_forallb_impl (p q : ascii -> bool) (s : string) :
  (forall a, p a = true -> q a = true) ->
  string_forallb p s = true -> string_forallb q s = true.
Proof.
  intros Hpq. induction s as [|a s IH]; [reflexivity|]. simpl.
  intros [Ha Hs]%andb_true_iff. by rewrite (Hpq _ Ha), IH.
Qed.

Lemma Cut_without (s : string) (sep : ascii) :
  string_forallb (fun a => negb (Ascii.eqb a sep)) s = true -> Cut s sep = (s, None).
Proof.
  induction s as [|a s IH]; [reflexivity|]. simpl.
  intros [Ha Hs]%andb_true_iff. apply negb_true_iff in Ha. by rewrite Ha, IH.
Qed.

Lemma Cut_at (s t : string) (sep : ascii) :
  string_forallb (fun a => negb (Ascii.eqb a sep)) s = true ->
  Cut (s +:+ String sep t) sep = (s, Some t).
Proof.
  induction s as [|a s IH].
  - intros _. rewrite append_nil_l. simpl. by rewrite Ascii.eqb_refl.
  - rewrite append_cons. simpl. intros [Ha Hs]%andb_true_iff.
    apply negb_true_iff in Ha. by rewrite Ha, IH.
Qed.

(** An escaped string holds none of the separators of a query. *)
Lemma QueryEscape_without (s : string) (sep : ascii) :
  query_byte sep = false ->
  string_forallb (fun a => negb (Ascii.eqb a sep)) (QueryEscape s) = true.
Proof.
  intros Hsep. apply (string_forallb_impl query_byte); [|apply QueryEscape_query_bytes].
  intros a Ha. apply negb_true_iff, Ascii.eqb_neq. intros ->. congruence.
Qed.

Lemma encoded_without (kv : string * string) (sep : ascii) :
  query_byte sep = false -> sep <> "="%char ->
  string_forallb (fun a => negb (Ascii.eqb a sep)) (encoded kv) = true.
Proof.
  intros Hsep Hne. rewrite !string_forallb_app, !QueryEscape_without by done.
  cbn [string_forallb andb].
  apply Ascii.eqb_neq in Hne. rewrite Ascii.eqb_sym in Hne. by rewrite Hne.
Qed.

Lemma encoded_nonempty (kv : string * string) : encoded kv <> "".
Proof.
  intros Hempty. apply (f_equal len) in Hempty.
  rewrite !len_append in Hempty. simpl in Hempty. lia.
Qed.

(** The loop of the parser on one encoded parameter. *)
Lemma parseQuery_step (fuel : nat) (m : gmap string (list string))
    (err : option QueryError) (kv : string * string) (rest : option string) :
  Cut (encoded kv +:+ match rest with Some r => String "&"%char r | None => "" end)
      "&"%char = (encoded kv, rest) ->
  parseQuery (S fuel) m err
    (encoded kv +:+ match rest with Some r => String "&"%char r | None => "" end)
  = parseQuery fuel (Values_Add m kv.1 kv.2) err (default "" rest).
Proof.
  intros Hcut. cbn [parseQuery]. rewrite decide_False.
  2:{ intros Hempty. apply (f_equal len) in Hempty.
      rewrite !len_append in Hempty. simpl in Hempty. lia. }
  rewrite Hcut. rewrite (encoded_without kv ";"%char) by done. simpl negb. cbv iota.
  rewrite decide_False by apply encoded_nonempty.
  change (QueryEscape kv.1 +:+ "=" +:+ QueryEscape kv.2)
    with (QueryEscape kv.1 +:+ String "="%char (QueryEscape kv.2)).
  rewrite (Cut_at (QueryEscape kv.1) (QueryEscape kv.2) "="%char)
    by (by apply QueryEscape_without).
  simpl default. by rewrite !QueryUnescape_escaped.
Qed.

(** The parser on a sequence of encoded parameters joined by [&]. *)
Lemma parseQuery_encoded (kvs : list (string * string)) :
  forall (fuel : nat) (m : gmap string (list string)) (err : option QueryError),
    (length kvs <= fuel)%nat ->
    parseQuery fuel m err (Join (map (fun kv => encoded kv) kvs) "&")
    = (foldl (fun m kv => Values_Add m kv.1 kv.2) m kvs, err).
Proof.
  induction kvs as [|kv kvs IH]; intros fuel m err Hfuel.
  - destruct fuel; reflexivity.
  - destruct fuel as [|fuel]; [simpl in Hfuel; lia|].
    destruct kvs as [|kv' kvs].
    + simpl Join. simpl map.
      pose proof (parseQuery_step fuel m err kv None) as Hstep.
      rewrite append_nil_r in Hstep. rewrite Hstep.
      * destruct fuel; reflexivity.
      * by apply Cut_without, encoded_without.
    + change (Join (map (fun kv => encoded kv) (kv :: kv' :: kvs)) "&")
        with (encoded kv +:+ String "&"%char
                (Join (map (fun kv => encoded kv) (kv' :: kvs)) "&")).
      rewrite (parseQuery_step fuel m err kv (Some _)).
      * simpl default. rewrite IH by (simpl in *; lia). reflexivity.
      * by apply Cut_at, encoded_without.
Qed.

(** The values [do] makes of its parameters: one value under each key. *)
Lemma do_values (params : gmap string string) :
  map_fold (fun k v values => Values_Add values k v) ∅ params
  = (fun v => [v]) <$> params.
Proof.
  apply (map_fold_weak_ind (fun r m => r = (fun v => [v]) <$> m)).
  - by rewrite fmap_empty.
  - intros k v m r Hk ->. unfold Values_Add.
    rewrite lookup_fmap, Hk. simpl. by rewrite fmap_insert.
Qed.

Lemma map_is_fmap {A B} (f : A -> B) (l : list A) : map f l = f <$> l.
Proof. induction l as [|x l IH]; [reflexivity|]. simpl. by rewrite IH. Qed.

(** The sorted keys of a map are its keys, each once. *)
Lemma sorted_keys_spec (v : gmap string (list string)) :
  NoDup (sorted_keys v) /\ forall k, k ∈ sorted_keys v <-> is_Some (v !! k).
Proof.
  unfold sorted_keys. rewrite map_is_fmap.
  pose proof (merge_sort_Permutation String.le ((map_to_list v).*1)) as Hperm.
  split.
  - rewrite Hperm. apply NoDup_fst_map_to_list.
  - intros k. rewrite Hperm, list_elem_of_fmap. split.
    + intros [[k' x] [-> Hin]]. apply elem_of_map_to_list in Hin. by exists x.
    + intros [x Hx]. exists (k, x). split; [reflexivity|].
      by apply elem_of_map_to_list.
Qed.

(** What [Encode] writes for the values of [do]. *)
Lemma Values_Encode_singletons (params : gmap string string) :
  Values_Encode ((fun v => [v]) <$> params)
  = Join (map (fun kv => encoded kv)
            (map (fun k => (k, default "" (params !! k)))
               (sorted_keys ((fun v => [v]) <$> params)))) "&".
Proof.
  unfold Values_Encode. apply (f_equal (fun l => Join l "&")).
  destruct (sorted_keys_spec ((fun v => [v]) <$> params)) as [_ Hkeys].
  assert (Hall : Forall (fun k => is_Some (params !! k))
                   (sorted_keys ((fun v => [v]) <$> params))).
  { apply Forall_forall. intros k Hk. apply Hkeys in Hk.
    rewrite lookup_fmap in Hk. by apply fmap_is_Some in Hk. }
  clear Hkeys. induction Hall as [|k ks [x Hx] _ IH]; [reflexivity|].
  simpl. rewrite <- IH. rewrite lookup_fmap, Hx. reflexivity.
Qed.

Lemma Join_encoded_length (kvs : list (string * string)) :
  (length kvs <= len (Join (map (fun kv => encoded kv) kvs) "&"))%nat.
Proof.
  induction kvs as [|kv kvs IH]; [simpl; lia|].
  destruct kvs as [|kv' kvs].
  - simpl Join. simpl map. rewrite !len_append. simpl. lia.
  - change (Join (map (fun kv => encoded kv) (kv :: kv' :: kvs)) "&")
      with (encoded kv +:+ "&" +:+ Join (map (fun kv => encoded kv) (kv' :: kvs)) "&").
    rewrite !len_append. simpl in *. lia.
Qed.

(** Adding one value under each key of a list without repetitions. *)
Lemma foldl_Values_Add_lookup (g : string -> string) (ks : list string) :
  forall (m : gmap string (list string)) (k : string),
    NoDup ks -> (forall k', k' ∈ ks -> m !! k' = None) ->
    foldl (fun m kv => Values_Add m kv.1 kv.2) m (map (fun k => (k, g k)) ks) !! k
    = if decide (k ∈ ks) then Some [g k] else m !! k.
Proof.
  induction ks as [|k0 ks IH]; intros m k Hnodup Hfresh.
  - cbn [map foldl]. rewrite decide_False; [reflexivity|]. apply not_elem_of_nil.
  - apply NoDup_cons in Hnodup as [Hk0 Hnodup]. cbn [map foldl fst snd].
    rewrite IH; [|done|].
    2:{ intros k' Hk'. unfold Values_Add. rewrite lookup_insert_ne.
        - apply Hfresh. by right.
        - intros ->. done. }
    unfold Values_Add. rewrite (Hfresh k0) by left. simpl.
    destruct (decide (k ∈ ks)) as [Hin|Hnin].
    + rewrite decide_True; [reflexivity|]. by right.
    + destruct (decide (k = k0)) as [->|Hne].
      * rewrite lookup_insert_eq. rewrite decide_True; [reflexivity|]. left.
      * rewrite lookup_insert_ne by done. rewrite decide_False; [reflexivity|].
        intros [->|Hin]%elem_of_cons; done.
Qed.

(** Parsing the query string that [do] builds from its parameters gives
    the parameters back, each key with its one value, and no error: the
    escaping loses nothing and no value can leak into another
    parameter. *)
Theorem ParseQuery_do_parameters (params : gmap string string) :
  ParseQuery (Values_Encode (map_fold (fun k v values => Values_Add values k v) ∅ params))
  = ((fun v => [v]) <$> params, None).
Proof.
  rewrite do_values, Values_Encode_singletons. unfold ParseQuery.
  rewrite parseQuery_encoded.
  2:{ pose proof (Join_encoded_length
                    (map (fun k => (k, default "" (params !! k)))
                       (sorted_keys ((fun v => [v]) <$> params)))). lia. }
  f_equal. apply map_eq. intros k.
  destruct (sorted_keys_spec ((fun v => [v]) <$> params)) as [Hnodup Hkeys].
  rewrite (foldl_Values_Add_lookup (fun k => default "" (params !! k)));
    [|done|intros; apply lookup_empty].
  rewrite lookup_fmap. destruct (decide (k ∈ _)) as [Hin|Hnin].
  - apply Hkeys in Hin. rewrite lookup_fmap in Hin.
    apply fmap_is_Some in Hin as [x Hx]. by rewrite Hx.
  - rewrite lookup_empty. destruct (params !! k) as [x|] eqn:Hx; [|reflexivity].
    exfalso. apply Hnin, Hkeys. rewrite lookup_fmap, Hx. by eexists.
Qed.

(** ** Construction from the options of the package *)

Section ConstructionMore.
Context `{StdLib}.

Lemma New_succeeds (options : list OptionFunc) (c : Client) (t : list Event) :
  New options = (inr c, t) ->
  key c <> "" /\ exists t', run_options options New_initial = (inr c, t').
Proof.
  intros Hnew.
  destruct (run_options options New_initial) as [[e|c1] t1] eqn:Hrun.
  - rewrite (New_options_err _ _ _ Hrun) in Hnew. discriminate.
  - pose proof (New_value_ok _ _ _ Hrun) as Hval. rewrite Hnew in Hval.
    unfold value in Hval. simpl in Hval.
    destruct (decide (key c1 = "")); [discriminate|].
    inversion Hval; subst. eauto.
Qed.

Lemma run_options_snoc (options : list OptionFunc) (opt : OptionFunc) (c0 c : Client)
    (t : list Event) :
  run_options (options ++ [opt]) c0 = (inr c, t) ->
  exists c1 t1 t2,
    run_options options c0 = (inr c1, t1) /\ opt c1 = ((c, None), t2).
Proof.
  intros Hrun.
  destruct (run_options options c0) as [[e|c1] t1] eqn:Hpre.
  - rewrite (run_options_app_err _ _ _ _ _ Hpre) in Hrun. discriminate.
  - rewrite (run_options_app_ok _ _ _ _ _ Hpre) in Hrun.
    unfold value, trace in Hrun. simpl in Hrun. unfold bind in Hrun.
    destruct (opt c1) as [[c2 [e|]] t2] eqn:Hopt; simpl in Hrun; [discriminate|].
    inversion Hrun; subst. by exists c1, t1, t2.
Qed.

Lemma last_asked_snoc {A} (asked : OptionCall -> option A) (calls : list OptionCall)
    (call : OptionCall) :
  last_asked asked (calls ++ [call])
  = match asked call with
    | Some x => Some x
    | None => last_asked asked calls
    end.
Proof.
  unfold last_asked. rewrite omap_app. simpl.
  destruct (asked call); [apply last_snoc|by rewrite app_nil_r].
Qed.

(** What a successful option of the package does to a client. *)
Lemma option_of_succeeds (call : OptionCall) (c1 c : Client) (t : list Event) :
  option_of call c1 = ((c, None), t) ->
  key c = default (key c1) (asked_key call)
  /\ url c = from_option with_separator (url c1) (asked_url call)
  /\ httpc c = default (httpc c1) (asked_httpc call)
  /\ errorlog c = default (errorlog c1) (asked_errorlog call)
  /\ tracelog c = default (tracelog c1) (asked_tracelog call)
  /\ (asked_key call = Some "" -> False).
Proof.
  destruct call as [k|h|rawurl|l|l]; simpl.
  - unfold SetKey, errorf, bind. destruct (decide (k = "")) as [->|Hk].
    + destruct (errorlog c1); simpl; discriminate.
    + intros Hs. inversion Hs; subst. repeat split. intros [= ->]. done.
  - unfold SetHTTPClient. destruct h; intros Hs; inversion Hs; subst; by repeat split.
  - unfold SetURL, errorf, bind, with_separator.
    destruct (url_Parse _) as [e|u].
    { destruct (errorlog c1); simpl; discriminate. }
    destruct (negb _ && negb _).
    { destruct (errorlog c1); simpl; discriminate. }
    simpl. destruct (HasSuffix _ "/"); simpl; intros Hs; inversion Hs; subst;
      by repeat split.
  - intros Hs. inversion Hs; subst. by repeat split.
  - intros Hs. inversion Hs; subst. by repeat split.
Qed.

(** The client that the options of the package leave, field by field:
    the last call that sets a field decides it, and a field that no
    call sets keeps the value it started with. *)
Lemma run_options_last_wins (calls : list OptionCall) :
  forall (c0 c : Client) (t : list Event),
    run_options (map option_of calls) c0 = (inr c, t) ->
    key c = default (key c0) (last_asked asked_key calls)
    /\ url c = from_option with_separator (url c0) (last_asked asked_url calls)
    /\ httpc c = default (httpc c0) (last_asked asked_httpc calls)
    /\ errorlog c = default (errorlog c0) (last_asked asked_errorlog calls)
    /\ tracelog c = default (tracelog c0) (last_asked asked_tracelog calls)
    /\ last_asked asked_key calls <> Some "".
Proof.
  induction calls as [|call calls IH] using rev_ind; intros c0 c t Hrun.
  - inversion Hrun; subst. by repeat split.
  - rewrite map_app in Hrun. simpl in Hrun.
    destruct (run_options_snoc _ _ _ _ _ Hrun) as (c1 & t1 & t2 & Hpre & Hopt).
    destruct (IH _ _ _ Hpre) as (Hk & Hu & Hh & He & Ht & Hne).
    destruct (option_of_succeeds _ _ _ _ Hopt) as (Hk' & Hu' & Hh' & He' & Ht' & Hne').
    rewrite !last_asked_snoc.
    rewrite Hk', Hu', Hh', He', Ht', Hk, Hu, Hh, He, Ht.
    destruct call; simpl in *; by repeat split.
Qed.

Lemma with_separator_ends (s : string) : HasSuffix (with_separator s) "/" = true.
Proof.
  unfold with_separator. destruct (HasSuffix s "/") eqn:Hs; [exact Hs|].
  apply HasSuffix_appended.
Qed.

(** A client that [New] returns for options of the package has a key
    that is not empty, which is the key of the last [SetKey]; its base
    URL ends with a separator and is the URL of the last [SetURL] (the
    default URL where that is empty), with the separator appended when
    it was missing, or the default URL when there was no [SetURL]; its
    loggers and its HTTP client are those of the last call that set
    them, none and the default client otherwise. *)
Theorem New_last_option_wins (calls : list OptionCall) (c : Client) (t : list Event)
    (Hnew : New (map option_of calls) = (inr c, t)) :
  key c <> ""
  /\ last_asked asked_key calls = Some (key c)
  /\ HasSuffix (url c) "/" = true
  /\ url c = with_separator (default DefaultURL (last_asked asked_url calls))
  /\ httpc c = default DefaultClient (last_asked asked_httpc calls)
  /\ errorlog c = default None (last_asked asked_errorlog calls)
  /\ tracelog c = default None (last_asked asked_tracelog calls).
Proof.
  destruct (New_succeeds _ _ _ Hnew) as [Hkey (t' & Hrun)].
  destruct (run_options_last_wins _ _ _ _ Hrun) as (Hk & Hu & Hh & He & Ht & _).
  simpl in Hk, Hu, Hh, He, Ht.
  assert (Hurl : url c = with_separator (default DefaultURL (last_asked asked_url calls))).
  { rewrite Hu. by destruct (last_asked asked_url calls). }
  split; [exact Hkey|]. split.
  { destruct (last_asked asked_key calls); simpl in Hk; congruence. }
  split.
  { rewrite Hurl. apply with_separator_ends. }
  by repeat split.
Qed.

(** The options of the package and [New] do nothing but log. *)
Lemma option_of_logs (call : OptionCall) (c : Client) :
  forallb is_log (trace (option_of call c)) = true.
Proof.
  destruct call as [k|h|rawurl|l|l]; simpl; try reflexivity.
  - unfold SetKey, errorf. destruct (decide (k = "")); [|reflexivity].
    by destruct (errorlog c).
  - unfold SetHTTPClient. by destruct h.
  - unfold SetURL, errorf. destruct (url_Parse _) as [e|u].
    { by destruct (errorlog c). }
    destruct (negb _ && negb _); [by destruct (errorlog c)|reflexivity].
Qed.

Lemma run_options_logs (calls : list OptionCall) :
  forall c, forallb is_log (trace (run_options (map option_of calls) c)) = true.
Proof.
  induction calls as [|call calls IH]; intros c; [reflexivity|].
  cbn [map run_options]. pose proof (option_of_logs call c) as Hopt.
  unfold bind, trace in *. destruct (option_of call c) as [[c' [e|]] t1]; simpl in *.
  - by rewrite app_nil_r.
  - specialize (IH c'). destruct (run_options _ c') as [r t2]. simpl in *.
    by rewrite forallb_app, Hopt, IH.
Qed.

Lemma New_logs (calls : list OptionCall) :
  forallb is_log (trace (New (map option_of calls))) = true.
Proof.
  unfold New. pose proof (run_options_logs calls New_initial) as Hrun.
  unfold bind, trace, tracef, errorf in *.
  destruct (run_options _ New_initial) as [[e|c] t1]; simpl in *.
  - by rewrite app_nil_r.
  - destruct (tracelog c), (decide (key c = "")), (errorlog c); simpl;
      rewrite forallb_app, Hrun; reflexivity.
Qed.

End ConstructionMore.

(** ** The command line tool *)

(** Splitting at a separator and joining with it gives the string
    back. *)
Lemma Split_nonempty (s : string) (sep : ascii) : Split s sep <> [].
Proof.
  induction s as [|a s IH]; [done|]. simpl.
  destruct (Ascii.eqb a sep); [done|]. by destruct (Split s sep).
Qed.

Lemma Join_Split (s : string) (sep : ascii) :
  Join (Split s sep) (String sep EmptyString) = s.
Proof.
  induction s as [|a s IH]; [reflexivity|]. cbn [Split].
  destruct (Ascii.eqb a sep) eqn:Ha.
  - apply Ascii.eqb_eq in Ha as ->.
    pose proof (Split_nonempty s sep) as Hne.
    destruct (Split s sep) as [|piece pieces]; [done|].
    change (Join ("" :: piece :: pieces) (String sep ""))
      with ("" +:+ String sep "" +:+ Join (piece :: pieces) (String sep "")).
    by rewrite IH.
  - pose proof (Split_nonempty s sep) as Hne.
    destruct (Split s sep) as [|piece pieces]; [done|].
    rewrite <- IH. destruct pieces as [|piece' pieces]; reflexivity.
Qed.

Lemma lib_events_app (t1 t2 : list CLIEvent) :
  lib_events (t1 ++ t2) = lib_events t1 ++ lib_events t2.
Proof. apply omap_app. Qed.

Lemma lib_events_Lib (t : list Event) : lib_events (map Lib t) = t.
Proof. induction t as [|e t IH]; [reflexivity|]. simpl. by rewrite IH. Qed.

Lemma stdout_app (t1 t2 : list CLIEvent) : stdout (t1 ++ t2) = stdout t1 ++ stdout t2.
Proof. apply List.filter_app. Qed.

Lemma stdout_Lib (t : list Event) : stdout (map Lib t) = [].
Proof. induction t as [|e t IH]; [reflexivity|]. exact IH. Qed.

Lemma cli_outward_app (t1 t2 : list CLIEvent) :
  cli_outward (t1 ++ t2) = cli_outward t1 ++ cli_outward t2.
Proof. apply List.filter_app. Qed.

Lemma cli_outward_Lib (t : list Event) : cli_outward (map Lib t) = map Lib (outward t).
Proof.
  induction t as [|e t IH]; [reflexivity|]. simpl.
  destruct (is_outward e); simpl; by rewrite IH.
Qed.

(** A run that is over with an error: code 2, and the line for the
    error is the last thing it wrote. *)
Lemma check_error (e : goerror) :
  check (Some e) = (inl 2, [Stderr ("Error - %v" +:+ LF) [error_string e]]).
Proof. reflexivity. Qed.

Lemma bindC_lift {A B} (m : M A) (k : A -> CLI B) :
  bindC (lift m) k = ((k (value m)).1, map Lib (trace m) ++ (k (value m)).2).
Proof. unfold bindC, lift. by destruct (k (value m)). Qed.

Lemma bindC_run {A B} (m : CLI A) (k : A -> CLI B) :
  bindC m k
  = match m.1 with
    | inl code => (inl code, m.2)
    | inr a => ((k a).1, m.2 ++ (k a).2)
    end.
Proof. destruct m as [[code|a] t]; [reflexivity|]. simpl. by destruct (k a). Qed.

Lemma bindC_retC {A B} (a : A) (k : A -> CLI B) : bindC (retC a) k = k a.
Proof. unfold bindC, retC. by destruct (k a). Qed.

Lemma print_loop {A} (line : A -> CLIEvent) (l : list A) :
  foldr (fun kv rest => emitC (line kv) ;;~ rest) (retC tt) l = (inr tt, map line l).
Proof.
  induction l as [|x l IH]; [reflexivity|]. cbn [foldr]. by rewrite IH.
Qed.

Section ToolProps.
Context `{StdLib} `{Flate} `{JSONShape QueryResponse} `{JSONShape UploadResponse}
        `{ToolLib}.

(** Printing a result either writes to standard output only, or fails
    in [json.MarshalIndent] and ends the run. *)
Lemma print_query_run (jsonFormat : bool) (res : option (gmap string QueryResponse)) :
  (exists out, print_query jsonFormat res = (inr tt, out) /\ forallb is_stdout out = true)
  \/ (exists err, jsonFormat = true /\ print_query jsonFormat res = check (Some err)).
Proof.
  unfold print_query. destruct jsonFormat.
  - destruct (MarshalIndent_query res) as [err|b]; [right; by exists err|].
    left. by eexists.
  - left. induction (range_query _) as [|kv l (out & IH & Hout)]; [by exists []|].
    cbn [foldr]. rewrite IH. by eexists.
Qed.

Lemma print_upload_run (jsonFormat : bool) (res : option (gmap string UploadResponse)) :
  (exists out, print_upload jsonFormat res = (inr tt, out) /\ forallb is_stdout out = true)
  \/ (exists err, jsonFormat = true /\ print_upload jsonFormat res = check (Some err)).
Proof.
  unfold print_upload. destruct jsonFormat.
  - destruct (MarshalIndent_upload res) as [err|b]; [right; by exists err|].
    left. by eexists.
  - left. induction (range_upload _) as [|kv l (out & IH & Hout)]; [by exists []|].
    cbn [foldr]. rewrite IH. by eexists.
Qed.


(** The two blocks, by what the operation returns. *)
Lemma query_command_run (inf : Client) (flags : Flags) :
  query_command inf flags
  = if bool_decide (flag_q flags = "") then (inr tt, [])
    else
      let r := Query inf "" (Split (flag_q flags) ","%char) in
      match (value r).2 with
      | Some e => (inl 2, map Lib (trace r) ++ [error_line (error_string e)])
      | None =>
          ((print_query (flag_jsonFormat flags) (value r).1).1,
           map Lib (trace r) ++ (print_query (flag_jsonFormat flags) (value r).1).2)
      end.
Proof.
  unfold query_command. destruct (bool_decide (flag_q flags = "")); [reflexivity|].
  cbn [negb]. cbv zeta. rewrite bindC_lift.
  destruct ((value (Query inf "" (Split (flag_q flags) ","))).2) as [e|]; [reflexivity|].
  cbn [check]. unfold retC. cbn [bindC].
  by destruct (print_query _ _).
Qed.

Lemma upload_command_run (inf : Client) (flags : Flags) :
  upload_command inf flags
  = if bool_decide (flag_f flags = "") then (inr tt, [])
    else
      let r := UploadFile inf (flag_c flags) (flag_f flags) in
      match (value r).2 with
      | Some e => (inl 2, map Lib (trace r) ++ [error_line (error_string e)])
      | None =>
          ((print_upload (flag_jsonFormat flags) (value r).1).1,
           map Lib (trace r) ++ (print_upload (flag_jsonFormat flags) (value r).1).2)
      end.
Proof.
  unfold upload_command. destruct (bool_decide (flag_f flags = "")); [reflexivity|].
  cbn [negb]. cbv zeta. rewrite bindC_lift.
  destruct ((value (UploadFile inf (flag_c flags) (flag_f flags))).2) as [e|];
    [reflexivity|].
  cbn [check]. unfold retC. cbn [bindC].
  by destruct (print_upload _ _).
Qed.

(** [main], by its cases. *)
Lemma main_run (flags : Flags) :
  main flags
  = if bool_decide (flag_q flags = "") && bool_decide (flag_f flags = "") then
      (inl 1,
       [Stderr ("No command given. Please specify either q or f as parameters" +:+ LF) []])
    else if negb (bool_decide (flag_f flags = "")) && bool_decide (flag_c flags = "")
            || negb (bool_decide (flag_c flags = "")) && bool_decide (flag_f flags = "") then
      (inl 1,
       [Stderr ("You must provide both the file and confirmation code for upload" +:+ LF)
          []])
    else
      let n := New [SetErrorLog (Some stderr_errorlog); SetURL (flag_url flags);
                    SetKey (flag_key flags)] in
      match value n with
      | inl err => (inl 2, map Lib (trace n) ++ [error_line (error_string err)])
      | inr inf =>
          let inf := if flag_v flags then with_tracelog (Some stderr_tracelog) inf
                     else inf in
          match (query_command inf flags).1 with
          | inl code => (inl code, map Lib (trace n) ++ (query_command inf flags).2)
          | inr _ =>
              ((upload_command inf flags).1,
               map Lib (trace n) ++ (query_command inf flags).2
               ++ (upload_command inf flags).2)
          end
      end.
Proof.
  unfold main.
  destruct (bool_decide (flag_q flags = "") && bool_decide (flag_f flags = ""));
    [reflexivity|].
  destruct (negb (bool_decide (flag_f flags = "")) && bool_decide (flag_c flags = "")
            || negb (bool_decide (flag_c flags = "")) && bool_decide (flag_f flags = ""));
    [reflexivity|].
  rewrite !bindC_retC, bindC_lift. cbv zeta.
  destruct (value (New _)) as [err|inf]; [reflexivity|].
  assert (Hinf : (inf <~ (if flag_v flags
                          then o <~ lift (SetTraceLog (Some stderr_tracelog) inf) ;; retC o.1
                          else retC inf) ;;
                  query_command inf flags ;;~ upload_command inf flags)
                 = (query_command
                      (if flag_v flags then with_tracelog (Some stderr_tracelog) inf else inf)
                      flags ;;~
                    upload_command
                      (if flag_v flags then with_tracelog (Some stderr_tracelog) inf else inf)
                      flags)).
  { destruct (flag_v flags); [|by rewrite bindC_retC].
    unfold SetTraceLog, lift, ret, retC, value, trace. cbn [bindC fst snd map app].
    by destruct (bindC _ _). }
  rewrite Hinf, bindC_run.
  by destruct ((query_command _ flags).1).
Qed.

Lemma no_Stderr_Lib (t : list Event) (format : string) (args : list string) :
  ~ In (Stderr format args) (map Lib t).
Proof. induction t as [|e t IH]; [intros []|]. intros [Heq|Hin]; [discriminate|done]. Qed.

Lemma no_Stderr_stdout (out : list CLIEvent) (format : string) (args : list string) :
  forallb is_stdout out = true -> ~ In (Stderr format args) out.
Proof.
  induction out as [|e out IH]; [intros _ []|]. simpl.
  intros [He Hout]%andb_true_iff [->|Hin]; [discriminate|by apply IH].
Qed.

Lemma stdout_only (out : list CLIEvent) :
  forallb is_stdout out = true -> lib_events out = [].
Proof.
  induction out as [|e out IH]; [reflexivity|]. simpl.
  intros [He Hout]%andb_true_iff. destruct e; try discriminate; by apply IH.
Qed.

(** The operation of a block and the printing of its result, put
    together. *)
Lemma command_reports {A} (r : M (A * option goerror)) (print : A -> CLI unit) :
  (forall a, (exists out, print a = (inr tt, out) /\ forallb is_stdout out = true)
             \/ (exists err, print a = check (Some err))) ->
  reports_errors
    (match (value r).2 with
     | Some e => (inl 2, map Lib (trace r) ++ [error_line (error_string e)])
     | None => ((print (value r).1).1, map Lib (trace r) ++ (print (value r).1).2)
     end : CLI unit).
Proof.
  intros Hprint. destruct ((value r).2) as [e|].
  { right. by eexists _, _. }
  destruct (Hprint (value r).1) as [(out & -> & Hout)|(err & ->)].
  - left. exists tt. split; [reflexivity|]. intros format args [Hin|Hin]%in_app_or.
    + by apply no_Stderr_Lib in Hin.
    + by apply no_Stderr_stdout in Hin.
  - right. exists (error_string err), (map Lib (trace r)). reflexivity.
Qed.

Lemma query_command_reports (inf : Client) (flags : Flags) :
  reports_errors (query_command inf flags).
Proof.
  rewrite query_command_run. destruct (bool_decide _).
  { left. exists tt. split; [reflexivity|]. intros ? ? []. }
  apply (command_reports (Query inf "" _) (print_query (flag_jsonFormat flags))).
  intros a. destruct (print_query_run (flag_jsonFormat flags) a) as [?|(err & _ & ?)];
    eauto.
Qed.

Lemma upload_command_reports (inf : Client) (flags : Flags) :
  reports_errors (upload_command inf flags).
Proof.
  rewrite upload_command_run. destruct (bool_decide _).
  { left. exists tt. split; [reflexivity|]. intros ? ? []. }
  apply (command_reports (UploadFile inf _ _) (print_upload (flag_jsonFormat flags))).
  intros a. destruct (print_upload_run (flag_jsonFormat flags) a) as [?|(err & _ & ?)];
    eauto.
Qed.

(** With flags that pass the two checks, [main] goes on to the end or
    stops at an error that it reports. *)
Lemma main_reports (flags : Flags) :
  bool_decide (flag_q flags = "") && bool_decide (flag_f flags = "") = false ->
  negb (bool_decide (flag_f flags = "")) && bool_decide (flag_c flags = "")
  || negb (bool_decide (flag_c flags = "")) && bool_decide (flag_f flags = "") = false ->
  reports_errors (main flags).
Proof.
  intros Hcmd Hpair. rewrite main_run, Hcmd, Hpair. cbv zeta.
  destruct (value (New _)) as [err|inf].
  { right. by eexists _, _. }
  set (inf' := if flag_v flags then _ else inf).
  destruct (query_command_reports inf' flags)
    as [([] & Hq & Hnone)|(msg & t & Hq)].
  - rewrite Hq.
    destruct (upload_command_reports inf' flags)
      as [([] & Hu & Hnone')|(msg & t & Hu)].
    + left. exists tt. split; [by rewrite Hu|].
      intros format args [Hin|[Hin|Hin]%in_app_or]%in_app_or.
      * by apply no_Stderr_Lib in Hin.
      * by apply Hnone in Hin.
      * by apply Hnone' in Hin.
    + right. exists msg, (map Lib (trace (New [SetErrorLog (Some stderr_errorlog);
                                               SetURL (flag_url flags);
                                               SetKey (flag_key flags)]))
                          ++ (query_command inf' flags).2 ++ t).
      rewrite Hu. cbn [fst snd]. by rewrite <- !app_assoc.
  - rewrite Hq. cbn [fst snd]. right.
    exists msg, (map Lib (trace (New [SetErrorLog (Some stderr_errorlog);
                                      SetURL (flag_url flags);
                                      SetKey (flag_key flags)])) ++ t).
    by rewrite <- !app_assoc.
Qed.

Lemma reports_errors_code {A} (run : CLI A) :
  reports_errors run -> exit_code run = 0 \/ exit_code run = 2.
Proof.
  unfold exit_code. intros [(a & -> & _)|(msg & t & ->)]; [by left|by right].
Qed.

(** [main] ends with code 1 exactly when the flags name no command, or
    name a file without a confirmation code or a confirmation code
    without a file.  It has then written one line to standard error and
    done nothing else: no client is made, no file is opened, nothing is
    sent. *)
Theorem main_usage_errors (flags : Flags) :
  (exit_code (main flags) = 1
   <-> (flag_q flags = "" /\ flag_f flags = "")
       \/ (flag_f flags <> "" /\ flag_c flags = "")
       \/ (flag_c flags <> "" /\ flag_f flags = ""))
  /\ (exit_code (main flags) = 1 -> exists msg, (main flags).2 = [Stderr msg []]).
Proof.
  destruct (bool_decide (flag_q flags = "") && bool_decide (flag_f flags = "")) eqn:Hcmd.
  { rewrite main_run, Hcmd. split; [|by eexists]. split; [|reflexivity]. intros _. left.
    apply andb_true_iff in Hcmd as [Hq Hf].
    by apply bool_decide_eq_true in Hq, Hf. }
  destruct (negb (bool_decide (flag_f flags = "")) && bool_decide (flag_c flags = "")
            || negb (bool_decide (flag_c flags = "")) && bool_decide (flag_f flags = ""))
    eqn:Hpair.
  { rewrite main_run, Hcmd, Hpair. split; [|by eexists]. split; [|reflexivity]. intros _. right.
    apply orb_true_iff in Hpair as [[Hf Hc]%andb_true_iff|[Hc Hf]%andb_true_iff].
    - left. apply negb_true_iff, bool_decide_eq_false in Hf.
      by apply bool_decide_eq_true in Hc.
    - right. apply negb_true_iff, bool_decide_eq_false in Hc.
      by apply bool_decide_eq_true in Hf. }
  assert (Hcode : exit_code (main flags) <> 1).
  { destruct (reports_errors_code _ (main_reports flags Hcmd Hpair)) as [-> | ->]; lia. }
  split; [|done]. split; [done|]. intros Husage. exfalso.
  destruct Husage as [[Hq Hf]|[[Hf Hc]|[Hc Hf]]].
  - by rewrite !bool_decide_eq_true_2 in Hcmd.
  - rewrite (bool_decide_eq_false_2 _ Hf), (bool_decide_eq_true_2 _ Hc) in Hpair. done.
  - rewrite (bool_decide_eq_false_2 _ Hc), (bool_decide_eq_true_2 _ Hf) in Hpair.
    by destruct (bool_decide (flag_c flags = "")).
Qed.

(** [main] ends with code 0, 1 or 2.  When it ends with code 2, the
    last thing it wrote is the line for the error on standard error;
    when it ends with code 0, it has written nothing to standard error
    itself. *)
Theorem main_exit_codes (flags : Flags) :
  (exit_code (main flags) = 0 \/ exit_code (main flags) = 1 \/ exit_code (main flags) = 2)
  /\ (exit_code (main flags) = 2 ->
      exists msg t, (main flags).2 = t ++ [error_line msg])
  /\ (exit_code (main flags) = 0 ->
      forall format args, ~ In (Stderr format args) (main flags).2).
Proof.
  destruct (bool_decide (flag_q flags = "") && bool_decide (flag_f flags = "")) eqn:Hcmd.
  { rewrite main_run, Hcmd. unfold exit_code. cbn [fst snd]. repeat split; [tauto|done..]. }
  destruct (negb (bool_decide (flag_f flags = "")) && bool_decide (flag_c flags = "")
            || negb (bool_decide (flag_c flags = "")) && bool_decide (flag_f flags = ""))
    eqn:Hpair.
  { rewrite main_run, Hcmd, Hpair. unfold exit_code. cbn [fst snd].
    repeat split; [tauto|done..]. }
  destruct (main_reports flags Hcmd Hpair) as [(a & Ha & Hnone)|(msg & t & Hrun)].
  - unfold exit_code. rewrite Ha. repeat split; [tauto|done|done].
  - rewrite Hrun. unfold exit_code. cbn [fst snd]. repeat split; [tauto| |done].
    intros _. by exists msg, t.
Qed.

Lemma In_unlogged (e : Event) (t : list Event) :
  In e t -> is_log e = false -> In e (unlogged t).
Proof. intros Hin He. apply List.filter_In. by rewrite He. Qed.

Lemma logs_no_file (t : list Event) (path : string) :
  forallb is_log t = true -> ~ In (OpenFile path) t.
Proof.
  intros Hlog Hin. apply In_unlogged in Hin; [|reflexivity].
  by rewrite (unlogged_log _ Hlog) in Hin.
Qed.

Lemma Query_no_file (c : Client) (classifiers : string) (hash : list string)
    (path : string) :
  ~ In (OpenFile path) (trace (Query c classifiers hash)).
Proof.
  intros Hin. apply In_unlogged in Hin; [|reflexivity].
  destruct hash as [|h0 hash]; [destruct Hin|].
  rewrite Query_unfold, bind_ret_trace, do_unlogged in Hin by done.
  destruct (do_request _ _ _ _ _ _) as [e|req]; [destruct Hin|].
  destruct (httpc c req) as [e|resp]; [simpl in Hin; intuition discriminate|].
  destruct (dump_closes c resp _); simpl in Hin; intuition discriminate.
Qed.

(** The client [main] makes. *)
Lemma main_client (flags : Flags) (inf : Client) :
  value (New [SetErrorLog (Some stderr_errorlog); SetURL (flag_url flags);
              SetKey (flag_key flags)]) = inr inf ->
  key inf = flag_key flags
  /\ url inf = with_separator (if decide (flag_url flags = "") then DefaultURL
                               else flag_url flags)
  /\ httpc inf = DefaultClient.
Proof.
  intros Hnew.
  destruct (New _) as [r t] eqn:Hrun. unfold value in Hnew. simpl in Hnew. subst r.
  change [SetErrorLog (Some stderr_errorlog); SetURL (flag_url flags);
          SetKey (flag_key flags)]
    with (map option_of [CallSetErrorLog (Some stderr_errorlog);
                         CallSetURL (flag_url flags); CallSetKey (flag_key flags)])
    in Hrun.
  destruct (New_succeeds _ _ _ Hrun) as [_ (t' & Hopts)].
  destruct (run_options_last_wins _ _ _ _ Hopts) as (Hk & Hu & Hh & _).
  by repeat split.
Qed.

Lemma main_New_logs (flags : Flags) :
  forallb is_log
    (trace (New [SetErrorLog (Some stderr_errorlog); SetURL (flag_url flags);
                 SetKey (flag_key flags)])) = true.
Proof.
  apply (New_logs [CallSetErrorLog (Some stderr_errorlog);
                   CallSetURL (flag_url flags); CallSetKey (flag_key flags)]).
Qed.

Lemma usage_passes (flags : Flags) :
  flag_q flags <> "" \/ flag_f flags <> "" ->
  (flag_f flags = "" <-> flag_c flags = "") ->
  bool_decide (flag_q flags = "") && bool_decide (flag_f flags = "") = false
  /\ negb (bool_decide (flag_f flags = "")) && bool_decide (flag_c flags = "")
     || negb (bool_decide (flag_c flags = "")) && bool_decide (flag_f flags = "") = false.
Proof.
  intros Hcmd Hpair. split.
  - apply andb_false_iff. destruct Hcmd as [Hq|Hf]; [left|right];
      by apply bool_decide_eq_false.
  - destruct (decide (flag_f flags = "")) as [Hf|Hf].
    + rewrite (bool_decide_eq_true_2 _ Hf), (bool_decide_eq_true_2 _ (proj1 Hpair Hf)).
      reflexivity.
    + assert (Hc : flag_c flags <> "") by tauto.
      rewrite (bool_decide_eq_false_2 _ Hf), (bool_decide_eq_false_2 _ Hc). reflexivity.
Qed.

(** An error ends the run where it occurs.  When the client cannot be
    made (an empty key, a bad URL), [main] ends with code 2 after the
    line for that error and nothing is sent.  When the query fails,
    [main] ends with code 2 after the line for that error: nothing is
    printed on standard output, not even the entries that the query
    returned with its error, and the file of [-f] is not opened. *)
Theorem main_stops_at_first_error (flags : Flags)
    (Hcmd : flag_q flags <> "" \/ flag_f flags <> "")
    (Hpair : flag_f flags = "" <-> flag_c flags = "") :
  let n := New [SetErrorLog (Some stderr_errorlog); SetURL (flag_url flags);
                SetKey (flag_key flags)] in
  (forall err,
      value n = inl err ->
      main flags = (inl 2, map Lib (trace n) ++ [error_line (error_string err)])
      /\ cli_network_calls (main flags).2 = [])
  /\ (forall inf e,
         value n = inr inf ->
         flag_q flags <> "" ->
         let inf' := if flag_v flags then with_tracelog (Some stderr_tracelog) inf
                     else inf in
         let r := Query inf' "" (Split (flag_q flags) ","%char) in
         (value r).2 = Some e ->
         main flags
         = (inl 2, map Lib (trace n) ++ map Lib (trace r) ++ [error_line (error_string e)])
         /\ stdout (main flags).2 = []
         /\ forall path, ~ In (Lib (OpenFile path)) (main flags).2).
Proof.
  intros n. destruct (usage_passes flags Hcmd Hpair) as [Hu1 Hu2]. split.
  - intros err Hnew. rewrite main_run, Hu1, Hu2. cbv zeta. fold n. rewrite Hnew.
    split; [reflexivity|]. cbn [snd]. unfold cli_network_calls.
    rewrite lib_events_app, lib_events_Lib. simpl. rewrite app_nil_r.
    apply log_no_network_calls, main_New_logs.
  - intros inf e Hnew Hq inf' r Hr.
    assert (Hrun : main flags
                   = (inl 2, map Lib (trace n) ++ map Lib (trace r)
                             ++ [error_line (error_string e)])).
    { rewrite main_run, Hu1, Hu2. cbv zeta. fold n. rewrite Hnew. fold inf'.
      rewrite query_command_run, (bool_decide_eq_false_2 _ Hq). cbv zeta. fold r.
      rewrite Hr. reflexivity. }
    rewrite Hrun. split; [reflexivity|]. cbn [snd]. split.
    + by rewrite !stdout_app, !stdout_Lib.
    + intros path [Hin|[Hin|Hin]%in_app_or]%in_app_or.
      * apply in_map_iff in Hin as (ev & [= ->] & Hin).
        by apply (logs_no_file _ path (main_New_logs flags)).
      * apply in_map_iff in Hin as (ev & [= ->] & Hin).
        by apply Query_no_file in Hin.
      * destruct Hin as [Hin|[]]. discriminate.
Qed.

Lemma print_query_lib (jsonFormat : bool) (res : option (gmap string QueryResponse)) :
  lib_events (print_query jsonFormat res).2 = [].
Proof.
  destruct (print_query_run jsonFormat res) as [(out & -> & Hout)|(err & _ & ->)];
    [by apply stdout_only|reflexivity].
Qed.

Lemma print_upload_lib (jsonFormat : bool) (res : option (gmap string UploadResponse)) :
  lib_events (print_upload jsonFormat res).2 = [].
Proof.
  destruct (print_upload_run jsonFormat res) as [(out & -> & Hout)|(err & _ & ->)];
    [by apply stdout_only|reflexivity].
Qed.

(** What the library does in the two blocks. *)
Lemma query_command_lib (inf : Client) (flags : Flags) :
  lib_events (query_command inf flags).2
  = if bool_decide (flag_q flags = "") then []
    else trace (Query inf "" (Split (flag_q flags) ","%char)).
Proof.
  rewrite query_command_run. destruct (bool_decide _); [reflexivity|]. cbv zeta.
  destruct ((value _).2); cbn [snd]; rewrite lib_events_app, lib_events_Lib.
  - apply app_nil_r.
  - by rewrite print_query_lib, app_nil_r.
Qed.

Lemma upload_command_lib (inf : Client) (flags : Flags) :
  lib_events (upload_command inf flags).2
  = if bool_decide (flag_f flags = "") then []
    else trace (UploadFile inf (flag_c flags) (flag_f flags)).
Proof.
  rewrite upload_command_run. destruct (bool_decide _); [reflexivity|]. cbv zeta.
  destruct ((value _).2); cbn [snd]; rewrite lib_events_app, lib_events_Lib.
  - apply app_nil_r.
  - by rewrite print_upload_lib, app_nil_r.
Qed.

(** A request of a run is a request of its query or of its upload. *)
Lemma main_sent (flags : Flags) (req : Request) :
  In req (cli_network_calls (main flags).2) ->
  exists inf,
    value (New [SetErrorLog (Some stderr_errorlog); SetURL (flag_url flags);
                SetKey (flag_key flags)]) = inr inf
    /\ let inf' := if flag_v flags then with_tracelog (Some stderr_tracelog) inf
                   else inf in
       (flag_q flags <> ""
        /\ In req (network_calls (trace (Query inf' "" (Split (flag_q flags) ","%char)))))
       \/ (flag_f flags <> ""
           /\ In req (network_calls
                        (trace (UploadFile inf' (flag_c flags) (flag_f flags))))).
Proof.
  rewrite main_run. unfold cli_network_calls.
  destruct (_ && _); [intros []|]. destruct (_ || _); [intros []|]. cbv zeta.
  destruct (value (New _)) as [err|inf] eqn:Hnew.
  { cbn [snd]. rewrite lib_events_app, lib_events_Lib. simpl. rewrite app_nil_r.
    by rewrite (log_no_network_calls _ (main_New_logs flags)). }
  set (inf' := if flag_v flags then _ else inf).
  intros Hsent. exists inf. split; [reflexivity|].
  assert (Hin : In req (network_calls (lib_events (query_command inf' flags).2))
                \/ In req (network_calls (lib_events (upload_command inf' flags).2))).
  { destruct ((query_command inf' flags).1); cbn [snd] in Hsent;
      rewrite !lib_events_app, lib_events_Lib, !network_calls_app in Hsent;
      rewrite (log_no_network_calls _ (main_New_logs flags)) in Hsent;
      cbn [app] in Hsent; [by left|].
    apply in_app_or in Hsent. tauto. }
  rewrite query_command_lib, upload_command_lib in Hin.
  destruct Hin as [Hin|Hin]; [left|right].
  - destruct (bool_decide (flag_q flags = "")) eqn:Hq; [destruct Hin|].
    by apply bool_decide_eq_false in Hq.
  - destruct (bool_decide (flag_f flags = "")) eqn:Hf; [destruct Hin|].
    by apply bool_decide_eq_false in Hf.
Qed.

Lemma UploadFile_sent (c : Client) (confirmCode path : string) (req : Request) :
  In req (network_calls (trace (UploadFile c confirmCode path))) ->
  exists f, os_Open path = inr f
            /\ In req (network_calls (trace (Upload c confirmCode (Some f)))).
Proof.
  destruct (os_Open path) as [err|f] eqn:Hopen.
  { unfold UploadFile. rewrite Hopen. intros []. }
  rewrite (UploadFile_opened _ _ _ _ Hopen). unfold trace at 1. cbn [snd].
  change (OpenFile path :: ?t ++ [CloseFile path])
    with ([OpenFile path] ++ t ++ [CloseFile path]).
  rewrite !network_calls_app. simpl. rewrite app_nil_r. eauto.
Qed.

(** Every request of a run of [main] is one of two.  It carries the
    key of [-k] and goes to the URL of [-url] (the default URL when
    that is empty), with a separator appended when it has none.  It is
    either the GET of the query, whose parameter [h] is the value of
    [-q] as it was given, commas included: splitting it and joining it
    again changes nothing; or the PUT of the upload, to [u/] followed by
    the confirmation code of [-c]. *)
Theorem main_requests (flags : Flags) (req : Request)
    (Hsent : In req (cli_network_calls (main flags).2)) :
  let base := with_separator (if decide (flag_url flags = "") then DefaultURL
                              else flag_url flags) in
  ReqHeader req !! "X-Iauth" = Some [flag_key flags]
  /\ ((flag_q flags <> ""
       /\ Method req = "GET"
       /\ ReqURL req = base +:+ "q?c=all&h=" +:+ QueryEscape (flag_q flags)
       /\ ReqBody req = None)
      \/ (flag_f flags <> ""
          /\ flag_c flags <> ""
          /\ Method req = "PUT"
          /\ ReqURL req = base +:+ "u/" +:+ flag_c flags)).
Proof.
  intros base. destruct (main_sent _ _ Hsent) as (inf & Hnew & Hin).
  destruct (main_client _ _ Hnew) as (Hkey & Hurl & _).
  set (inf' := if flag_v flags then with_tracelog (Some stderr_tracelog) inf else inf)
    in Hin.
  assert (Hkey' : key inf' = flag_key flags) by (subst inf'; by destruct (flag_v flags)).
  assert (Hurl' : url inf' = base) by (subst inf'; by destruct (flag_v flags)).
  cbv zeta in Hin. destruct Hin as [[Hq Hin]|[Hf Hin]].
  - apply Query_sent in Hin as [_ Hreq].
    apply do_request_fields in Hreq as (Hm & Hu & Hb & Hh).
    split; [rewrite Hh, Hkey'; vm_compute; reflexivity|]. left.
    repeat split; [done|exact Hm| |exact Hb].
    rewrite Hu, Hurl'. rewrite decide_True by reflexivity.
    rewrite Query_rawurl, Query_encoded, (Join_Split (flag_q flags) ","%char).
    reflexivity.
  - apply UploadFile_sent in Hin as (file & Hopen & Hin).
    apply Upload_sent_inv in Hin as (d & _ & Hcode & _ & Hreq).
    apply do_request_fields in Hreq as (Hm & Hu & Hb & Hh).
    split; [rewrite Hh, Hkey'; vm_compute; reflexivity|]. right.
    repeat split; [done|done|exact Hm|].
    rewrite Hu, Hurl'. reflexivity.
Qed.

(** The verbosity flag changes nothing that shows outside the process
    but the log, when the bodies of the responses read to their end:
    with [-v] and without it, [main] ends with the same code, prints
    the same on standard output and on standard error itself, sends the
    same requests and opens and closes the same files. *)
Theorem main_verbosity_only_logs (k u q f c : string) (jsonFormat : bool)
    (Hbody : forall req resp, DefaultClient req = inr resp -> BodyError resp = None) :
  let loud := mkFlags k u q f c jsonFormat true in
  let quiet := mkFlags k u q f c jsonFormat false in
  (main loud).1 = (main quiet).1
  /\ cli_outward (main loud).2 = cli_outward (main quiet).2.
Proof.
  intros loud quiet. rewrite !main_run.
  cbn [loud quiet flag_key flag_url flag_q flag_f flag_c flag_jsonFormat flag_v].
  destruct (_ && _); [by split|]. destruct (_ || _); [by split|]. cbv zeta.
  destruct (value (New _)) as [err|inf] eqn:Hnew; [by split|].
  assert (Hhttp : httpc inf = DefaultClient).
  { by destruct (main_client (mkFlags k u q f c jsonFormat true) inf Hnew) as (_ & _ & ?). }
  assert (Hbody' : forall req resp,
             httpc (with_tracelog (Some stderr_tracelog) inf) req = inr resp ->
             BodyError resp = None).
  { intros req resp. cbn [httpc with_tracelog]. rewrite Hhttp. apply Hbody. }
  destruct (operations_loggers_ext (with_tracelog (Some stderr_tracelog) inf) inf
              eq_refl eq_refl eq_refl Hbody') as (HQ & _ & HU).
  assert (Hq : (query_command (with_tracelog (Some stderr_tracelog) inf) loud).1
               = (query_command inf quiet).1
               /\ cli_outward (query_command (with_tracelog (Some stderr_tracelog) inf)
                                 loud).2
                  = cli_outward (query_command inf quiet).2).
  { rewrite !query_command_run.
    cbn [loud quiet flag_q flag_jsonFormat].
    destruct (bool_decide (q = "")); [by split|]. cbv zeta.
    destruct (HQ "" (Split q ","%char)) as [Hv Ht]. rewrite Hv.
    destruct ((value _).2); cbn [fst snd]; (split; [reflexivity|]);
      by rewrite !cli_outward_app, !cli_outward_Lib, Ht. }
  assert (Hu : (upload_command (with_tracelog (Some stderr_tracelog) inf) loud).1
               = (upload_command inf quiet).1
               /\ cli_outward (upload_command (with_tracelog (Some stderr_tracelog) inf)
                                 loud).2
                  = cli_outward (upload_command inf quiet).2).
  { rewrite !upload_command_run.
    cbn [loud quiet flag_f flag_c flag_jsonFormat].
    destruct (bool_decide (f = "")); [by split|]. cbv zeta.
    destruct (HU c f) as [Hv Ht]. rewrite Hv.
    destruct ((value _).2); cbn [fst snd]; (split; [reflexivity|]);
      by rewrite !cli_outward_app, !cli_outward_Lib, Ht. }
  destruct Hq as [Hq1 Hq2], Hu as [Hu1 Hu2]. rewrite Hq1.
  destruct ((query_command inf quiet).1); cbn [fst snd].
  - split; [reflexivity|]. by rewrite !cli_outward_app, Hq2.
  - split; [exact Hu1|]. by rewrite !cli_outward_app, Hq2, Hu2.
Qed.

End ToolProps.

(** ** The further properties at work *)

(** With both loggers and an error status, the body is closed twice:
    by the dump for the error logger and by the deferred close. *)
Lemma response_body_closed_last_witness :
  let c := sample_client (Some 1%nat) (Some 2%nat) sample_failed in
  exists req,
    unlogged (trace (do (V := QueryResponse) c "GET" "q" ∅ None 0 (DecodeInto (Some ∅))))
    = [RoundTrip req; CloseBody; CloseBody].
Proof.
  intros c.
  destruct (do_request c "GET" "q" ∅ None 0) as [e|req] eqn:Hreq;
    [vm_compute in Hreq; discriminate Hreq|].
  pose proof (response_body_closed_last (V := QueryResponse) c "GET" "q" ∅ None 0
                (DecodeInto (Some ∅)) req Hreq) as Hclosed.
  cbv zeta in Hclosed. destruct Hclosed as [Hresp _].
  exists req. exact (proj2 (Hresp sample_failed eq_refl)).
Defined.


Lemma transport_failure_returned_unlogged_witness :
  let c := sample_offline (Some 1%nat) None in
  value (do (V := QueryResponse) c "GET" "q" ∅ None 0 (DecodeInto (Some ∅)))
  = (DecodeInto (Some ∅), Some (ForeignError "net" "dial tcp: network is unreachable"))
  /\ printed 1%nat
       (trace (do (V := QueryResponse) c "GET" "q" ∅ None 0 (DecodeInto (Some ∅)))) = [].
Proof.
  intros c.
  destruct (do_request c "GET" "q" ∅ None 0) as [e|req] eqn:Hreq;
    [vm_compute in Hreq; discriminate Hreq|].
  assert (Hfail : httpc c req
                  = inl (ForeignError "net" "dial tcp: network is unreachable"))
    by reflexivity.
  destruct (transport_failure_returned_unlogged (V := QueryResponse) c "GET" "q" ∅ None 0
              (DecodeInto (Some ∅)) req _ Hreq Hfail) as (Hvalue & Hquiet & _).
  split; [exact Hvalue|]. apply Hquiet. discriminate.
Defined.

Lemma do_silent_without_loggers_witness :
  let c := sample_client None None sample_ok in
  exists req,
    trace (do (V := QueryResponse) c "GET" "q" ∅ None 0 (DecodeInto (Some ∅)))
    = [RoundTrip req; CloseBody].
Proof.
  intros c.
  assert (Herr : errorlog c = None) by reflexivity.
  assert (Htrace : tracelog c = None) by reflexivity.
  pose proof (do_silent_without_loggers (V := QueryResponse) c "GET" "q" ∅ None 0
                (DecodeInto (Some ∅)) Herr Htrace) as Hsilent.
  destruct (do_request c "GET" "q" ∅ None 0) as [e|req] eqn:Hreq;
    [vm_compute in Hreq; discriminate Hreq|].
  exists req. exact Hsilent.
Defined.

Lemma do_traces_around_the_call_witness :
  let c := sample_client None (Some 2%nat) sample_ok in
  exists req rest,
    trace (do (V := QueryResponse) c "GET" "q" ∅ None 0 (DecodeInto (Some ∅)))
    = match DumpRequestOut req with
      | Some out => [Printf 2%nat ("%s" +:+ LF) [out]]
      | None => []
      end
      ++ Timing 2%nat Started "q" :: RoundTrip req :: Timing 2%nat Ended "q" :: rest.
Proof.
  intros c.
  destruct (do_request c "GET" "q" ∅ None 0) as [e|req] eqn:Hreq;
    [vm_compute in Hreq; discriminate Hreq|].
  assert (Hlog : tracelog c = Some 2%nat) by reflexivity.
  exists req.
  exact (do_traces_around_the_call (V := QueryResponse) c "GET" "q" ∅ None 0
           (DecodeInto (Some ∅)) req 2%nat Hreq Hlog).
Defined.

Lemma do_sends_these_headers_witness :
  let c := sample_client None None sample_ok in
  exists req,
    In req (network_calls
              (trace (do (V := QueryResponse) c "GET" "q" ∅ None 0 (DecodeInto (Some ∅)))))
    /\ ReqURL req = "https://api.example/apiv2/q"
    /\ ReqHeader req = {[ "Accept" := ["application/json"]; "X-Iauth" := ["k3y"] ]}.
Proof.
  intros c.
  destruct (do_request c "GET" "q" ∅ None 0) as [e|req] eqn:Hreq;
    [vm_compute in Hreq; discriminate Hreq|].
  assert (Hsent : In req (network_calls
                            (trace (do (V := QueryResponse) c "GET" "q" ∅ None 0
                                      (DecodeInto (Some ∅)))))).
  { rewrite (do_network_calls c _ _ _ _ _ _ _ Hreq). left. reflexivity. }
  exists req. split; [exact Hsent|].
  destruct (do_sends_these_headers (V := QueryResponse) c "GET" "q" ∅ None 0
              (DecodeInto (Some ∅)) req Hsent) as (_ & Hurl & _ & Hheader).
  split; [exact Hurl|exact Hheader].
Defined.

Lemma operations_independent_of_loggers_witness :
  let c := sample_client (Some 1%nat) (Some 2%nat) sample_ok in
  let c' := sample_client None None sample_ok in
  value (Query c "" ["abc123"]) = value (Query c' "" ["abc123"])
  /\ outward (trace (Query c "" ["abc123"])) = outward (trace (Query c' "" ["abc123"])).
Proof.
  intros c c'.
  assert (Hkey : key c = key c') by reflexivity.
  assert (Hurl : url c = url c') by reflexivity.
  assert (Hhttp : httpc c = httpc c') by reflexivity.
  assert (Hbody : forall req resp, httpc c req = inr resp -> BodyError resp = None).
  { intros req resp Hresp. injection Hresp as <-. reflexivity. }
  exact (proj1 (operations_independent_of_loggers c c' Hkey Hurl Hhttp Hbody)
           "" ["abc123"]).
Defined.

Lemma New_last_option_wins_witness :
  let calls := [CallSetKey "first"; CallSetURL "http://localhost:8080"; CallSetKey "k3y"] in
  exists c t,
    New (map option_of calls) = (inr c, t)
    /\ Some "k3y" = Some (key c)
    /\ url c = "http://localhost:8080/".
Proof.
  intros calls.
  destruct (New (map option_of calls)) as [[e|c] t] eqn:Hnew;
    [vm_compute in Hnew; discriminate Hnew|].
  exists c, t. split; [reflexivity|].
  destruct (New_last_option_wins calls c t Hnew) as (_ & Hkey & _ & Hurl & _).
  split; [exact Hkey|exact Hurl].
Defined.

Lemma gunzip_Upload_closed_witness :
  gunzip (Upload_closed sample_hello) = Some (bytes_of_string "hello").
Proof. exact (gunzip_Upload_closed ref_Flate_laws sample_hello). Defined.

Lemma Upload_read_error_aborts_witness :
  Upload (sample_client None None sample_ok) "CODE1" (Some sample_broken)
  = ((None, Some (ForeignError "io" "unexpected EOF")), []).
Proof.
  assert (Hcode : "CODE1" <> "") by discriminate.
  assert (Hread : failure sample_broken = Some (ForeignError "io" "unexpected EOF"))
    by reflexivity.
  exact (proj1 (Upload_read_error_aborts (sample_client None None sample_ok) "CODE1"
                  sample_broken _ Hcode Hread)).
Defined.

(** Without a network the query of the sample command line fails: the
    run ends with code 2, prints nothing, and leaves the file alone.
    Without a key there is no client and nothing is sent. *)
Lemma main_stops_at_first_error_witness :
  exit_code (main sample_flags) = 2
  /\ stdout (main sample_flags).2 = []
  /\ (forall path, ~ In (Lib (OpenFile path)) (main sample_flags).2)
  /\ exit_code (main sample_flags_no_key) = 2
  /\ cli_network_calls (main sample_flags_no_key).2 = [].
Proof.
  assert (Hcmd : flag_q sample_flags <> "" \/ flag_f sample_flags <> "")
    by (left; discriminate).
  assert (Hpair : flag_f sample_flags = "" <-> flag_c sample_flags = "")
    by (split; discriminate).
  pose proof (main_stops_at_first_error sample_flags Hcmd Hpair) as Hrun.
  cbv zeta in Hrun. destruct Hrun as [_ Hquery].
  assert (Hnew : value (New [SetErrorLog (Some stderr_errorlog);
                             SetURL (flag_url sample_flags);
                             SetKey (flag_key sample_flags)])
                 = inr (mkClient "k3y" DefaultURL (Some stderr_errorlog) None DefaultClient))
    by reflexivity.
  assert (Hq : flag_q sample_flags <> "") by discriminate.
  destruct (Hquery _ (ForeignError "net" "dial tcp: network is unreachable") Hnew Hq
              eq_refl) as (Hmain & Hout & Hfile).
  assert (Hcmd' : flag_q sample_flags_no_key <> "" \/ flag_f sample_flags_no_key <> "")
    by (left; discriminate).
  assert (Hpair' : flag_f sample_flags_no_key = "" <-> flag_c sample_flags_no_key = "")
    by (split; reflexivity).
  pose proof (main_stops_at_first_error sample_flags_no_key Hcmd' Hpair') as Hrun'.
  cbv zeta in Hrun'. destruct Hrun' as [Hclient _].
  destruct (Hclient (OwnError ErrMissingCredentials) eq_refl) as [Hmain' Hnone].
  split; [by rewrite Hmain|]. split; [exact Hout|]. split; [exact Hfile|].
  split; [by rewrite Hmain'|exact Hnone].
Defined.

Lemma main_requests_witness :
  exists req,
    In req (cli_network_calls (main sample_flags).2)
    /\ ReqHeader req !! "X-Iauth" = Some ["k3y"].
Proof.
  destruct (cli_network_calls (main sample_flags).2) as [|req reqs] eqn:Hcalls;
    [vm_compute in Hcalls; discriminate Hcalls|].
  exists req. split; [left; reflexivity|].
  assert (Hsent : In req (cli_network_calls (main sample_flags).2))
    by (rewrite Hcalls; left; reflexivity).
  exact (proj1 (main_requests sample_flags req Hsent)).
Defined.

(** The sample query with a server that answers, with [-v] and
    without. *)
Lemma main_verbosity_only_logs_witness :
  let loud := mkFlags "k3y" "" "abc123,ff" "" "" false true in
  let quiet := mkFlags "k3y" "" "abc123,ff" "" "" false false in
  (@main online_StdLib _ _ _ _ loud).1 = (@main online_StdLib _ _ _ _ quiet).1
  /\ cli_outward (@main online_StdLib _ _ _ _ loud).2
     = cli_outward (@main online_StdLib _ _ _ _ quiet).2.
Proof.
  assert (Hbody : forall req resp,
             @DefaultClient online_StdLib req = inr resp -> BodyError resp = None).
  { intros req resp Hresp. injection Hresp as <-. reflexivity. }
  exact (@main_verbosity_only_logs online_StdLib _ _ _ _ "k3y" "" "abc123,ff" "" "" false
           Hbody).
Defined.
